(** * samplesheet_tool: resolution and validation engine

    A shallow embedding of the Python package [samplesheet_tool]
    (utils.py, config.py, indexes.py, io_normalize.py, resolve.py,
    validate.py, context.py) together with the properties of its
    natural-language specification.

    Conventions of the embedding
    - a Python [str] is a [string]; the characters are those of ASCII text
      (barcodes, identifiers, lane cells), so case mapping and white space
      are the ASCII ones;
    - a cell of a pandas table is a [PyVal]: [None], a float NaN, an
      integer, or a string;
    - a DataFrame is the list of its rows, in row order;
    - a Python [dict] is an insertion-ordered association list with
      distinct keys ([Dict]); the per-lane result of the validator, which
      is only read by key, is a [gmap];
    - a raised [ValueError] is the [inl] of a sum, the accumulated
      [Problem]s are an ordinary list. *)

From stdpp Require Import gmap strings list fin_maps pretty sorting.
From Stdlib Require Import ZArith Ascii.

Local Open Scope string_scope.
Local Open Scope Z_scope.

(** ** Python primitives *)

Module Py.

(** A value found in a table cell. *)
Inductive PyVal : Type :=
| PNone
| PNaN
| PInt (z : Z)
| PStr (s : string).

(** [str(x)] *)
Definition str (x : PyVal) : string :=
  match x with
  | PNone => "None"
  | PNaN => "nan"
  | PInt z => pretty z
  | PStr s => s
  end.

(** [pd.isna(x)] on a scalar *)
Definition isna (x : PyVal) : bool :=
  match x with
  | PNone | PNaN => true
  | _ => false
  end.

(** [c.isspace()]: tab, line feed, vertical tab, form feed, carriage
    return, the four separators 0x1c-0x1f, and space. *)
Definition isspace (c : ascii) : bool :=
  let n := N_of_ascii c in
  ((9 <=? n) && (n <=? 13) || (28 <=? n) && (n <=? 32))%N.

Definition upper_char (c : ascii) : ascii :=
  let n := N_of_ascii c in
  if ((97 <=? n) && (n <=? 122))%N then ascii_of_N (n - 32) else c.

Definition lower_char (c : ascii) : ascii :=
  let n := N_of_ascii c in
  if ((65 <=? n) && (n <=? 90))%N then ascii_of_N (n + 32) else c.

Fixpoint smap (f : ascii -> ascii) (s : string) : string :=
  match s with
  | EmptyString => EmptyString
  | String c r => String (f c) (smap f r)
  end.

(** [s.upper()], [s.lower()] *)
Definition upper : string -> string := smap upper_char.
Definition lower : string -> string := smap lower_char.

(** [s.lstrip()] *)
Fixpoint lstrip (s : string) : string :=
  match s with
  | EmptyString => EmptyString
  | String c r => if isspace c then lstrip r else s
  end.

Definition is_empty (s : string) : bool :=
  match s with EmptyString => true | _ => false end.

(** [s.rstrip()] *)
Fixpoint rstrip (s : string) : string :=
  match s with
  | EmptyString => EmptyString
  | String c r =>
      let r' := rstrip r in
      if isspace c && is_empty r' then EmptyString else String c r'
  end.

(** [s.strip()] *)
Definition strip (s : string) : string := lstrip (rstrip s).

(** [s.replace(" ", "")] *)
Fixpoint remove_spaces (s : string) : string :=
  match s with
  | EmptyString => EmptyString
  | String c r =>
      if Ascii.eqb c " "%char then remove_spaces r
      else String c (remove_spaces r)
  end.

(** [len(s)] *)
Definition len (s : string) : nat := String.length s.

(** [s[:n]] for [n >= 0] *)
Fixpoint take (n : nat) (s : string) : string :=
  match n, s with
  | S k, String c r => String c (take k r)
  | _, _ => EmptyString
  end.

(** [sep.join(xs)] *)
Fixpoint join (sep : string) (xs : list string) : string :=
  match xs with
  | [] => EmptyString
  | [x] => x
  | x :: r => x +:+ sep +:+ join sep r
  end.

(** Truthiness of a cell: [None], [0] and the empty string are false
    (a NaN is true). *)
Definition truth (x : PyVal) : bool :=
  match x with
  | PNone => false
  | PNaN => true
  | PInt z => negb (z =? 0)
  | PStr s => negb (is_empty s)
  end.

(** [min(xs)] over a non-empty list of lengths; [d] on the empty list
    (callers guard the empty case). *)
Definition min_list (d : nat) (xs : list nat) : nat :=
  match xs with
  | [] => d
  | x :: r => foldl Nat.min x r
  end.

(** [pd.Series(xs).duplicated(keep=False)]: a flag per item telling
    whether it occurs more than once. *)
Definition duplicated_all `{EqDecision A} (xs : list A) : list bool :=
  map (fun x => bool_decide (1 < List.length (filter (fun y => y = x) xs))%nat) xs.

(** [pd.Series(xs).duplicated()]: a flag per item telling whether it
    occurred before. *)
Fixpoint duplicated_from `{EqDecision A} (seen xs : list A) : list bool :=
  match xs with
  | [] => []
  | x :: r => bool_decide (x ∈ seen) :: duplicated_from (x :: seen) r
  end.

Definition duplicated `{EqDecision A} (xs : list A) : list bool :=
  duplicated_from [] xs.

(** [pd.Series(xs).unique().tolist()]: first occurrences, in order. *)
Fixpoint unique_from `{EqDecision A} (seen xs : list A) : list A :=
  match xs with
  | [] => []
  | x :: r =>
      if bool_decide (x ∈ seen) then unique_from seen r
      else x :: unique_from (x :: seen) r
  end.

Definition unique `{EqDecision A} (xs : list A) : list A :=
  unique_from [] xs.

(** [series[mask]]: the items whose flag is set. *)
Fixpoint select {A} (xs : list A) (mask : list bool) : list A :=
  match xs, mask with
  | x :: r, b :: m => if b then x :: select r m else select r m
  | _, _ => []
  end.

(** [any(flags)] *)
Definition any (flags : list bool) : bool := existsb id flags.

End Py.

Import Py.

(** ** utils.py *)

Definition _is_missing (x : PyVal) : bool :=
  match x with
  | PNone => true
  | _ => isna x
  end.

(** The tokens that stand for a missing value, [{"", "NAN", "NA", "NONE"}]. *)
Definition MISSING_TOKENS : list string := [EmptyString; "NAN"; "NA"; "NONE"].

Definition normalize_seq (s : PyVal) : option string :=
  if _is_missing s then None
  else
    let v := remove_spaces (upper (strip (str s))) in
    if bool_decide (v ∈ MISSING_TOKENS) then None else Some v.

(** [sum(ch1 != ch2 for ch1, ch2 in zip(a, b))] *)
Fixpoint count_diff (a b : string) : nat :=
  match a, b with
  | String x a', String y b' =>
      ((if Ascii.eqb x y then 0 else 1) + count_diff a' b')%nat
  | _, _ => 0%nat
  end.

(** Optional strings as cells: [None] stays [None]. *)
Definition cell (x : option string) : PyVal :=
  match x with
  | Some s => PStr s
  | None => PNone
  end.

Definition hamming (a b : option string) : option nat :=
  match normalize_seq (cell a), normalize_seq (cell b) with
  | Some a', Some b' =>
      if bool_decide (len a' = len b') then Some (count_diff a' b') else None
  | _, _ => None
  end.

Inductive Level : Type := ERROR | WARN | INFO.

Record Problem : Type := mkProblem {
  level : Level;
  code : string;
  message : string;
  p_lane : option Z;
  p_sample_id : option string;
}.

(** ** More Python primitives: sorting, [repr], dictionaries, exceptions *)

Module PyData.

(** Stable insertion sort by a total order given as a boolean test. *)
Fixpoint insert_by {A} (leb : A -> A -> bool) (x : A) (xs : list A) : list A :=
  match xs with
  | [] => [x]
  | y :: r => if leb y x then y :: insert_by leb x r else x :: xs
  end.

Definition sort_by {A} (leb : A -> A -> bool) (xs : list A) : list A :=
  foldl (fun acc x => insert_by leb x acc) [] xs.

(** [sorted(xs)] for strings, ordered by code point. *)
Definition sorted (xs : list string) : list string := sort_by String.leb xs.

(** [sorted(set(xs))] *)
Definition sorted_set (xs : list string) : list string :=
  sorted (unique xs).

(** [xs[i]] where the index is known to be in range. *)
Definition at_index (xs : list string) (i : nat) : string :=
  default EmptyString (xs !! i).

(** [m = d if m is None else min(m, d)] *)
Definition min_update (m : option nat) (d : nat) : option nat :=
  match m with
  | None => Some d
  | Some m' => Some (Nat.min m' d)
  end.

(** The pairs [(xs[i], xs[j])] with [i < j], in the order of the nested
    loops [for i in range(n): for j in range(i + 1, n)]. *)
Fixpoint pairs_of {A} (xs : list A) : list (A * A) :=
  match xs with
  | [] => []
  | x :: r => map (pair x) r ++ pairs_of r
  end.

(** [repr(s)] of a string without quotes, backslashes or control
    characters: the text between single quotes. *)
Definition repr_str (s : string) : string := "'" +:+ s +:+ "'".

Definition repr (x : PyVal) : string :=
  match x with
  | PStr s => repr_str s
  | _ => str x
  end.

(** [repr] of a list: the items' [repr]s between brackets. *)
Definition repr_list (xs : list string) : string :=
  "[" +:+ join ", " xs +:+ "]".

(** [repr] of a pair of strings. *)
Definition repr_pair (p : string * string) : string :=
  "(" +:+ repr_str p.1 +:+ ", " +:+ repr_str p.2 +:+ ")".

(** An insertion-ordered dictionary with string keys. *)
Definition Dict (V : Type) : Type := list (string * V).

(** [d.get(k)] *)
Fixpoint dict_get {V} (d : Dict V) (k : string) : option V :=
  match d with
  | [] => None
  | (k', v) :: r => if decide (k' = k) then Some v else dict_get r k
  end.

(** [d[k] = v]: an existing key keeps its position. *)
Fixpoint dict_set {V} (d : Dict V) (k : string) (v : V) : Dict V :=
  match d with
  | [] => [(k, v)]
  | (k', v') :: r =>
      if decide (k' = k) then (k, v) :: r else (k', v') :: dict_set r k v
  end.

(** [{key(x): val(x) for x in xs}] *)
Definition dict_of_list {V} (kvs : list (string * V)) : Dict V :=
  foldl (fun d kv => dict_set d kv.1 kv.2) [] kvs.

Inductive Exception : Type :=
| ValueError (msg : string)
| RuntimeError (msg : string).

(** The result of a call that may raise. *)
Definition Result (A : Type) : Type := Exception + A.

(** A table as read from a delimited file: column names and rows. *)
Record DataFrame : Type := mkDataFrame {
  columns : list string;
  rows : list (list PyVal);
}.

(** [df[c]], when the column exists; short rows read as NaN. *)
Definition column (df : DataFrame) (c : string) : option (list PyVal) :=
  match list_find (fun x => x = c) (columns df) with
  | Some (i, _) => Some (map (fun r => default PNaN (r !! i)) (rows df))
  | None => None
  end.

End PyData.

Import PyData.

(** ** indexes.py *)

Definition load_single_index_table (path : string) (id_col seq_col : string)
    (df : DataFrame) : Result (list (string * option string)) :=
  let missing := filter (fun c => c ∉ columns df) (unique [id_col; seq_col]) in
  match column df id_col, column df seq_col with
  | Some ids, Some seqs =>
      let out := zip (map (fun x => strip (str x)) ids) (map normalize_seq seqs) in
      (* drop blank IDs *)
      let out := filter (fun r => (0 < len r.1)%nat) out in
      (* missing sequences? *)
      let bad := map (fun r => bool_decide (r.2 = None)) out in
      if any bad then
        let bad_ids := unique (select (map fst out) bad) in
        inl (ValueError
               ("Index table " +:+ path +:+ ": missing Index_Seq for Index_ID(s): "
                +:+ join ", " (firstn 20 bad_ids)
                +:+ (if bool_decide (20 < List.length bad_ids)%nat then " ..." else EmptyString)))
      else
        (* duplication check on Index ID *)
        let dup := duplicated_all (map fst out) in
        if any dup then
          let dup_ids := unique (select (map fst out) dup) in
          inl (ValueError
                 ("Index table " +:+ path +:+ ": duplicate Index_ID(s): "
                  +:+ join ", " (firstn 20 dup_ids)
                  +:+ (if bool_decide (20 < List.length dup_ids)%nat then " ..." else EmptyString)))
        else
          (* duplication check on Index sequence *)
          let dup := duplicated_all (map snd out) in
          if any dup then
            let dup_seqs := unique (map (fun x => str (cell x)) (select (map snd out) dup)) in
            inl (ValueError
                   ("Index table " +:+ path +:+ ": duplicate Index_Seq(s): "
                    +:+ join ", " (firstn 20 dup_seqs)
                    +:+ (if bool_decide (20 < List.length dup_seqs)%nat then " ..." else EmptyString)))
          else inr out
  | _, _ =>
      inl (ValueError (path +:+ ": index table missing columns: "
                       +:+ repr_list (map repr_str (sorted missing))))
  end.

(** [{Index_ID -> Index_Seq}] *)
Definition build_single_lookup (df : list (string * option string)) : Dict string :=
  dict_of_list (map (fun r => (r.1, default EmptyString r.2)) df).

Definition load_paired_index_table (path : string) (pair_id_col i7_col i5_col : string)
    (df : DataFrame) : Result (list (string * (option string * option string))) :=
  let missing := filter (fun c => c ∉ columns df) (unique [pair_id_col; i7_col; i5_col]) in
  match column df pair_id_col, column df i7_col, column df i5_col with
  | Some ids, Some s7, Some s5 =>
      let out := zip (map (fun x => strip (str x)) ids)
                     (zip (map normalize_seq s7) (map normalize_seq s5)) in
      (* drop blank IDs *)
      let out := filter (fun r => (0 < len r.1)%nat) out in
      (* missing index IDs *)
      let bad := map (fun r => bool_decide (r.2.1 = None) || bool_decide (r.2.2 = None)) out in
      if any bad then
        let bad_ids := unique (select (map fst out) bad) in
        inl (ValueError
               ("Paired index table " +:+ path
                +:+ ": missing Index_I7/Index_I5 for Pair_ID(s): "
                +:+ join ", " (firstn 20 bad_ids)
                +:+ (if bool_decide (20 < List.length bad_ids)%nat then " ..." else EmptyString)))
      else
        (* duplicated index IDs *)
        if any (duplicated (map fst out)) then
          let dups := unique (select (map fst out) (duplicated_all (map fst out))) in
          inl (ValueError
                 (path +:+ ": duplicate Pair_ID values: "
                  +:+ repr_list (map repr_str (firstn 10 dups))
                  +:+ (if bool_decide (10 < List.length dups)%nat then "..." else EmptyString)))
        else inr out
  | _, _, _ =>
      inl (ValueError (path +:+ ": paired index table missing columns: "
                       +:+ repr_list (map repr_str (sorted missing))))
  end.

(** [{Pair_ID -> (i7_seq, i5_seq)}] *)
Definition build_pair_lookup (df : list (string * (option string * option string)))
    : Dict (string * string) :=
  dict_of_list
    (map (fun r => (r.1, (default EmptyString r.2.1, default EmptyString r.2.2))) df).

Section Merge.
Context {V : Type} `{EqDecision V}.
(** The text of the collision error, from the key and the two values. *)
Variable collision_message : string -> V -> V -> string.

(** The inner loop, [for k, v in lk.items()]. *)
Fixpoint merge_items (merged : Dict V) (items : list (string * V)) : Result (Dict V) :=
  match items with
  | [] => inr merged
  | (k, v) :: r =>
      match dict_get merged k with
      | Some old =>
          if decide (old = v) then merge_items (dict_set merged k v) r
          else inl (ValueError (collision_message k old v))
      | None => merge_items (dict_set merged k v) r
      end
  end.

(** The outer loop, [for lk in lookups]. *)
Fixpoint merge_from (merged : Dict V) (lookups : list (Dict V)) : Result (Dict V) :=
  match lookups with
  | [] => inr merged
  | lk :: r =>
      match merge_items merged lk with
      | inl e => inl e
      | inr m => merge_from m r
      end
  end.
End Merge.

Definition single_collision_message (k old v : string) : string :=
  "Index ID collision for '" +:+ k +:+ "': '" +:+ old +:+ "' vs '" +:+ v +:+ "'".

Definition pair_collision_message (k : string) (old v : string * string) : string :=
  "Paired Index_ID collision for '" +:+ k +:+ "': " +:+ repr_pair old
  +:+ " vs " +:+ repr_pair v.

Definition merge_single_lookups (lookups : list (Dict string)) : Result (Dict string) :=
  merge_from single_collision_message [] lookups.

Definition merge_pair_lookups (lookups : list (Dict (string * string)))
    : Result (Dict (string * string)) :=
  merge_from pair_collision_message [] lookups.

(** ** Regular expressions, as far as the package uses them *)

Module Re.

Inductive Regex : Type :=
| Empty                       (* matches nothing *)
| Eps                         (* matches the empty string *)
| Cls (p : ascii -> bool)     (* a character class *)
| Seq (r1 r2 : Regex)
| Alt (r1 r2 : Regex)
| Star (r : Regex).

(** [r+] *)
Definition Plus (r : Regex) : Regex := Seq r (Star r).

Fixpoint nullable (r : Regex) : bool :=
  match r with
  | Empty => false
  | Eps => true
  | Cls _ => false
  | Seq r1 r2 => nullable r1 && nullable r2
  | Alt r1 r2 => nullable r1 || nullable r2
  | Star _ => true
  end.

(** The derivative of [r] by the character [c]. *)
Fixpoint deriv (c : ascii) (r : Regex) : Regex :=
  match r with
  | Empty | Eps => Empty
  | Cls p => if p c then Eps else Empty
  | Seq r1 r2 =>
      if nullable r1 then Alt (Seq (deriv c r1) r2) (deriv c r2)
      else Seq (deriv c r1) r2
  | Alt r1 r2 => Alt (deriv c r1) (deriv c r2)
  | Star r1 => Seq (deriv c r1) (Star r1)
  end.

(** The whole of [s] is in the language of [r]. *)
Fixpoint fullmatch (r : Regex) (s : string) : bool :=
  match s with
  | EmptyString => nullable r
  | String c s' => fullmatch (deriv c r) s'
  end.

Fixpoint drop_final_newline (s : string) : option string :=
  match s with
  | EmptyString => None
  | String c EmptyString =>
      if Ascii.eqb c "010"%char then Some EmptyString else None
  | String c r => option_map (String c) (drop_final_newline r)
  end.

(** [re.match("^r$", s)]: the [$] also matches just before a newline
    that ends the string. *)
Definition match_anchored (r : Regex) (s : string) : bool :=
  fullmatch r s ||
  match drop_final_newline s with
  | Some s' => fullmatch r s'
  | None => false
  end.

(** [re.split("[sep]+", s)] for a character class [sep]: the pieces
    between the maximal runs of separators. [in_run] tells that the
    previous character was a separator. *)
Fixpoint split_runs (sep : ascii -> bool) (in_run : bool) (s : string) : list string :=
  match s with
  | EmptyString => [EmptyString]
  | String c r =>
      if sep c then
        if in_run then split_runs sep true r
        else EmptyString :: split_runs sep true r
      else
        match split_runs sep false r with
        | t :: ts => String c t :: ts
        | [] => [String c EmptyString]
        end
  end.

Definition split (sep : ascii -> bool) (s : string) : list string :=
  split_runs sep false s.

Definition in_range (lo hi : ascii) (c : ascii) : bool :=
  ((N_of_ascii lo <=? N_of_ascii c) && (N_of_ascii c <=? N_of_ascii hi))%N.

End Re.

(** ** config.py *)

(** [SAMPLE_ID_ALLOWED = r"^[A-Za-z0-9._-]+$"], the class and the pattern *)
Definition sample_id_char (c : ascii) : bool :=
  Re.in_range "A" "Z" c || Re.in_range "a" "z" c || Re.in_range "0" "9" c
  || Ascii.eqb c "." || Ascii.eqb c "_" || Ascii.eqb c "-".

Definition SAMPLE_ID_ALLOWED : Re.Regex := Re.Plus (Re.Cls sample_id_char).

Definition SAMPLE_ID_ALLOWED_text : string := "^[A-Za-z0-9._-]+$".

Definition DEFAULT_BARCODE_MISMATCHES : Z := 1.

Definition HAMMING_ERROR_DUPLICATE : nat := 0.
Definition HAMMING_WARN_TIGHTEN : nat := 1.
Definition HAMMING_WARN : nat := 2.
Definition HAMMING_OK_MIN : nat := 3.

Definition COL_LANE : string := "lane".
Definition COL_SAMPLE_ID : string := "sample_id".
Definition COL_PROJECT_ID : string := "project_id".
Definition COL_I7_ID : string := "i7_id".
Definition COL_I5_ID : string := "i5_id".
Definition COL_I7 : string := "i7".
Definition COL_I5 : string := "i5".

Definition REQUIRED_CANONICAL_COLS : list string :=
  [COL_LANE; COL_SAMPLE_ID; COL_PROJECT_ID; COL_I7; COL_I5; COL_I7_ID; COL_I5_ID].

(** ** The sample table *)

(** A row of the sample table. The lane is the raw cell before lane
    expansion ([L = PyVal]) and an integer after it ([L = Z]); [extra]
    holds the cells of any further column. *)
Record Row (L : Type) : Type := mkRow {
  lane : L;
  sample_id : PyVal;
  project_id : PyVal;
  i7_id : PyVal;
  i5_id : PyVal;
  i7 : PyVal;
  i5 : PyVal;
  extra : list PyVal;
}.
Arguments mkRow {L}.
Arguments lane {L}.
Arguments sample_id {L}.
Arguments project_id {L}.
Arguments i7_id {L}.
Arguments i5_id {L}.
Arguments i7 {L}.
Arguments i5 {L}.
Arguments extra {L}.

(** The row with another lane cell, every other field copied. *)
Definition with_lane {L L'} (r : Row L) (l : L') : Row L' :=
  mkRow l (sample_id r) (project_id r) (i7_id r) (i5_id r) (i7 r) (i5 r) (extra r).

Definition with_seqs {L} (r : Row L) (s7 s5 : PyVal) : Row L :=
  mkRow (lane r) (sample_id r) (project_id r) (i7_id r) (i5_id r) s7 s5 (extra r).

(** The sample table as read: its column names and its rows. *)
Record Sheet : Type := mkSheet {
  sheet_columns : list string;
  sheet_rows : list (Row PyVal);
}.

(** ** io_normalize.py *)

Definition check_required_columns (cols : list string) : Result unit :=
  let missing := filter (fun c => c ∉ cols) (unique REQUIRED_CANONICAL_COLS) in
  if bool_decide (missing = []) then inr tt
  else inl (ValueError
              ("Missing required columns in input: "
               +:+ repr_list (map repr_str (sorted missing))
               +:+ ". Found columns: "
               +:+ repr_list (map repr_str cols))).

(** convert missing index ids to the empty string *)
Definition _norm_id (x : PyVal) : string :=
  if isna x then EmptyString
  else
    let v := strip (str x) in
    if bool_decide (lower v = "nan") then EmptyString else v.

Definition normalize_minimal (cols : list string) (df : list (Row Z)) : Result (list (Row Z)) :=
  match check_required_columns cols with
  | inl e => inl e
  | inr _ =>
      inr (map (fun r =>
                  mkRow (lane r)
                        (PStr (strip (str (sample_id r))))
                        (PStr (strip (str (project_id r))))
                        (PStr (_norm_id (i7_id r)))
                        (PStr (_norm_id (i5_id r)))
                        (cell (normalize_seq (i7 r)))
                        (cell (normalize_seq (i5 r)))
                        (extra r))
               df)
  end.

(** The separators of a lane cell, [[,\s]]. *)
Definition lane_sep (c : ascii) : bool := Ascii.eqb c "," || isspace c.

(** [r"^[1-8](?:[,\s]+[1-8])*$"] *)
Definition lane_pattern : Re.Regex :=
  Re.Seq (Re.Cls (Re.in_range "1" "8"))
         (Re.Star (Re.Seq (Re.Plus (Re.Cls lane_sep)) (Re.Cls (Re.in_range "1" "8")))).

Definition digit_value (c : ascii) : option Z :=
  if Re.in_range "0" "9" c then Some (Z.of_N (N_of_ascii c) - 48) else None.

(** [int(s)] for a string of decimal digits; [None] where [int] raises. *)
Fixpoint int_digits (acc : Z) (s : string) : option Z :=
  match s with
  | EmptyString => Some acc
  | String c r =>
      match digit_value c with
      | Some d => int_digits (10 * acc + d) r
      | None => None
      end
  end.

Definition int_of_string (s : string) : option Z :=
  match s with
  | EmptyString => None
  | _ => int_digits 0 s
  end.

(** The positions of the set flags, as [df.index[mask].tolist()] gives
    them for a table with the default index. *)
Definition flagged_rows (mask : list bool) : list string :=
  map (fun i : nat => pretty i) (select (seq 0 (List.length mask)) mask).

(** [out.explode(lane_col)] followed by [astype(int)]: one copy of the
    row per listed lane. *)
Definition explode (df : list (Row PyVal)) (lanes : list (list string)) : option (list (Row Z)) :=
  mapM (fun rl : Row PyVal * string =>
          l ← int_of_string rl.2; Some (with_lane rl.1 l))
       (concat (zip_with (fun r ls => map (fun l => (r, l)) ls) df lanes)).

Definition expand_lanes (df : list (Row PyVal)) : Result (list (Row Z)) :=
  let s := map (fun r => strip (str (lane r))) df in
  (* reject empty / nan-like *)
  let empty := map (fun x => bool_decide (x = EmptyString) || bool_decide (lower x = "nan")) s in
  if any empty then
    let bad := flagged_rows empty in
    inl (ValueError ("lane is empty/NaN at row(s): "
                     +:+ repr_list (firstn 20 bad)
                     +:+ (if bool_decide (20 < List.length bad)%nat then " ..." else EmptyString)))
  else
    (* strict format check *)
    let bad_fmt := map (fun x => negb (Re.match_anchored lane_pattern x)) s in
    if any bad_fmt then
      let bad := firstn 10 (select (map lane df) bad_fmt) in
      inl (ValueError
             ("Invalid lane format. Expected like '1' or '1,2,4' (1-8 only). Bad examples: "
              +:+ repr_list (map repr bad)))
    else
      (* split -> explode *)
      let lanes := map (Re.split lane_sep) s in
      match explode df lanes with
      | None => inl (ValueError "invalid literal for int()")
      | Some out =>
          (* duplicates within original row *)
          let dup_mask := map (fun xs => bool_decide (List.length xs ≠ List.length (unique xs))) lanes in
          if any dup_mask then
            let bad_rows := flagged_rows dup_mask in
            inl (ValueError
                   ("Duplicate lane numbers within lane cell at row(s): "
                    +:+ repr_list (firstn 20 bad_rows)
                    +:+ (if bool_decide (20 < List.length bad_rows)%nat then " ..." else EmptyString)))
          else inr out
      end.

(** ** resolve.py *)

Record ResolveResult : Type := mkResolveResult {
  rr_df : list (Row Z);
  rr_problems : list Problem;
}.

(** The first pass over the table: sequences through [normalize_seq],
    IDs through [astype(str).str.strip()]. *)
Definition resolve_prepare (r : Row Z) : Row Z :=
  mkRow (lane r) (sample_id r) (project_id r)
        (PStr (strip (str (i7_id r)))) (PStr (strip (str (i5_id r))))
        (cell (normalize_seq (i7 r))) (cell (normalize_seq (i5 r)))
        (extra r).

(** Treat blank strings as missing. *)
Definition blank_id (x : string) : string :=
  if is_empty x || bool_decide (lower x = "nan") then EmptyString else x.

(** The body of the loop over the rows: the row as it stands in [out]
    afterwards, and the problems appended for it. *)
Definition resolve_row (i7_lookup i5_lookup : Dict string)
    (pair_lookup : option (Dict (string * string))) (r : Row Z)
    : Row Z * list Problem :=
  let lane_ := lane r in
  let sid := strip (str (sample_id r)) in
  let problem c m := mkProblem ERROR c m (Some lane_) (Some sid) in
  (* index sequence *)
  let i7_seq := i7 r in
  let i5_seq := i5 r in
  (* index id *)
  let i7_id_ := blank_id (strip (str (i7_id r))) in
  let i5_id_ := blank_id (strip (str (i5_id r))) in
  (* Case 1: sequences already present *)
  if truth i7_seq && truth i5_seq then (r, [])
  (* Case 2: paired lookup (10x style) *)
  else if negb (is_empty i7_id_) && negb (is_empty i5_id_) && bool_decide (i7_id_ = i5_id_) then
    match pair_lookup with
    | None | Some [] =>
        (r, [problem "PAIR_TABLE_NOT_PROVIDED"
               "Paired index IDs provided (i7_id==i5_id), but no paired index table was loaded."])
    | Some pl =>
        match dict_get pl i7_id_ with
        | None =>
            (r, [problem "PAIR_ID_NOT_FOUND"
                   ("paired Index_ID '" +:+ i7_id_ +:+ "' not found in paired index table.")])
        | Some (seq_i7, seq_i5) =>
            (with_seqs r (cell (normalize_seq (PStr seq_i7)))
                         (cell (normalize_seq (PStr seq_i5))), [])
        end
    end
  else
    (* Case 3: independent resolution; resolve i7 if needed (required) *)
    let '(out_i7, p7) :=
      if negb (truth i7_seq) then
        if is_empty i7_id_ then
          (i7_seq, [problem "I7_MISSING" "Missing i7 sequence and i7_id is empty."])
        else
          match dict_get i7_lookup i7_id_ with
          | None =>
              (i7_seq, [problem "I7_ID_NOT_FOUND"
                          ("i7_id '" +:+ i7_id_ +:+ "' not found in i7 index table.")])
          | Some v => (cell (normalize_seq (PStr v)), [])
          end
      else (i7_seq, []) in
    (* resolve i5 if needed *)
    let '(out_i5, p5) :=
      if negb (truth i5_seq) && negb (is_empty i5_id_) then
        match dict_get i5_lookup i5_id_ with
        | None =>
            (i5_seq, [problem "I5_ID_NOT_FOUND"
                        ("i5_id '" +:+ i5_id_ +:+ "' not found in i5 index table.")])
        | Some v => (cell (normalize_seq (PStr v)), [])
        end
      else (i5_seq, []) in
    (* Final: require i7 sequence to exist after attempts *)
    let pf :=
      if negb (truth out_i7) then
        [problem "I7_SEQUENCE_NOT_RESOLVED" "Could not resolve i7 sequence (required)."]
      else [] in
    (with_seqs r out_i7 out_i5, (p7 ++ p5 ++ pf)%list).

(** The final normalization pass over the sequence columns. *)
Definition resolve_finish (r : Row Z) : Row Z :=
  with_seqs r (cell (normalize_seq (i7 r))) (cell (normalize_seq (i5 r))).

Definition resolve_indexes (df : list (Row Z)) (i7_lookup i5_lookup : Dict string)
    (pair_lookup : option (Dict (string * string))) : ResolveResult :=
  let out := map resolve_prepare df in
  let done := map (resolve_row i7_lookup i5_lookup pair_lookup) out in
  mkResolveResult (map (fun x => resolve_finish x.1) done) (concat (map snd done)).

(** ** validate.py *)

(** Trim sequences to the lane-wise minimum length. *)
Definition _trim_to_lane_min (seqs : list string) : list string :=
  match seqs with
  | [] => []
  | _ =>
      let min_len := min_list 0 (map len seqs) in
      map (take min_len) seqs
  end.

(** One step of the distance loops: an undefined distance is skipped. *)
Definition hamming_step (m : option nat) (xy : string * string) : option nat :=
  match hamming (Some xy.1) (Some xy.2) with
  | None => m
  | Some d => min_update m d
  end.

(** Min pairwise Hamming among unique sequences. *)
Definition _min_pairwise_hamming (seqs : list string) : option nat :=
  let uniq := sorted_set seqs in
  if bool_decide (List.length uniq < 2)%nat then None
  else foldl hamming_step None (pairs_of uniq).

(** Minimum Hamming distance between any seq in a and any seq in b. *)
Definition _min_hamming_between_sets (a b : list string) : option nat :=
  match a, b with
  | [], _ | _, [] => None
  | _, _ => foldl hamming_step None (list_prod a b)
  end.

(** The body of the loop over the pairs of rows of a dual-index lane. *)
Definition effective_step (m : option nat)
    (xy : (option string * option string) * (option string * option string)) : option nat :=
  let '((i7_i, i5_i), (i7_j, i5_j)) := xy in
  match i7_i, i7_j, i5_i, i5_j with
  | Some _, Some _, Some _, Some _ =>
      match hamming i7_i i7_j, hamming i5_i i5_j with
      | Some d7, Some d5 => min_update m (Nat.max d7 d5)
      | _, _ => m
      end
  | _, _, _, _ => m
  end.

(** For dual-index-only lanes: the minimum over all pairs of rows of
    [max(d_i7, d_i5)]; both lists have one entry per row. *)
Definition _min_effective_pair_distance (i7_by_row i5_by_row : list (option string))
    : option nat :=
  let n := List.length i7_by_row in
  if bool_decide (n < 2)%nat then None
  else foldl effective_step None (pairs_of (zip i7_by_row i5_by_row)).

Record ValidationSummary : Type := mkValidationSummary {
  vs_problems : list Problem;
  vs_lane_barcode_mismatches : gmap Z Z;
}.

(** [df.groupby(lane_col)]: the lanes in ascending order, each with its
    rows in table order. *)
Definition groupby_lane (df : list (Row Z)) : list (Z * list (Row Z)) :=
  map (fun l => (l, filter (fun r => lane r = l) df))
      (sort_by Z.leb (unique (map lane df))).

Definition validate_sample_ids (df : list (Row Z)) : list Problem :=
  (* 1) valid sample ID? *)
  let bad_mask := map (fun r => negb (Re.match_anchored SAMPLE_ID_ALLOWED (str (sample_id r)))) df in
  let p1 :=
    map (fun r =>
           mkProblem ERROR "SAMPLE_ID_INVALID"
             ("Sample ID contains invalid characters. Allowed regex: " +:+ SAMPLE_ID_ALLOWED_text)
             (Some (lane r)) (Some (str (sample_id r))))
        (select df bad_mask) in
  (* 2) uniqueness per lane *)
  let p2 :=
    concat
      (map (fun g : Z * list (Row Z) =>
              let '(lane_, td) := g in
              let sids := map (fun r => str (sample_id r)) td in
              let dup := duplicated_all sids in
              map (fun sid =>
                     mkProblem ERROR "SAMPLE_ID_DUPLICATE_IN_LANE"
                       ("Lane " +:+ pretty lane_ +:+ ": duplicate sample_id '" +:+ sid
                        +:+ "' within lane.")
                       (Some lane_) (Some sid))
                  (sorted_set (select sids dup)))
           (groupby_lane df)) in
  (* 3) cross-project collision check *)
  let projects_of sid :=
    unique (map (fun r => str (project_id r))
                (filter (fun r => str (sample_id r) = sid) df)) in
  let collided :=
    filter (fun sid => (1 < List.length (projects_of sid))%nat)
           (sorted_set (map (fun r => str (sample_id r)) df)) in
  let p3 :=
    map (fun sid =>
           mkProblem ERROR "SAMPLE_ID_PROJECT_COLLISION"
             ("sample_id '" +:+ sid +:+ "' appears in multiple projects: "
              +:+ join ", " (sorted (projects_of sid)))
             None (Some sid))
        collided in
  p1 ++ p2 ++ p3.

(** The distance part of a lane's verdict: the tolerance and the
    warnings of a dual-index-only lane, from the minimum effective
    distance. *)
Definition dual_policy (lane_ : Z) (d_eff_min : option nat) : list Problem * Z :=
  match d_eff_min with
  | Some d =>
      if bool_decide (d = HAMMING_WARN_TIGHTEN) then
        ([mkProblem WARN "DUAL_LANE_PAIR_TOO_SIMILAR_HAMMING_1"
            ("Lane " +:+ pretty lane_
             +:+ ": dual-index samples; min effective pair distance max(d_i7,d_i5) is "
             +:+ pretty d +:+ ". Recommend barcode mismatches = 0.")
            (Some lane_) None], 0)
      else if bool_decide (d = HAMMING_WARN) then
        ([mkProblem WARN "DUAL_LANE_PAIR_SIMILAR_HAMMING_2"
            ("Lane " +:+ pretty lane_
             +:+ ": dual-index samples; min effective pair distance max(d_i7,d_i5) is "
             +:+ pretty d +:+ ". Recommend barcode mismatches = 0.")
            (Some lane_) None], 0)
      else ([], DEFAULT_BARCODE_MISMATCHES)
  | None => ([], DEFAULT_BARCODE_MISMATCHES)
  end.

Definition mixed_policy (lane_ : Z) (i7_min_focus : option nat) : list Problem * Z :=
  match i7_min_focus with
  | Some d =>
      let head :=
        "Lane " +:+ pretty lane_
        +:+ ": lane includes single-index sample(s); min i7 Hamming (single vs dual) is "
        +:+ pretty d in
      if bool_decide (d = HAMMING_WARN_TIGHTEN) then
        ([mkProblem WARN "MIXED_LANE_I7_TOO_SIMILAR_HAMMING_1"
            (head +:+ ". Recommend barcode mismatches = 0.") (Some lane_) None], 0)
      else if bool_decide (d = HAMMING_WARN) then
        ([mkProblem WARN "MIXED_LANE_I7_SIMILAR_HAMMING_2"
            (head +:+ ". Recommend barcode mismatches = 0.") (Some lane_) None], 0)
      else if bool_decide (d < HAMMING_OK_MIN)%nat then
        ([mkProblem WARN "MIXED_LANE_I7_TOO_SIMILAR"
            (head +:+ " (<" +:+ pretty HAMMING_OK_MIN +:+ "). Recommend barcode mismatches = 0.")
            (Some lane_) None], 0)
      else ([], DEFAULT_BARCODE_MISMATCHES)
  | None => ([], DEFAULT_BARCODE_MISMATCHES)
  end.

Definition single_policy (lane_ : Z) (i7_min : option nat) : list Problem * Z :=
  match i7_min with
  | Some d =>
      if bool_decide (d = HAMMING_WARN_TIGHTEN) then
        ([mkProblem WARN "SINGLE_LANE_I7_TOO_SIMILAR_HAMMING_1"
            ("Lane " +:+ pretty lane_
             +:+ ": single-index samples; min i7 Hamming after trimming is "
             +:+ pretty d +:+ ". Recommend barcode mismatches = 0.")
            (Some lane_) None], 0)
      else if bool_decide (d = HAMMING_WARN) then
        ([mkProblem WARN "SINGLE_LANE_I7_SIMILAR_HAMMING_2"
            ("Lane " +:+ pretty lane_
             +:+ ": single-index samples; min i7 Hamming after trimming is "
             +:+ pretty d +:+ ". Recommend barcode mismatches = 0.")
            (Some lane_) None], 0)
      else ([], DEFAULT_BARCODE_MISMATCHES)
  | None => ([], DEFAULT_BARCODE_MISMATCHES)
  end.

(** The rows of [td] at the positions [rows], as sample IDs:
    [td.iloc[rows][sample_id_col].astype(str).tolist()]. *)
Definition sample_ids_at (td : list (Row Z)) (rows : list nat) : list string :=
  omap (fun i => (fun r => str (sample_id r)) <$> td !! i) rows.

(** Dual-index pair uniqueness, after trimming, among the dual rows. *)
Definition dual_pair_problems (lane_ : Z) (td : list (Row Z))
    (i7_trim_by_row : list string) (i5_trim_by_row : list (option string))
    (dual_idxs : list nat) : list Problem :=
  let dual_pairs :=
    map (fun row_i =>
           at_index i7_trim_by_row row_i +:+ "+"
           +:+ str (cell (default None (i5_trim_by_row !! row_i))))
        dual_idxs in
  let dual_rows := dual_idxs in
  let dup_pairs := duplicated_all dual_pairs in
  if any dup_pairs then
    map (fun p =>
           let rows := select dual_rows (zip_with (fun q flag => flag && bool_decide (q = p))
                                                  dual_pairs dup_pairs) in
           let sids := sample_ids_at td rows in
           mkProblem ERROR "INDEX_DUPLICATE_IN_LANE"
             ("Lane " +:+ pretty lane_ +:+ ": duplicate index pair (after trimming) " +:+ p
              +:+ ". Samples: " +:+ join ", " sids)
             (Some lane_) None)
        (sorted_set (select dual_pairs dup_pairs))
  else [].

(** Single-index uniqueness constraint on i7, after trimming. *)
Definition single_i7_problems (lane_ : Z) (td : list (Row Z))
    (i7_trim_by_row : list string) (single_idxs : list nat) : list Problem :=
  let rows_of seq_ :=
    select (seq 0 (List.length i7_trim_by_row))
           (map (fun x => bool_decide (x = seq_)) i7_trim_by_row) in
  concat
    (map (fun row_i =>
            let seq_ := at_index i7_trim_by_row row_i in
            let rows := rows_of seq_ in
            if bool_decide (1 < List.length rows)%nat then
              let sids := sample_ids_at td rows in
              [mkProblem ERROR "SINGLE_I7_DUPLICATE_IN_LANE"
                 ("Lane " +:+ pretty lane_ +:+ ": single-index i7 (after trimming) " +:+ seq_
                  +:+ " is also used by other sample(s). Samples: " +:+ join ", " sids)
                 (Some lane_) None]
            else [])
         single_idxs).

(** The body of the loop over the lanes: the problems of the lane and
    the entry written to [lane_mm]. *)
Definition validate_lane (lane_ : Z) (td : list (Row Z)) : list Problem * Z :=
  (* normalize sequences: missing -> None *)
  let i7_list := map (fun r => normalize_seq (i7 r)) td in
  let i5_list := map (fun r => normalize_seq (i5 r)) td in
  let i7_none := map (fun x : option string => bool_decide (x = None)) i7_list in
  (* i7 required for all samples *)
  if any i7_none then
    let bad := select (map (fun r => str (sample_id r)) td) i7_none in
    ([mkProblem ERROR "I7_MISSING"
        ("Lane " +:+ pretty lane_ +:+ ": missing i7 for samples: " +:+ join ", " bad)
        (Some lane_) None],
     DEFAULT_BARCODE_MISMATCHES)
  else
    (* classify rows *)
    let is_single := map (fun x : option string => bool_decide (x = None)) i5_list in
    let positions := seq 0 (List.length is_single) in
    let single_idxs := select positions is_single in
    let dual_idxs := select positions (map negb is_single) in
    let has_single := bool_decide (0 < List.length single_idxs)%nat in
    let has_dual := bool_decide (0 < List.length dual_idxs)%nat in
    (* lane-trimmed i7/i5 aligned to rows *)
    let min_len_i7 := min_list 0 (map len (omap id i7_list)) in
    let i7_trim_by_row := map (take min_len_i7) (omap id i7_list) in
    let i5_nonmissing := omap id i5_list in
    let min_len_i5 := min_list 0 (map len i5_nonmissing) in
    let i5_trim_by_row := map (option_map (take min_len_i5)) i5_list in
    let p_dual :=
      if has_dual then dual_pair_problems lane_ td i7_trim_by_row i5_trim_by_row dual_idxs
      else [] in
    let p_single :=
      if has_single then single_i7_problems lane_ td i7_trim_by_row single_idxs
      else [] in
    (* mismatch policy (0/1) per lane *)
    let '(p_policy, mm) :=
      if has_single && has_dual then
        let single_trim := map (at_index i7_trim_by_row) single_idxs in
        let dual_trim := map (at_index i7_trim_by_row) dual_idxs in
        mixed_policy lane_ (_min_hamming_between_sets single_trim dual_trim)
      else if has_dual && negb has_single then
        let i7_dual_trim := map (fun i => Some (at_index i7_trim_by_row i)) dual_idxs in
        let i5_dual_trim := map (fun i => default None (i5_trim_by_row !! i)) dual_idxs in
        dual_policy lane_ (_min_effective_pair_distance i7_dual_trim i5_dual_trim)
      else if has_single && negb has_dual then
        single_policy lane_ (_min_pairwise_hamming (_trim_to_lane_min i7_trim_by_row))
      else ([], DEFAULT_BARCODE_MISMATCHES) in
    ((p_dual ++ p_single ++ p_policy)%list, mm).

Definition validate_indexes_per_lane (df : list (Row Z)) : list Problem * gmap Z Z :=
  foldl (fun (acc : list Problem * gmap Z Z) (g : Z * list (Row Z)) =>
           let '(lane_, td) := g in
           let '(p, mm) := validate_lane lane_ td in
           ((acc.1 ++ p)%list, <[lane_ := mm]> acc.2))
        ([], ∅) (groupby_lane df).

Definition validate_all (df : list (Row Z)) : ValidationSummary :=
  let probs := validate_sample_ids df in
  let '(p2, lane_mm) := validate_indexes_per_lane df in
  mkValidationSummary (probs ++ p2) lane_mm.

(** ** context.py *)

(** Sequencing of calls that may raise: the first exception ends the
    computation. *)
#[global] Instance result_bind : MBind Result :=
  fun A B (k : A -> Result B) (x : Result A) =>
    match x with
    | inl e => inl e
    | inr a => k a
    end.

(** [s.split(c)] for a one-character separator. *)
Fixpoint split_on (c : ascii) (s : string) : list string :=
  match s with
  | EmptyString => [EmptyString]
  | String x r =>
      if Ascii.eqb x c then EmptyString :: split_on c r
      else
        match split_on c r with
        | t :: ts => String x t :: ts
        | [] => [String x EmptyString]
        end
  end.

(** Parse [path:ID_COL:SEQ_COL]. *)
Definition _parse_i7i5_map (spec : string) : Result (string * string * string) :=
  match map strip (split_on ":" spec) with
  | [path; id_col; seq_col] =>
      if is_empty path || is_empty id_col || is_empty seq_col then
        inl (ValueError ("Invalid map spec '" +:+ spec +:+ "': empty field."))
      else inr (path, id_col, seq_col)
  | _ =>
      inl (ValueError ("Invalid map spec '" +:+ spec
                       +:+ "'. Expected format: path:ID_COL:SEQ_COL"))
  end.

(** Parse [path:PAIR_ID_COL:I7_COL:I5_COL]. *)
Definition _parse_pair_map (spec : string) : Result (string * string * string * string) :=
  match map strip (split_on ":" spec) with
  | [path; pair_id_col; i7_col; i5_col] =>
      if is_empty path || is_empty pair_id_col || is_empty i7_col || is_empty i5_col then
        inl (ValueError ("Invalid pair-map spec '" +:+ spec +:+ "': empty field."))
      else inr (path, pair_id_col, i7_col, i5_col)
  | _ =>
      inl (ValueError ("Invalid pair-map spec '" +:+ spec
                       +:+ "'. Expected format: path:PAIR_ID_COL:I7_COL:I5_COL"))
  end.

(** What the run reads from outside: the sample table that [read_input]
    returns (or the exception it raises), and for every path what
    [pd.read_csv] returns. *)
Record World : Type := mkWorld {
  input_table : Result Sheet;
  read_csv : string -> Result DataFrame;
}.

Record RunContext : Type := mkRunContext {
  input_path : string;
  output_path : string;
  i7_maps : list string;
  i5_maps : list string;
  pair_maps : list string;
  dry_run : bool;
  (* state populated during the run *)
  df_input : option Sheet;
  df_normalized : option (list (Row Z));
  df_resolved : option (list (Row Z));
  lane_barcode_mismatches : gmap Z Z;
  problems : list Problem;
}.

(** The context as [main] builds it: every state field at its default. *)
Definition new_context (input output : string) (i7s i5s pairs : list string) (dry : bool)
    : RunContext :=
  mkRunContext input output i7s i5s pairs dry None None None ∅ [].

(** [for x in xs: ys.append(f(x))] where [f] may raise. *)
Fixpoint collect {A B} (f : A -> Result B) (xs : list A) : Result (list B) :=
  match xs with
  | [] => inr []
  | x :: r =>
      y ← f x;
      ys ← collect f r;
      inr (y :: ys)
  end.

Definition load_index_lookups (w : World) (self : RunContext)
    : Result (Dict string * Dict string * option (Dict (string * string))) :=
  let single spec :=
    '(path, id_col, seq_col) ← _parse_i7i5_map spec;
    raw ← read_csv w path;
    df ← load_single_index_table path id_col seq_col raw;
    inr (build_single_lookup df) in
  (* i7 *)
  i7_lookups ← collect single (i7_maps self);
  i7_lookup ← merge_single_lookups i7_lookups;
  (* i5 *)
  i5_lookups ← collect single (i5_maps self);
  i5_lookup ← merge_single_lookups i5_lookups;
  (* paired (optional) *)
  match pair_maps self with
  | [] => inr (i7_lookup, i5_lookup, None)
  | _ =>
      pair_lookups ←
        collect (fun spec =>
                   '(path, pair_id_col, i7_col, i5_col) ← _parse_pair_map spec;
                   raw ← read_csv w path;
                   df ← load_paired_index_table path pair_id_col i7_col i5_col raw;
                   inr (build_pair_lookup df))
                (pair_maps self);
      pair_lookup ← merge_pair_lookups pair_lookups;
      inr (i7_lookup, i5_lookup, Some pair_lookup)
  end.

(** The order of the written rows: lane ascending, then project_id
    ascending. *)
Definition output_leb (a b : Row Z) : bool :=
  (lane a <? lane b)
  || ((lane a =? lane b) && String.leb (str (project_id a)) (str (project_id b))).

(** The file written at [output_path]: the resolved table, sorted. *)
Definition write_output (self : RunContext) : Result (list (Row Z)) :=
  match df_resolved self with
  | None => inl (RuntimeError "No resolved DataFrame available to write.")
  | Some df => inr (sort_by output_leb df)
  end.

(** The outcome of a run that raised nothing: the exit code, the context
    afterwards, and the output file if one was written. *)
Record Outcome : Type := mkOutcome {
  exit_code : Z;
  context : RunContext;
  output_file : option (list (Row Z));
}.

Definition is_error (p : Problem) : bool :=
  match level p with
  | ERROR => true
  | _ => false
  end.

Definition run (w : World) (self : RunContext) : Result Outcome :=
  (* 1) read input *)
  df_raw ← input_table w;
  (* 2) required columns, lane expansion, minimal normalization *)
  _ ← check_required_columns (sheet_columns df_raw);
  df_expanded ← expand_lanes (sheet_rows df_raw);
  df_norm ← normalize_minimal (sheet_columns df_raw) df_expanded;
  (* 3) load and merge index lookups *)
  '(i7_lookup, i5_lookup, pair_lookup) ← load_index_lookups w self;
  (* 4) resolve index sequences *)
  let res := resolve_indexes df_norm i7_lookup i5_lookup pair_lookup in
  (* 5) validate sample IDs + per-lane index constraints *)
  let vs := validate_all (rr_df res) in
  let self :=
    mkRunContext (input_path self) (output_path self) (i7_maps self) (i5_maps self)
                 (pair_maps self) (dry_run self)
                 (Some df_raw) (Some df_norm) (Some (rr_df res))
                 (vs_lane_barcode_mismatches vs)
                 (problems self ++ rr_problems res ++ vs_problems vs) in
  (* 6) decide outcome *)
  let has_errors := any (map is_error (problems self)) in
  if has_errors then inr (mkOutcome 2 self None)
  else
    (* 7) write output (if not dry-run) *)
    if negb (dry_run self) then
      file ← write_output self;
      inr (mkOutcome 0 self (Some file))
    else inr (mkOutcome 0 self None).

(** * Specification vocabulary

    The notions the properties below are stated with. *)

(** A string made of white space only. *)
Fixpoint all_space (s : string) : bool :=
  match s with
  | EmptyString => true
  | String c r => isspace c && all_space r
  end.

(** The last character, if any, is not white space. *)
Fixpoint ends_clean (s : string) : bool :=
  match s with
  | EmptyString => true
  | String c EmptyString => negb (isspace c)
  | String _ r => ends_clean r
  end.

(** The first character, if any, is not white space. *)
Definition starts_clean (s : string) : bool :=
  match s with
  | EmptyString => true
  | String c _ => negb (isspace c)
  end.

(** A missing-value token in any letter case. *)
Definition missing_token (t : string) : Prop := upper t ∈ MISSING_TOKENS.


(** The keys of a dictionary are distinct. *)
Definition dict_wf {V} (d : Dict V) : Prop := NoDup d.*1.






(** The language of a regular expression. *)
Inductive lang : Re.Regex -> string -> Prop :=
| lang_eps : lang Re.Eps EmptyString
| lang_cls p c : p c = true -> lang (Re.Cls p) (String c EmptyString)
| lang_seq r1 r2 s1 s2 : lang r1 s1 -> lang r2 s2 -> lang (Re.Seq r1 r2) (s1 +:+ s2)
| lang_alt_l r1 r2 s : lang r1 s -> lang (Re.Alt r1 r2) s
| lang_alt_r r1 r2 s : lang r2 s -> lang (Re.Alt r1 r2) s
| lang_star_nil r : lang (Re.Star r) EmptyString
| lang_star_app r s1 s2 : lang r s1 -> lang (Re.Star r) s2 -> lang (Re.Star r) (s1 +:+ s2).

(** Every character of the string is in the class. *)
Fixpoint all_in (p : ascii -> bool) (s : string) : bool :=
  match s with
  | EmptyString => true
  | String c r => p c && all_in p r
  end.

(** A lane digit, [[1-8]]. *)
Definition lane_digit : ascii -> bool := Re.in_range "1" "8".

(** The lane cell as the expander reads it. *)
Definition lane_text (r : Row PyVal) : string := strip (str (lane r)).

(** The lane cell is empty or nan-like. *)
Definition lane_cell_empty (r : Row PyVal) : bool :=
  bool_decide (lane_text r = EmptyString) || bool_decide (lower (lane_text r) = "nan").

(** The lane cell has the allowed format. *)
Definition lane_cell_matches (r : Row PyVal) : bool :=
  Re.match_anchored lane_pattern (lane_text r).

(** The lane numbers of the cell, as written and as integers. *)
Definition lane_tokens (r : Row PyVal) : list string := Re.split lane_sep (lane_text r).

Definition lane_numbers (r : Row PyVal) : list Z := omap int_of_string (lane_tokens r).

(** The three fatal errors of the lane expander, told apart by the text
    their message starts with. *)
Definition LaneEmpty (e : Exception) : Prop :=
  exists rest, e = ValueError ("lane is empty/NaN at row(s): " +:+ rest).

Definition LaneFormatInvalid (e : Exception) : Prop :=
  exists rest,
    e = ValueError
          ("Invalid lane format. Expected like '1' or '1,2,4' (1-8 only). Bad examples: "
           +:+ rest).

Definition LaneDuplicateInCell (e : Exception) : Prop :=
  exists rest,
    e = ValueError ("Duplicate lane numbers within lane cell at row(s): " +:+ rest).

(** The rows of the expanded table: one copy of every row per listed
    lane, in the order of the table and of the cell. *)
Definition expanded (df : list (Row PyVal)) : list (Row Z) :=
  concat (map (fun r => map (with_lane r) (lane_numbers r)) df).


(** The ID as the resolver reads it: stripped, blank when empty or nan. *)
Definition resolver_id (x : PyVal) : string := blank_id (strip (str x)).

(** The sample ID a resolver problem is tagged with. *)
Definition resolver_sid (r : Row Z) : string := strip (str (sample_id r)).

(** An ERROR problem of the resolver for the row [r]. *)
Definition resolve_error (r : Row Z) (c m : string) : Problem :=
  mkProblem ERROR c m (Some (lane r)) (Some (resolver_sid r)).

(** The row as the resolver returns it when its sequences end as [s7]
    and [s5]: the IDs stripped, every other field untouched. *)
Definition resolved_row (r : Row Z) (s7 s5 : option string) : Row Z :=
  mkRow (lane r) (sample_id r) (project_id r)
        (PStr (strip (str (i7_id r)))) (PStr (strip (str (i5_id r))))
        (cell s7) (cell s5) (extra r).

(** In every table the row [r] comes out as [r'], and [ps] is exactly
    what it adds to the problems, in its place. *)
Definition resolves_to (i7_lookup i5_lookup : Dict string)
    (pair_lookup : option (Dict (string * string)))
    (r r' : Row Z) (ps : list Problem) : Prop :=
  forall pre post,
    let res := resolve_indexes (pre ++ r :: post) i7_lookup i5_lookup pair_lookup in
    rr_df res !! List.length pre = Some r'
    /\ rr_problems res =
       (rr_problems (resolve_indexes pre i7_lookup i5_lookup pair_lookup)
        ++ ps
        ++ rr_problems (resolve_indexes post i7_lookup i5_lookup pair_lookup))%list.

(** A sequence is present after normalization. *)
Definition present (x : PyVal) : bool :=
  match normalize_seq x with
  | Some _ => true
  | None => false
  end.

(** Rule 2 of the resolver is the one that handles the row: the
    sequences are not both present, and the two IDs are present and
    equal. *)
Definition paired_rule_applies (r : Row Z) : bool :=
  negb (present (i7 r) && present (i5 r))
  && negb (is_empty (resolver_id (i7_id r)))
  && negb (is_empty (resolver_id (i5_id r)))
  && bool_decide (resolver_id (i7_id r) = resolver_id (i5_id r)).

Definition PAIR_TABLE_NOT_PROVIDED_message : string :=
  "Paired index IDs provided (i7_id==i5_id), but no paired index table was loaded.".

Definition PAIR_ID_NOT_FOUND_message (id : string) : string :=
  "paired Index_ID '" +:+ id +:+ "' not found in paired index table.".

Definition I7_SEQUENCE_NOT_RESOLVED_message : string :=
  "Could not resolve i7 sequence (required).".


(** The rows of a lane, in table order. *)
Definition lane_rows (df : list (Row Z)) (l : Z) : list (Row Z) :=
  filter (fun r => lane r = l) df.

(** Both sequences of every row of the lane are present: the lanes in
    which the validator reaches the distance policy of dual-index rows
    with every row of the lane. *)
Definition all_rows_dual (td : list (Row Z)) : bool :=
  forallb (fun r => present (i7 r) && present (i5 r)) td.

(** The sequences of a lane that are present, in row order. *)
Definition lane_i7 (td : list (Row Z)) : list string := omap (fun r => normalize_seq (i7 r)) td.
Definition lane_i5 (td : list (Row Z)) : list string := omap (fun r => normalize_seq (i5 r)) td.

(** Sequences trimmed to the length of the shortest of them. *)
Definition trimmed (xs : list string) : list string :=
  map (take (min_list 0 (map len xs))) xs.

(** The effective distance of two dual-index rows, each given by its
    trimmed i7 and i5: the larger of the two Hamming distances, when
    both are defined. *)
Definition pair_distance (x y : string * string) : option nat :=
  d7 ← hamming (Some x.1) (Some y.1);
  d5 ← hamming (Some x.2) (Some y.2);
  Some (Nat.max d7 d5).

(** The effective distances of all pairs of rows of a dual-index lane. *)
Definition effective_distances (td : list (Row Z)) : list nat :=
  omap (fun xy : (string * string) * (string * string) => pair_distance xy.1 xy.2)
       (pairs_of (zip (trimmed (lane_i7 td)) (trimmed (lane_i5 td)))).

(** The least element of a list, if it has one. *)
Definition minimum (ds : list nat) : option nat :=
  foldr (fun d acc => Some (match acc with None => d | Some a => Nat.min d a end)) None ds.

Definition min_effective_distance (td : list (Row Z)) : option nat :=
  minimum (effective_distances td).

(** A problem of the given level and code for the lane. *)
Definition lane_problem (lv : Level) (c : string) (l : Z) (p : Problem) : Prop :=
  level p = lv /\ code p = c /\ p_lane p = Some l.

Module Sample.

(** A dual-index row with given sequences. *)
Definition dual (l : Z) (sid s7 s5 : string) : Row Z :=
  mkRow l (PStr sid) (PStr "P1") (PStr EmptyString) (PStr EmptyString) (PStr s7) (PStr s5) [].

(** A row that names a paired kit and has no sequence yet. *)
Definition kit_row : Row Z :=
  mkRow 3 (PStr "S3") (PStr "P1") (PStr "SI-GA-A1") (PStr "SI-GA-A1") PNaN PNaN [].

Definition kit_lookup : Dict (string * string) :=
  [("SI-GA-A1", ("ACGTACGT", "TTGGCCAA"))].

(** A single-index row to be resolved through the i7 lookup. *)
Definition single_row : Row Z :=
  mkRow 1 (PStr "S4") (PStr "P1") (PStr "N701") (PStr EmptyString) PNaN PNaN [].

(** A raw row with the given lane cell. *)
Definition raw (cell : PyVal) : Row PyVal :=
  mkRow cell (PStr "S1") (PStr "P1") (PStr "N701") (PStr "S502") PNaN PNaN [].

(** Two dual-index samples one i7 character apart, same i5. *)
Definition close_lane : list (Row Z) :=
  [dual 3 "S1" "ACGTACGT" "TTGGCCAA"; dual 3 "S2" "ACGTACGA" "TTGGCCAA"].

(** Two dual-index samples with the same index pair. *)
Definition same_pair_lane : list (Row Z) :=
  [dual 3 "S1" "ACGTACGT" "TTGGCCAA"; dual 3 "S2" "ACGTACGT" "TTGGCCAA"].

(** Two dual-index samples, i7 at distance 4 and i5 at distance 3. *)
Definition far_lane : list (Row Z) :=
  [dual 1 "S1" "ACGTACGT" "TTGGCCAA"; dual 1 "S2" "TGCAACGT" "AACGCCAA"].

(** A lane with a sample that has no i7 sequence. *)
Definition missing_i7_lane : list (Row Z) :=
  [dual 2 "S1" "ACGTACGT" "TTGGCCAA";
   mkRow 2 (PStr "S2") (PStr "P1") (PStr EmptyString) (PStr EmptyString) PNaN PNaN []].

(** Eleven pair IDs, each on two rows of a paired-kit table. *)
Definition pair_ids : list string :=
  ["P01"; "P02"; "P03"; "P04"; "P05"; "P06"; "P07"; "P08"; "P09"; "P10"; "P11"].

Definition doubled_pair_table : DataFrame :=
  mkDataFrame ["Index_ID"; "Index_I7"; "Index_I5"]
    (map (fun id => [PStr id; PStr "ACGTACGT"; PStr "TTGGCCAA"]) (pair_ids ++ pair_ids)%list).

(** The same eleven IDs, each on two rows of a single-index table. *)
Definition doubled_single_table : DataFrame :=
  mkDataFrame ["Index_ID"; "Index_Seq"]
    (map (fun id => [PStr id; PStr "ACGTACGT"]) (pair_ids ++ pair_ids)%list).

(** Twenty-one IDs. *)
Definition many_ids : list string :=
  (pair_ids ++ ["P12"; "P13"; "P14"; "P15"; "P16"; "P17"; "P18"; "P19"; "P20"; "P21"])%list.

(** A single-index table in which twenty-one IDs stand on two rows each. *)
Definition crowded_single_table : DataFrame :=
  mkDataFrame ["Index_ID"; "Index_Seq"]
    (map (fun id => [PStr id; PStr "ACGTACGT"]) (many_ids ++ many_ids)%list).

(** A paired-kit table in which twenty-one IDs lack the i5 sequence. *)
Definition gappy_pair_table : DataFrame :=
  mkDataFrame ["Index_ID"; "Index_I7"; "Index_I5"]
    (map (fun id => [PStr id; PStr "ACGTACGT"; PNaN]) many_ids).

(** A run over one lane with two well-separated dual-index samples. *)
Definition world : World :=
  mkWorld
    (inr (mkSheet ["lane"; "sample_id"; "project_id"; "i7_id"; "i5_id"; "i7"; "i5"]
            [mkRow (PInt 1) (PStr "S1") (PStr "P1") PNaN PNaN (PStr "ACGTACGT") (PStr "TTGGCCAA") [];
             mkRow (PInt 1) (PStr "S2") (PStr "P1") PNaN PNaN (PStr "TGCAACGT") (PStr "AACGCCAA") []]))
    (fun path =>
       inr (mkDataFrame ["Name"; "Sequence"] [[PStr "N701"; PStr "TAAGGCGA"]])).

Definition ctx : RunContext :=
  new_context "in.csv" "out.csv" ["i7.csv:Name:Sequence"] ["i5.csv:Name:Sequence"] [] false.

(** A run over a sheet whose second sample has no i7 sequence and no ID
    to resolve one from. *)
Definition error_world : World :=
  mkWorld
    (inr (mkSheet ["lane"; "sample_id"; "project_id"; "i7_id"; "i5_id"; "i7"; "i5"]
            [mkRow (PInt 1) (PStr "S1") (PStr "P1") PNaN PNaN (PStr "ACGTACGT") (PStr "TTGGCCAA") [];
             mkRow (PInt 1) (PStr "S2") (PStr "P1") PNaN PNaN PNaN (PStr "AACGCCAA") []]))
    (read_csv world).

(** A run over one lane with two dual-index samples one i7 character
    apart. *)
Definition warn_world : World :=
  mkWorld
    (inr (mkSheet ["lane"; "sample_id"; "project_id"; "i7_id"; "i5_id"; "i7"; "i5"]
            [mkRow (PInt 3) (PStr "S1") (PStr "P1") PNaN PNaN (PStr "ACGTACGT") (PStr "TTGGCCAA") [];
             mkRow (PInt 3) (PStr "S2") (PStr "P1") PNaN PNaN (PStr "ACGTACGA") (PStr "TTGGCCAA") []]))
    (read_csv world).

(** Three rows with an i5 sequence each; the first two are one i7
    character apart, the third has no i7 sequence. *)
Definition close_lane_missing_i7 : list (Row Z) :=
  [dual 3 "S1" "ACGTACGT" "TTGGCCAA"; dual 3 "S2" "ACGTACGA" "TTGGCCAA";
   mkRow 3 (PStr "S3") (PStr "P1") (PStr EmptyString) (PStr EmptyString) PNaN (PStr "GGAACCTT") []].


(** Two single-index lookups that agree on the ID they share. *)
Definition agreeing_lookups : list (Dict string) :=
  [[("N701", "TAAGGCGA")]; [("N701", "TAAGGCGA"); ("N702", "CGTACTAG")]].

(** Two paired lookups that give one ID two pairs, with the same i7. *)
Definition clashing_pair_lookups : list (Dict (string * string)) :=
  [kit_lookup; [("SI-GA-A1", ("ACGTACGT", "GGAACCTT"))]].

End Sample.


(** No character of the string is a space. *)
Definition no_space (s : string) : bool :=
  all_in (fun c => negb (Ascii.eqb c " ")) s.


(** A sequence that [normalize_seq] leaves as it is. *)
Definition canonical (s : string) : Prop := normalize_seq (PStr s) = Some s.

(** An ID as the loaders keep it: not blank, and stripped. *)
Definition kept_id (k : string) : Prop := k ≠ EmptyString /\ strip k = k.

Module Kits.

(** A single-index kit as a file has it: IDs with stray white space,
    sequences in lower case, a row without an ID, a further column. *)
Definition nextera : DataFrame :=
  mkDataFrame ["Name"; "Sequence"; "Note"]
    [[PStr " N701 "; PStr "taaggcga"; PStr "a"];
     [PStr "N702"; PStr "CGTA CTAG"; PNaN];
     [PStr "  "; PStr "AGGCAGAA"; PNaN]].

Definition nextera_rows : list (string * option string) :=
  [("N701", Some "TAAGGCGA"); ("N702", Some "CGTACTAG")].

(** A paired kit with two entries that share their i5. *)
Definition tenx : DataFrame :=
  mkDataFrame ["Index_ID"; "Index_I7"; "Index_I5"]
    [[PStr "SI-GA-A1"; PStr "acgtacgt"; PStr "TTGGCCAA"];
     [PStr "SI-GA-A2 "; PStr "TGCAACGT"; PStr "TTGGCCAA"]].

Definition tenx_rows : list (string * (option string * option string)) :=
  [("SI-GA-A1", (Some "ACGTACGT", Some "TTGGCCAA"));
   ("SI-GA-A2", (Some "TGCAACGT", Some "TTGGCCAA"))].

End Kits.


(** The row as [normalize_minimal] leaves it. *)
Definition normalized_row (r : Row Z) : Row Z :=
  mkRow (lane r)
        (PStr (strip (str (sample_id r))))
        (PStr (strip (str (project_id r))))
        (PStr (_norm_id (i7_id r)))
        (PStr (_norm_id (i5_id r)))
        (cell (normalize_seq (i7 r)))
        (cell (normalize_seq (i5 r)))
        (extra r).


(** The normalized sequence that a lookup holds for an ID. *)
Definition looked_up (lk : Dict string) (id : string) : option string :=
  if is_empty id then None
  else match dict_get lk id with
       | Some v => normalize_seq (PStr v)
       | None => None
       end.

(** The three rules of the resolver on the sequences of one row, given
    the normalized sequences [s7], [s5] of the row and its IDs as the
    resolver reads them. Sequences that are both present stay. Otherwise,
    when the two IDs are non-blank and equal, the row belongs to the
    paired lookup alone: both sequences are taken from its entry for the
    ID, and with no such entry (or no paired lookup) they stay as they
    were, the i7 and i5 lookups not being consulted. Otherwise each
    absent sequence is taken from its own lookup, and stays absent when
    its ID is blank or not found there. *)
Definition rule_seqs (i7_lookup i5_lookup : Dict string)
    (pair_lookup : option (Dict (string * string)))
    (id7 id5 : string) (s7 s5 : option string) : option string * option string :=
  match s7, s5 with
  | Some _, Some _ => (s7, s5)
  | _, _ =>
      if negb (is_empty id7) && negb (is_empty id5) && bool_decide (id7 = id5) then
        match pair_lookup ≫= (fun d => dict_get d id7) with
        | Some (a, b) => (normalize_seq (PStr a), normalize_seq (PStr b))
        | None => (s7, s5)
        end
      else
        (match s7 with Some _ => s7 | None => looked_up i7_lookup id7 end,
         match s5 with Some _ => s5 | None => looked_up i5_lookup id5 end)
  end.

(** The row as the resolver returns it. *)
Definition resolved (i7_lookup i5_lookup : Dict string)
    (pair_lookup : option (Dict (string * string))) (r : Row Z) : Row Z :=
  let s := rule_seqs i7_lookup i5_lookup pair_lookup
             (resolver_id (i7_id r)) (resolver_id (i5_id r))
             (normalize_seq (i7 r)) (normalize_seq (i5 r)) in
  resolved_row r s.1 s.2.

Definition I7_MISSING_message : string := "Missing i7 sequence and i7_id is empty.".

Definition I7_ID_NOT_FOUND_message (id : string) : string :=
  "i7_id '" +:+ id +:+ "' not found in i7 index table.".

Definition I5_ID_NOT_FOUND_message (id : string) : string :=
  "i5_id '" +:+ id +:+ "' not found in i5 index table.".

(** The codes of the problems the resolver can add. *)
Definition resolver_codes : list string :=
  ["PAIR_TABLE_NOT_PROVIDED"; "PAIR_ID_NOT_FOUND"; "I7_MISSING"; "I7_ID_NOT_FOUND";
   "I5_ID_NOT_FOUND"; "I7_SEQUENCE_NOT_RESOLVED"].

(** Every sequence of the paired lookup is canonical, as in a lookup
    built from a loaded table. *)
Definition pair_lookup_canonical (pl : option (Dict (string * string))) : Prop :=
  forall d k s7 s5, pl = Some d -> dict_get d k = Some (s7, s5) ->
    normalize_seq (PStr s7) = Some s7 /\ normalize_seq (PStr s5) = Some s5.

Module Rows.

(** A row with an i7 ID and no sequence. *)
Definition named (l : Z) (sid id7 id5 : string) : Row Z :=
  mkRow l (PStr sid) (PStr "P1") (PStr id7) (PStr id5) PNaN PNaN [].

Definition i7_lookup : Dict string := [("N701", "TAAGGCGA"); ("N702", "CGTACTAG")].

Definition i5_lookup : Dict string := [("S502", "CTCTCTAT")].

End Rows.


(** [d] is the least number with the property [P]. *)
Definition least (P : nat -> Prop) (d : nat) : Prop :=
  P d /\ forall d', P d' -> (d <= d')%nat.

(** A problem of the lane validator: of the given level, for the lane,
    without a sample ID. *)
Definition lane_report (lv : Level) (l : Z) (p : Problem) : Prop :=
  level p = lv /\ p_lane p = Some l /\ p_sample_id p = None.

(** The lane-trimmed i7 sequences of the rows without an i5 sequence,
    and of those with one, in row order. *)
Definition single_rows_i7 (td : list (Row Z)) : list string :=
  select (trimmed (lane_i7 td)) (map (fun r => negb (present (i5 r))) td).

Definition dual_rows_i7 (td : list (Row Z)) : list string :=
  select (trimmed (lane_i7 td)) (map (fun r => present (i5 r)) td).

(** The lane-trimmed i5 sequence of every row, absent where the row has
    none. *)
Definition lane_i5_by_row (td : list (Row Z)) : list (option string) :=
  map (fun r => option_map (take (min_list 0 (map len (lane_i5 td)))) (normalize_seq (i5 r))) td.

(** The positions of the rows with, and of those without, an i5
    sequence. *)
Definition dual_positions (td : list (Row Z)) : list nat :=
  select (seq 0 (List.length td)) (map (fun r => present (i5 r)) td).

Definition single_positions (td : list (Row Z)) : list nat :=
  select (seq 0 (List.length td)) (map (fun r => negb (present (i5 r))) td).

(** The duplicate checks of a lane in which every row has an i7
    sequence. *)
Definition lane_errors (l : Z) (td : list (Row Z)) : list Problem :=
  ((if negb (bool_decide (dual_rows_i7 td = []))
    then dual_pair_problems l td (trimmed (lane_i7 td)) (lane_i5_by_row td) (dual_positions td)
    else [])
   ++ (if negb (bool_decide (single_rows_i7 td = []))
       then single_i7_problems l td (trimmed (lane_i7 td)) (single_positions td)
       else []))%list.

(** The least distance between the single-index and the dual-index
    samples of a lane, on the lane-trimmed i7 sequences. *)
Definition mixed_distance (td : list (Row Z)) (d : nat) : Prop :=
  least (fun d => exists x y, x ∈ single_rows_i7 td /\ y ∈ dual_rows_i7 td
                              /\ hamming (Some x) (Some y) = Some d) d.

(** The least distance between two different lane-trimmed i7 sequences
    of a lane. *)
Definition single_distance (td : list (Row Z)) (d : nat) : Prop :=
  least (fun d => exists x y, x ∈ trimmed (lane_i7 td) /\ y ∈ trimmed (lane_i7 td) /\ x ≠ y
                              /\ hamming (Some x) (Some y) = Some d) d.

Module Lanes.

(** A single-index sample and a dual-index sample one i7 character
    apart, in lane 4. *)
Definition mixed : list (Row Z) :=
  [mkRow 4 (PStr "S1") (PStr "P1") (PStr EmptyString) (PStr EmptyString)
         (PStr "ACGTACGT") PNone [];
   Sample.dual 4 "S2" "ACGTACGA" "TTGGCCAA"].

(** Two single-index samples two i7 characters apart, in lane 5. *)
Definition single : list (Row Z) :=
  [mkRow 5 (PStr "S1") (PStr "P1") (PStr EmptyString) (PStr EmptyString)
         (PStr "ACGTACGT") PNone [];
   mkRow 5 (PStr "S2") (PStr "P1") (PStr EmptyString) (PStr EmptyString)
         (PStr "ACGTACAA") PNone []].

End Lanes.


(** The sample ID of a row, as the validator reads it. *)
Definition sid_of (r : Row Z) : string := str (sample_id r).

(** A sample ID is well formed: not empty, of allowed characters only. *)
Definition sid_well_formed (s : string) : Prop :=
  s ≠ EmptyString /\ all_in sample_id_char s = true.


(** A field of a map specification: it holds no colon. *)
Definition no_colon (s : string) : bool :=
  all_in (fun c => negb (Ascii.eqb c ":")) s.

(** A field that is not blank. *)
Definition filled (s : string) : Prop := strip s ≠ EmptyString.

(** The order of the written rows: by lane, and within a lane by
    project. *)
Definition output_le (a b : Row Z) : Prop :=
  lane a < lane b
  \/ (lane a = lane b /\ String.leb (str (project_id a)) (str (project_id b)) = true).

(** A lookup as the loaders and the merge leave it: every ID once, not
    blank and stripped, every sequence canonical. *)
Definition lookup_ok (d : Dict string) : Prop :=
  dict_wf d /\ forall k s, dict_get d k = Some s -> kept_id k /\ canonical s.

Definition pair_lookup_ok (d : Dict (string * string)) : Prop :=
  dict_wf d
  /\ forall k s7 s5, dict_get d k = Some (s7, s5) -> kept_id k /\ canonical s7 /\ canonical s5.


(** The rows of an index table that a loader keeps: the ID stripped,
    the sequences normalized, rows with a blank ID dropped. *)
Definition kept_rows {S} (ids : list PyVal) (seqs : list S) : list (string * S) :=
  filter (fun r => (0 < len r.1)%nat) (zip (map (fun x => strip (str x)) ids) seqs).


(** The index pairs of the dual-index rows of a lane, lane-trimmed, in
    row order. *)
Definition dual_pairs_of (td : list (Row Z)) : list (string * string) :=
  zip (dual_rows_i7 td) (trimmed (lane_i5 td)).

(** The number of rows of the lane whose lane-trimmed i7 is [x]. *)
Definition i7_count (td : list (Row Z)) (x : string) : nat :=
  List.length (filter (fun y => y = x) (trimmed (lane_i7 td))).

Module Repeats.

(** Two dual-index samples whose index pairs agree on the first eight
    characters of each index. *)
Definition lane : list (Row Z) :=
  [Sample.dual 6 "S1" "ACGTACGTAA" "TTGGCCAA"; Sample.dual 6 "S2" "ACGTACGT" "TTGGCCAACC"].

End Repeats.

(** * Properties *)

(** ** Strings *)

Lemma isspace_upper c : isspace (upper_char c) = isspace c.
Proof. by destruct c as [[] [] [] [] [] [] [] []]. Qed.

Lemma upper_char_idem c : upper_char (upper_char c) = upper_char c.
Proof. by destruct c as [[] [] [] [] [] [] [] []]. Qed.

Lemma space_isspace c : Ascii.eqb c " " = true -> isspace c = true.
Proof. intros ->%Ascii.eqb_eq. done. Qed.

Lemma upper_is_space c : Ascii.eqb (upper_char c) " " = Ascii.eqb c " ".
Proof. by destruct c as [[] [] [] [] [] [] [] []]. Qed.

Lemma is_empty_true s : is_empty s = true <-> s = EmptyString.
Proof. by destruct s. Qed.

Lemma is_empty_smap f s : is_empty (smap f s) = is_empty s.
Proof. by destruct s. Qed.

Lemma lstrip_starts_clean s : starts_clean (lstrip s) = true.
Proof.
  induction s as [|c r IH]; simpl; [done|].
  destruct (isspace c) eqn:E; [done|]. simpl. by rewrite E.
Qed.

Lemma lstrip_clean s : starts_clean s = true -> lstrip s = s.
Proof. destruct s as [|c r]; simpl; [done|]. by destruct (isspace c). Qed.

Lemma rstrip_ends_clean s : ends_clean (rstrip s) = true.
Proof.
  induction s as [|c r IH]; simpl; [done|].
  destruct (rstrip r) as [|d r'] eqn:E; simpl.
  - destruct (isspace c) eqn:Ec; simpl; [done|]. by rewrite Ec.
  - rewrite andb_false_r. simpl. exact IH.
Qed.

Lemma rstrip_clean s : ends_clean s = true -> rstrip s = s.
Proof.
  induction s as [|c r IH]; simpl; [done|].
  destruct r as [|d r'].
  - simpl. intros H%negb_true_iff. by rewrite H.
  - intros H. rewrite (IH H). by rewrite andb_false_r.
Qed.

Lemma rstrip_starts_clean s : starts_clean s = true -> starts_clean (rstrip s) = true.
Proof.
  destruct s as [|c r]; simpl; [done|].
  intros H%negb_true_iff. rewrite H. simpl. by rewrite H.
Qed.

Lemma lstrip_ends_clean s : ends_clean s = true -> ends_clean (lstrip s) = true.
Proof.
  induction s as [|c r IH]; [done|].
  intros H. simpl lstrip. destruct (isspace c) eqn:E; [|done].
  apply IH. destruct r; [|done]. simpl in H. by rewrite E in H.
Qed.

Lemma strip_clean s : starts_clean (strip s) = true /\ ends_clean (strip s) = true.
Proof.
  unfold strip. split; [apply lstrip_starts_clean|].
  apply lstrip_ends_clean, rstrip_ends_clean.
Qed.

Lemma strip_id s : starts_clean s = true -> ends_clean s = true -> strip s = s.
Proof. intros H1 H2. unfold strip. rewrite (rstrip_clean _ H2). by apply lstrip_clean. Qed.

Lemma starts_clean_upper s : starts_clean (upper s) = starts_clean s.
Proof. unfold upper. destruct s; simpl; [done|]. by rewrite isspace_upper. Qed.

Lemma ends_clean_upper s : ends_clean (upper s) = ends_clean s.
Proof.
  unfold upper. induction s as [|c r IH]; [done|].
  destruct r as [|d r']; simpl in *; [by rewrite isspace_upper|]. exact IH.
Qed.

Lemma upper_idem s : upper (upper s) = upper s.
Proof.
  unfold upper. induction s as [|c r IH]; simpl; [done|].
  by rewrite upper_char_idem, IH.
Qed.

Lemma starts_clean_remove_spaces s :
  starts_clean s = true -> starts_clean (remove_spaces s) = true.
Proof.
  destruct s as [|c r]; simpl; [done|]. intros H.
  destruct (Ascii.eqb c " ") eqn:E; [|done].
  apply space_isspace in E. by rewrite E in H.
Qed.

Lemma ends_clean_remove_spaces s :
  ends_clean s = true ->
  ends_clean (remove_spaces s) = true /\ (is_empty (remove_spaces s) = is_empty s).
Proof.
  induction s as [|c r IH]; [done|]. intros H.
  destruct r as [|d r'].
  - simpl in *. destruct (Ascii.eqb c " ") eqn:E.
    + apply space_isspace in E. by rewrite E in H.
    + simpl. done.
  - destruct (IH H) as [IH1 IH2].
    change (remove_spaces (String c (String d r')))
      with (if Ascii.eqb c " " then remove_spaces (String d r')
            else String c (remove_spaces (String d r'))).
    destruct (Ascii.eqb c " "); [done|].
    split; [|done].
    destruct (remove_spaces (String d r')); [done|]. exact IH1.
Qed.

Lemma remove_spaces_idem s : remove_spaces (remove_spaces s) = remove_spaces s.
Proof.
  induction s as [|c r IH]; simpl; [done|].
  destruct (Ascii.eqb c " ") eqn:E; [done|]. simpl. by rewrite E, IH.
Qed.

Lemma remove_spaces_upper s : remove_spaces (upper s) = upper (remove_spaces s).
Proof.
  unfold upper. induction s as [|c r IH]; simpl; [done|].
  rewrite upper_is_space. destruct (Ascii.eqb c " "); simpl; by rewrite IH.
Qed.

(** The text [normalize_seq] works on is a fixed point of its three
    steps. *)
Lemma canonical_fixed s :
  let v := remove_spaces (upper (strip s)) in
  remove_spaces (upper (strip v)) = v.
Proof.
  intros v.
  destruct (strip_clean s) as [H1 H2].
  assert (Hs : starts_clean v = true).
  { apply starts_clean_remove_spaces. by rewrite starts_clean_upper. }
  assert (He : ends_clean v = true).
  { apply ends_clean_remove_spaces. by rewrite ends_clean_upper. }
  rewrite (strip_id _ Hs He). unfold v.
  by rewrite remove_spaces_upper, remove_spaces_idem, remove_spaces_upper, upper_idem.
Qed.

Lemma sapp_nil (s : string) : EmptyString +:+ s = s.
Proof. reflexivity. Qed.

Lemma sapp_cons c (r s : string) : String c r +:+ s = String c (r +:+ s).
Proof. reflexivity. Qed.

Lemma lstrip_app_space w s : all_space w = true -> lstrip (w +:+ s) = lstrip s.
Proof.
  induction w as [|c r IH]; [done|]. rewrite sapp_cons. simpl.
  intros [-> H]%andb_true_iff. by apply IH.
Qed.

Lemma rstrip_all_space w : all_space w = true -> rstrip w = EmptyString.
Proof.
  induction w as [|c r IH]; simpl; [done|].
  intros [-> H]%andb_true_iff. by rewrite (IH H).
Qed.

Lemma rstrip_app_space s w : all_space w = true -> rstrip (s +:+ w) = rstrip s.
Proof.
  intros H. induction s as [|c r IH].
  - rewrite sapp_nil. by apply rstrip_all_space.
  - rewrite sapp_cons. simpl. by rewrite IH.
Qed.

Lemma rstrip_space_app w s :
  all_space w = true ->
  rstrip (w +:+ s) = if is_empty (rstrip s) then EmptyString else w +:+ rstrip s.
Proof.
  induction w as [|c r IH].
  - intros _. rewrite !sapp_nil. by destruct (rstrip s).
  - intros [Hc H]%andb_true_iff. rewrite !sapp_cons. simpl in *.
    rewrite (IH H), Hc.
    destruct (rstrip s) as [|x t]; simpl; [done|].
    destruct r; by rewrite ?sapp_nil, ?sapp_cons.
Qed.

Lemma string_app_assoc (a b c : string) : (a +:+ b) +:+ c = a +:+ (b +:+ c).
Proof. induction a as [|x a IH]; [done|]. by rewrite !sapp_cons, IH. Qed.

(** Surrounding white space does not survive [strip]. *)
Lemma strip_surrounded w1 t w2 :
  all_space w1 = true -> all_space w2 = true ->
  strip (w1 +:+ t +:+ w2) = strip t.
Proof.
  intros H1 H2. unfold strip.
  rewrite <- string_app_assoc, (rstrip_app_space _ _ H2), (rstrip_space_app _ _ H1).
  destruct (rstrip t) eqn:E; simpl; [done|].
  change (lstrip (w1 +:+ String a s) = lstrip (String a s)).
  by apply lstrip_app_space.
Qed.

Lemma strip_upper s : strip (upper s) = upper (strip s).
Proof.
  unfold strip.
  assert (Hr : forall s, rstrip (upper s) = upper (rstrip s)).
  { clear s. unfold upper. induction s as [|c r IH]; simpl; [done|].
    rewrite IH. rewrite is_empty_smap, isspace_upper.
    by destruct (isspace c && is_empty (rstrip r)). }
  assert (Hl : forall s, lstrip (upper s) = upper (lstrip s)).
  { clear s Hr. unfold upper. induction s as [|c r IH]; simpl; [done|].
    rewrite isspace_upper. by destruct (isspace c). }
  by rewrite Hr, Hl.
Qed.

(** ** utils.py: the sequence normalizer *)

Lemma normalize_seq_str s :
  normalize_seq (PStr s) =
  let v := remove_spaces (upper (strip s)) in
  if bool_decide (v ∈ MISSING_TOKENS) then None else Some v.
Proof. done. Qed.

Lemma normalize_seq_fixed v r : normalize_seq v = Some r -> normalize_seq (PStr r) = Some r.
Proof.
  unfold normalize_seq at 1. destruct (_is_missing v); [done|].
  case_bool_decide as Hin; [done|]. intros [= <-].
  rewrite normalize_seq_str. cbv zeta. rewrite canonical_fixed.
  by rewrite bool_decide_eq_false_2.
Qed.

Lemma normalize_seq_missing_token w1 t w2 :
  all_space w1 = true -> all_space w2 = true -> missing_token t ->
  normalize_seq (PStr (w1 +:+ t +:+ w2)) = None.
Proof.
  intros H1 H2 Ht. rewrite normalize_seq_str. cbv zeta.
  rewrite (strip_surrounded _ _ _ H1 H2), <- strip_upper.
  unfold missing_token, MISSING_TOKENS in Ht.
  rewrite !elem_of_cons, elem_of_nil in Ht.
  destruct Ht as [-> | [-> | [-> | [-> | []]]]]; done.
Qed.

(** C8. The sequence normalizer is idempotent on its non-absent results,
    and returns absent for null input and for every missing-value token
    (the empty string, nan, NA, None) in any letter case with any
    surrounding white space. *)
Theorem C8_normalize_seq_idempotent_and_missing :
  (forall v r, normalize_seq v = Some r -> normalize_seq (cell (Some r)) = Some r)
  /\ normalize_seq PNone = None
  /\ normalize_seq PNaN = None
  /\ (forall w1 t w2,
        all_space w1 = true -> all_space w2 = true -> missing_token t ->
        normalize_seq (PStr (w1 +:+ t +:+ w2)) = None).
Proof.
  split; [|split; [done|split; [done|]]].
  - intros v r H. simpl. by eapply normalize_seq_fixed.
  - apply normalize_seq_missing_token.
Qed.

Lemma C8_witness :
  normalize_seq (PStr " ac gt ") = Some "ACGT"
  /\ normalize_seq (PStr "ACGT") = Some "ACGT"
  /\ normalize_seq (PStr ("  " +:+ "nOnE" +:+ " ")) = None.
Proof.
  destruct C8_normalize_seq_idempotent_and_missing as (Hi & _ & _ & Hm).
  split; [done|]. split.
  - apply (Hi (PStr " ac gt ") "ACGT"). reflexivity.
  - apply Hm; [reflexivity | reflexivity | ].
    unfold missing_token. vm_compute. repeat constructor.
Defined.


(** ** indexes.py: merging lookups *)

Section MergeFacts.
Context {V : Type} `{EqDecision V}.
Variable msg : string -> V -> V -> string.

Implicit Types (d acc m : Dict V) (ls : list (Dict V)).

Lemma dict_get_set d k v k' :
  dict_get (dict_set d k v) k' = if decide (k = k') then Some v else dict_get d k'.
Proof.
  induction d as [|[k0 v0] r IH]; csimpl.
  - destruct (decide (k = k')); done.
  - destruct (decide (k0 = k)) as [->|Hne]; csimpl.
    + destruct (decide (k = k')); done.
    + rewrite IH. destruct (decide (k0 = k')) as [->|]; [|done].
      destruct (decide (k = k')); [by subst | done].
Qed.

Lemma dict_get_elem d k v : dict_get d k = Some v -> (k, v) ∈ d.
Proof.
  induction d as [|[k0 v0] r IH]; csimpl; [done|].
  destruct (decide (k0 = k)) as [->|Hne].
  - intros [= ->]. apply list_elem_of_here.
  - intros H1. apply list_elem_of_further. by apply IH.
Qed.

Lemma elem_dict_get d k v : dict_wf d -> (k, v) ∈ d -> dict_get d k = Some v.
Proof.
  unfold dict_wf. induction d as [|[k0 v0] r IH]; csimpl.
  - intros _ Hin. by apply elem_of_nil in Hin.
  - intros [Hk Hr]%NoDup_cons [Heq | Hin]%elem_of_cons.
    + simplify_eq. by rewrite decide_True.
    + destruct (decide (k0 = k)) as [->|Hne]; [|by apply IH].
      exfalso. apply Hk. apply list_elem_of_fmap. by exists (k, v).
Qed.

Lemma dict_set_keys d k v :
  (dict_set d k v).*1 = if bool_decide (k ∈ d.*1) then d.*1 else (d.*1 ++ [k])%list.
Proof.
  induction d as [|[k0 v0] r IH]; csimpl; [done|].
  destruct (decide (k0 = k)) as [->|Hne]; csimpl.
  - rewrite bool_decide_eq_true_2 by apply list_elem_of_here. done.
  - rewrite IH. destruct (bool_decide (k ∈ r.*1)) eqn:E.
    + apply bool_decide_eq_true in E.
      rewrite bool_decide_eq_true_2 by (by apply list_elem_of_further). done.
    + apply bool_decide_eq_false in E.
      rewrite bool_decide_eq_false_2; [done|].
      intros [?|?]%elem_of_cons; done.
Qed.

Lemma dict_set_wf d k v : dict_wf d -> dict_wf (dict_set d k v).
Proof.
  unfold dict_wf. rewrite dict_set_keys.
  destruct (bool_decide (k ∈ d.*1)) eqn:E; [done|].
  apply bool_decide_eq_false in E.
  intros Hd. apply NoDup_app. split; [done|]. split; [|apply NoDup_singleton].
  intros x Hx ->%list_elem_of_singleton. done.
Qed.

(** The inner loop, when it ends normally. *)
Lemma merge_items_inr items acc m :
  merge_items msg acc items = inr m ->
  (dict_wf acc -> dict_wf m) /\
  forall k v, dict_get m k = Some v <-> dict_get acc k = Some v \/ (k, v) ∈ items.
Proof.
  revert acc. induction items as [|[k0 v0] r IH]; intros acc; simpl.
  - intros [= <-]. split; [done|]. intros k v. rewrite elem_of_nil. tauto.
  - intros Hm.
    assert (Hstep : merge_items msg (dict_set acc k0 v0) r = inr m
                    /\ (forall old, dict_get acc k0 = Some old -> old = v0)).
    { destruct (dict_get acc k0) as [old|]; [destruct (decide (old = v0))|];
        simplify_eq; split; try done. by intros ? [= <-]. }
    destruct Hstep as [Hrec Hold]. destruct (IH _ Hrec) as [Hwf Hget].
    split; [intros; by apply Hwf, dict_set_wf|].
    intros k v. rewrite Hget, dict_get_set, elem_of_cons.
    destruct (decide (k0 = k)) as [->|Hne].
    + split.
      * intros [Heq | Hin]; [right; left | right; by right]. congruence.
      * intros [Hacc | [Heq | Hin]]; [left | left | by right]; [|congruence].
        by rewrite (Hold _ Hacc).
    + split.
      * intros [Hacc | Hin]; [by left | right; by right].
      * intros [Hacc | [Heq | Hin]]; [by left | congruence | by right].
Qed.


(** The outer loop, when it ends normally. *)
Lemma merge_from_inr ls acc m :
  merge_from msg acc ls = inr m ->
  (dict_wf acc -> dict_wf m) /\
  forall k v, dict_get m k = Some v <->
              dict_get acc k = Some v \/ exists d, d ∈ ls /\ (k, v) ∈ d.
Proof.
  revert acc. induction ls as [|lk r IH]; intros acc; simpl.
  - intros [= <-]. split; [done|]. intros k v. split; [by left|].
    intros [? | (d & []%elem_of_nil & _)]; done.
  - destruct (merge_items msg acc lk) as [e|m1] eqn:Hitems; [done|].
    intros Hrec. destruct (merge_items_inr _ _ _ Hitems) as [Hwf1 Hget1].
    destruct (IH _ Hrec) as [Hwf Hget].
    split; [auto|]. intros k v. rewrite Hget, Hget1. split.
    + intros [[? | ?] | (d & Hd & ?)]; [by left | right | right].
      * exists lk. split; [left | done].
      * exists d. split; [by right | done].
    + intros [? | (d & [-> | Hd]%elem_of_cons & ?)]; [by left; left | by left; right |].
      right. by exists d.
Qed.







End MergeFacts.





(** The collision of two paired lookups that differ in the i5 of one ID. *)
Example pair_collision_names_both_pairs :
  merge_pair_lookups Sample.clashing_pair_lookups
  = inl (ValueError ("Paired Index_ID collision for 'SI-GA-A1': "
                     +:+ "('ACGTACGT', 'TTGGCCAA') vs ('ACGTACGT', 'GGAACCTT')")).
Proof. reflexivity. Qed.

(** Sources that agree on the ID they share merge into their union. *)
Example agreeing_lookups_merge :
  merge_single_lookups Sample.agreeing_lookups
  = inr [("N701", "TAAGGCGA"); ("N702", "CGTACTAG")].
Proof. reflexivity. Qed.


(** ** Regular expressions: the matcher decides the language *)

Lemma sapp_empty (a b : string) : a +:+ b = EmptyString -> a = EmptyString /\ b = EmptyString.
Proof. destruct a; [by rewrite sapp_nil|]. by rewrite sapp_cons. Qed.

Lemma sapp_nil_r (a : string) : a +:+ EmptyString = a.
Proof. induction a as [|c a IH]; [done|]. by rewrite sapp_cons, IH. Qed.

Lemma nullable_lang r : Re.nullable r = true <-> lang r EmptyString.
Proof.
  split.
  - induction r as [| |p|r1 IH1 r2 IH2|r1 IH1 r2 IH2|r IH]; simpl; try done.
    + intros _. constructor.
    + intros [H1 H2]%andb_true_iff.
      rewrite <- (sapp_nil EmptyString). constructor; auto.
    + intros [H1|H2]%orb_true_iff; [apply lang_alt_l | apply lang_alt_r]; auto.
    + intros _. constructor.
  - intros H. remember EmptyString as s eqn:Es.
    induction H as [|p c Hp|r1 r2 s1 s2 H1 IH1 H2 IH2|r1 r2 s H1 IH1|r1 r2 s H2 IH2
                   |r|r s1 s2 H1 IH1 H2 IH2]; simpl; try done.
    + apply sapp_empty in Es as [-> ->]. by rewrite IH1, IH2.
    + by rewrite IH1.
    + rewrite IH2 by done. apply orb_true_r.
Qed.

Lemma deriv_lang r c s : lang (Re.deriv c r) s <-> lang r (String c s).
Proof.
  split.
  - revert s. induction r as [| |p|r1 IH1 r2 IH2|r1 IH1 r2 IH2|r IH]; simpl; intros s H.
    + inversion H.
    + inversion H.
    + destruct (p c) eqn:Hp; inversion H; subst. by constructor.
    + assert (Hseq : forall s, lang (Re.Seq (Re.deriv c r1) r2) s -> lang (Re.Seq r1 r2) (String c s)).
      { clear s H. intros s H. inversion H as [| |? ? s1 s2 Ha Hb| | | |]; subst.
        rewrite <- sapp_cons. constructor; auto. }
      destruct (Re.nullable r1) eqn:Hn; [|by apply Hseq].
      inversion H as [| | |? ? ? Ha|? ? ? Hb| |]; subst; [by apply Hseq|].
      rewrite <- (sapp_nil (String c s)). constructor; [by apply nullable_lang | auto].
    + inversion H; subst; [apply lang_alt_l | apply lang_alt_r]; auto.
    + inversion H as [| |? ? s1 s2 Ha Hb| | | |]; subst.
      rewrite <- sapp_cons. constructor; auto.
  - intros H. remember (String c s) as s' eqn:Es. revert s Es.
    induction H as [|p c' Hp|r1 r2 s1 s2 H1 IH1 H2 IH2|r1 r2 s0 H1 IH1|r1 r2 s0 H2 IH2
                   |r|r s1 s2 H1 IH1 H2 IH2]; intros s Es; simpl; try done.
    + injection Es as -> <-. rewrite Hp. constructor.
    + destruct s1 as [|c1 s1'].
      * rewrite sapp_nil in Es. subst s2.
        apply nullable_lang in H1. rewrite H1. apply lang_alt_r. by apply IH2.
      * rewrite sapp_cons in Es. injection Es as -> <-.
        assert (lang (Re.Seq (Re.deriv c r1) r2) (s1' +:+ s2)) by (constructor; auto).
        destruct (Re.nullable r1); [by apply lang_alt_l | done].
    + apply lang_alt_l. by apply IH1.
    + apply lang_alt_r. by apply IH2.
    + destruct s1 as [|c1 s1'].
      * rewrite sapp_nil in Es. by apply IH2.
      * rewrite sapp_cons in Es. injection Es as -> <-. constructor; auto.
Qed.

Lemma fullmatch_lang r s : Re.fullmatch r s = true <-> lang r s.
Proof.
  revert r. induction s as [|c s IH]; intros r; simpl.
  - apply nullable_lang.
  - rewrite IH. apply deriv_lang.
Qed.

(** ** io_normalize.py: lane expansion *)

Lemma lane_digit_not_sep c : lane_digit c = true -> lane_sep c = false.
Proof. by destruct c as [[] [] [] [] [] [] [] []]. Qed.

Lemma lane_digit_int c :
  lane_digit c = true ->
  exists z, int_of_string (String c EmptyString) = Some z /\ 1 <= z <= 8.
Proof.
  destruct c as [[] [] [] [] [] [] [] []]; try done; intros _; eexists;
    (split; [reflexivity | vm_compute; split; discriminate]).
Qed.

Lemma lang_star_cls p s : lang (Re.Star (Re.Cls p)) s -> all_in p s = true.
Proof.
  intros H. remember (Re.Star (Re.Cls p)) as k eqn:Ek.
  induction H as [| | | | | |r s1 s2 H1 _ H2 IH2]; try done.
  injection Ek as ->. inversion H1; subst. rewrite sapp_cons, sapp_nil. simpl.
  rewrite IH2 by done. by rewrite andb_true_r.
Qed.

Lemma lang_plus_cls p s :
  lang (Re.Plus (Re.Cls p)) s -> exists c w, s = String c w /\ p c = true /\ all_in p w = true.
Proof.
  intros H. inversion H as [| |? ? s1 s2 Ha Hb| | | |]; subst.
  inversion Ha; subst. exists c, s2. rewrite sapp_cons, sapp_nil.
  split; [done|]. split; [done|]. by apply lang_star_cls.
Qed.

Lemma split_runs_skip sep w d y :
  all_in sep w = true -> sep d = false ->
  Re.split_runs sep true (w +:+ String d y) = Re.split_runs sep false (String d y).
Proof.
  intros Hw Hd. induction w as [|c w IH].
  - rewrite sapp_nil. simpl. by rewrite Hd.
  - rewrite sapp_cons. simpl in *. apply andb_true_iff in Hw as [-> Hw]. by apply IH.
Qed.

(** The tokens of a well-formed tail, after a first digit. *)
Lemma lane_tail_tokens rest :
  lang (Re.Star (Re.Seq (Re.Plus (Re.Cls lane_sep)) (Re.Cls lane_digit))) rest ->
  exists ds,
    Forall (fun d => lane_digit d = true) ds
    /\ forall d0, lane_sep d0 = false ->
         Re.split_runs lane_sep false (String d0 rest)
         = map (fun d => String d EmptyString) (d0 :: ds).
Proof.
  intros H.
  remember (Re.Star (Re.Seq (Re.Plus (Re.Cls lane_sep)) (Re.Cls lane_digit))) as k eqn:Ek.
  induction H as [| | | | | |r s1 s2 H1 _ H2 IH2]; try done.
  - exists []. split; [constructor|]. intros d0 Hd0. simpl. by rewrite Hd0.
  - injection Ek as ->. destruct (IH2 eq_refl) as (ds2 & Hds2 & Hsplit).
    inversion H1 as [| |? ? seps dd Ha Hb| | | |]; subst.
    inversion Hb as [|? d1 Hd1| | | | |]; subst.
    apply lang_plus_cls in Ha as (c0 & w & -> & Hc0 & Hw).
    exists (d1 :: ds2). split; [by constructor|].
    intros d0 Hd0.
    rewrite !string_app_assoc, sapp_cons, sapp_cons, sapp_nil.
    change (Re.split_runs lane_sep false (String d0 (String c0 (w +:+ String d1 s2))))
      with (if lane_sep d0 then EmptyString :: Re.split_runs lane_sep true (String c0 (w +:+ String d1 s2))
            else match (if lane_sep c0 then EmptyString :: Re.split_runs lane_sep true (w +:+ String d1 s2)
                        else match Re.split_runs lane_sep false (w +:+ String d1 s2) with
                             | t :: ts => String c0 t :: ts
                             | [] => [String c0 EmptyString]
                             end) with
                 | t :: ts => String d0 t :: ts
                 | [] => [String d0 EmptyString]
                 end).
    rewrite Hd0, Hc0.
    rewrite (split_runs_skip _ _ _ _ Hw (lane_digit_not_sep _ Hd1)).
    by rewrite (Hsplit d1 (lane_digit_not_sep _ Hd1)).
Qed.

(** A cell of the allowed format splits into one-digit tokens. *)
Lemma lane_pattern_tokens s :
  Re.fullmatch lane_pattern s = true ->
  exists d ds,
    Forall (fun d => lane_digit d = true) (d :: ds)
    /\ Re.split lane_sep s = map (fun d => String d EmptyString) (d :: ds).
Proof.
  intros H%fullmatch_lang. unfold lane_pattern in H.
  inversion H as [| |? ? s1 s2 Ha Hb| | | |]; subst.
  inversion Ha as [|? d Hd| | | | |]; subst.
  destruct (lane_tail_tokens _ Hb) as (ds & Hds & Hsplit).
  exists d, ds. split; [by constructor|].
  rewrite sapp_cons, sapp_nil. unfold Re.split. apply Hsplit.
  by apply lane_digit_not_sep.
Qed.

Lemma any_map_true {A} (f : A -> bool) l :
  any (map f l) = true <-> Exists (fun x => f x = true) l.
Proof.
  unfold any. induction l as [|x l IH]; simpl.
  - split; [done | by intros ?%Exists_nil].
  - rewrite orb_true_iff, IH, Exists_cons. done.
Qed.

Lemma any_map_false {A} (f : A -> bool) l :
  any (map f l) = false <-> Forall (fun x => f x = false) l.
Proof.
  unfold any. induction l as [|x l IH]; simpl.
  - split; [constructor | done].
  - rewrite orb_false_iff, IH, Forall_cons. done.
Qed.

Lemma newline_isspace c : Ascii.eqb c "010" = true -> isspace c = true.
Proof. intros ->%Ascii.eqb_eq. done. Qed.

Lemma drop_final_newline_clean s : ends_clean s = true -> Re.drop_final_newline s = None.
Proof.
  induction s as [|c r IH]; [done|]. destruct r as [|d r'].
  - simpl. intros H%negb_true_iff. destruct (Ascii.eqb c "010") eqn:E; [|done].
    apply newline_isspace in E. congruence.
  - intros H. change (Re.drop_final_newline (String c (String d r')))
      with (option_map (String c) (Re.drop_final_newline (String d r'))).
    by rewrite IH.
Qed.

Lemma match_anchored_strip r x :
  Re.match_anchored r (strip x) = Re.fullmatch r (strip x).
Proof.
  unfold Re.match_anchored.
  rewrite drop_final_newline_clean by apply strip_clean. apply orb_false_r.
Qed.

Lemma lane_digit_not_n c : lane_digit c = true -> lower_char c ≠ "n"%char.
Proof. by destruct c as [[] [] [] [] [] [] [] []]. Qed.

Lemma lane_cell_matches_not_empty r :
  lane_cell_matches r = true -> lane_cell_empty r = false.
Proof.
  unfold lane_cell_matches, lane_cell_empty, lane_text. rewrite match_anchored_strip.
  intros (d & ds & Hd & Hsplit)%lane_pattern_tokens.
  apply Forall_cons in Hd as [Hd _].
  destruct (strip (str (lane r))) as [|c s] eqn:Es.
  - exfalso. by vm_compute in Hsplit.
  - assert (c = d) as ->.
    { revert Hsplit. unfold Re.split. simpl. destruct (lane_sep c) eqn:Ec; [by intros [=]|].
      destruct (Re.split_runs lane_sep false s); by intros [=]. }
    rewrite bool_decide_eq_false_2 by done. apply bool_decide_eq_false_2.
    unfold lower. simpl. intros [= Hn _]. by apply (lane_digit_not_n d).
Qed.

Lemma unique_from_length `{EqDecision A} (seen xs : list A) :
  (List.length (unique_from seen xs) <= List.length xs)%nat.
Proof.
  revert seen. induction xs as [|x xs IH]; intros seen; simpl; [done|].
  case_bool_decide; simpl; [etrans; [apply IH|lia] | specialize (IH (x :: seen)); lia].
Qed.

Lemma unique_from_elem `{EqDecision A} (seen xs : list A) y :
  y ∈ unique_from seen xs <-> y ∈ xs /\ y ∉ seen.
Proof.
  revert seen. induction xs as [|x xs IH]; intros seen; simpl.
  - rewrite elem_of_nil. tauto.
  - destruct (bool_decide (x ∈ seen)) eqn:E.
    + apply bool_decide_eq_true in E. rewrite IH, elem_of_cons.
      split; [tauto|]. intros [[-> | ?] ?]; tauto.
    + apply bool_decide_eq_false in E. rewrite !elem_of_cons, IH, elem_of_cons.
      split.
      * intros [-> | [? ?]]; [tauto|]. split; [tauto|]. tauto.
      * intros [[-> | ?] ?]; [tauto|]. destruct (decide (y = x)); [tauto|]. tauto.
Qed.

Lemma unique_from_NoDup `{EqDecision A} (seen xs : list A) : NoDup (unique_from seen xs).
Proof.
  revert seen. induction xs as [|x xs IH]; intros seen; simpl; [constructor|].
  case_bool_decide; [apply IH|]. constructor; [|apply IH].
  rewrite unique_from_elem. intros [_ Hx]. apply Hx. left.
Qed.

Lemma unique_from_full `{EqDecision A} (seen xs : list A) :
  List.length xs = List.length (unique_from seen xs) -> unique_from seen xs = xs.
Proof.
  revert seen. induction xs as [|x xs IH]; intros seen; simpl; [done|].
  case_bool_decide.
  - intros Hl. pose proof (unique_from_length seen xs). lia.
  - simpl. intros [= Hl]. by rewrite (IH _ Hl).
Qed.

Lemma unique_from_fresh `{EqDecision A} (seen xs : list A) :
  NoDup xs -> (forall x, x ∈ xs -> x ∉ seen) -> unique_from seen xs = xs.
Proof.
  revert seen. induction xs as [|x xs IH]; intros seen Hnd Hseen; simpl; [done|].
  apply NoDup_cons in Hnd as [Hx Hnd].
  rewrite bool_decide_eq_false_2 by (apply Hseen; left).
  f_equal. apply IH; [done|].
  intros y Hy [-> | ?]%elem_of_cons; [done|]. apply (Hseen y); [by right|done].
Qed.

Lemma unique_length_NoDup `{EqDecision A} (xs : list A) :
  List.length xs = List.length (unique xs) <-> NoDup xs.
Proof.
  unfold unique. split.
  - intros Hl. rewrite <- (unique_from_full [] xs Hl). apply unique_from_NoDup.
  - intros Hnd. rewrite unique_from_fresh; [done | done |].
    intros x _ Hx. by apply elem_of_nil in Hx.
Qed.

Lemma mapM_all {A B} (f : A -> option B) l :
  Forall (fun x => is_Some (f x)) l -> mapM f l = Some (omap f l).
Proof.
  induction 1 as [|x l [y Hy] _ IH]; [done|].
  simpl. rewrite Hy. simpl. by rewrite IH.
Qed.

Lemma explode_expanded df :
  Forall (fun r => Forall (fun t => is_Some (int_of_string t)) (lane_tokens r)) df ->
  explode df (map (Re.split lane_sep) (map lane_text df)) = Some (expanded df).
Proof.
  intros Hdf. unfold explode. rewrite mapM_all.
  - f_equal. unfold expanded. induction df as [|r df IH]; [done|].
    apply Forall_cons in Hdf as [Hr Hdf]. csimpl. rewrite omap_app, (IH Hdf). f_equal.
    unfold lane_numbers, lane_tokens. clear.
    induction (Re.split lane_sep (lane_text r)) as [|t ts IHt]; csimpl; [done|].
    destruct (int_of_string t); csimpl; by rewrite IHt.
  - induction df as [|r df IH]; [constructor|].
    apply Forall_cons in Hdf as [Hr Hdf]. csimpl. apply Forall_app. split; [|by apply IH].
    apply Forall_fmap. eapply Forall_impl; [exact Hr|].
    intros t [z Hz]. simpl. rewrite Hz. by eexists.
Qed.

Lemma lane_cell_tokens r :
  lane_cell_matches r = true ->
  Forall (fun t => exists z, int_of_string t = Some z /\ 1 <= z <= 8) (lane_tokens r).
Proof.
  unfold lane_cell_matches, lane_tokens, lane_text. rewrite match_anchored_strip.
  intros (d & ds & Hd & ->)%lane_pattern_tokens.
  apply Forall_fmap. eapply Forall_impl; [exact Hd|].
  intros c Hc. by apply lane_digit_int.
Qed.

Lemma expand_lanes_masks df :
  map (fun x : string => bool_decide (x = EmptyString) || bool_decide (lower x = "nan"))
      (map lane_text df) = map lane_cell_empty df
  /\ map (fun x => negb (Re.match_anchored lane_pattern x)) (map lane_text df)
     = map (fun r => negb (lane_cell_matches r)) df
  /\ map (fun xs : list string => bool_decide (List.length xs ≠ List.length (unique xs)))
         (map (Re.split lane_sep) (map lane_text df))
     = map (fun r => bool_decide (~ NoDup (lane_tokens r))) df.
Proof.
  rewrite !map_map. repeat split; try done.
  apply map_ext. intros r. apply bool_decide_ext.
  fold (lane_tokens r). by rewrite unique_length_NoDup.
Qed.

Ltac open_expand df :=
  unfold expand_lanes;
  change (map (fun r : Row PyVal => strip (str (lane r))) df) with (map lane_text df).

(** C6. The lane expander runs three checks over the lane cells, in
    order. A table with a cell that does not match one or more digits 1-8
    separated by commas and/or white space is rejected with a fatal
    lane-format error: the empty-lane error when some cell is empty or
    nan-like, the invalid-format error otherwise. A table whose cells all
    match, one of them listing a lane twice (as in [1,1,2]), is rejected
    with the fatal duplicate-in-cell error. Otherwise every row yields one
    copy of itself per listed lane, in the order of the cell, the lane an
    integer in 1..8 and every other field copied; a cell [1,2,4] yields
    exactly three rows, with the lanes 1, 2 and 4. *)
Theorem C6_expand_lanes (df : list (Row PyVal)) :
  (Exists (fun r => lane_cell_matches r = false) df ->
   exists e,
     expand_lanes df = inl e
     /\ ((Exists (fun r => lane_cell_empty r = true) df /\ LaneEmpty e)
         \/ (Forall (fun r => lane_cell_empty r = false) df /\ LaneFormatInvalid e)))
  /\ (Forall (fun r => lane_cell_matches r = true) df ->
      Exists (fun r => ~ NoDup (lane_tokens r)) df ->
      exists e, expand_lanes df = inl e /\ LaneDuplicateInCell e)
  /\ (Forall (fun r => lane_cell_matches r = true) df ->
      Forall (fun r => NoDup (lane_tokens r)) df ->
      expand_lanes df = inr (concat (map (fun r => map (with_lane r) (lane_numbers r)) df))
      /\ Forall (fun r => Forall (fun l => 1 <= l <= 8) (lane_numbers r)) df)
  /\ (forall r : Row PyVal,
        lane r = PStr "1,2,4" ->
        expand_lanes [r]
        = inr [mkRow 1 (sample_id r) (project_id r) (i7_id r) (i5_id r) (i7 r) (i5 r) (extra r);
               mkRow 2 (sample_id r) (project_id r) (i7_id r) (i5_id r) (i7 r) (i5 r) (extra r);
               mkRow 4 (sample_id r) (project_id r) (i7_id r) (i5_id r) (i7 r) (i5 r) (extra r)]).
Proof.
  destruct (expand_lanes_masks df) as (He & Hf & Hd).
  assert (Hwell : Forall (fun r => lane_cell_matches r = true) df ->
                  any (map lane_cell_empty df) = false
                  /\ any (map (fun r => negb (lane_cell_matches r)) df) = false
                  /\ explode df (map (Re.split lane_sep) (map lane_text df)) = Some (expanded df)).
  { intros Hm. split; [|split].
    - apply any_map_false. eapply Forall_impl; [exact Hm|].
      intros r. apply lane_cell_matches_not_empty.
    - apply any_map_false. eapply Forall_impl; [exact Hm|]. by intros r ->.
    - apply explode_expanded. eapply Forall_impl; [exact Hm|].
      intros r Hr. eapply Forall_impl; [by apply lane_cell_tokens|].
      intros t (z & -> & _). by eexists. }
  split; [|split; [|split]].
  - intros Hex. open_expand df. rewrite He.
    destruct (any (map lane_cell_empty df)) eqn:Hany.
    + eexists. split; [reflexivity|]. left. split; [by apply any_map_true | by eexists].
    + rewrite Hf.
      assert (any (map (fun r => negb (lane_cell_matches r)) df) = true) as ->.
      { apply any_map_true. eapply Exists_impl; [exact Hex|]. by intros r ->. }
      eexists. split; [reflexivity|]. right. split; [by apply any_map_false | by eexists].
  - intros Hm Hex. destruct (Hwell Hm) as (H1 & H2 & H3).
    open_expand df. rewrite He, H1, Hf, H2, H3, Hd.
    assert (any (map (fun r => bool_decide (~ NoDup (lane_tokens r))) df) = true) as ->.
    { apply any_map_true. eapply Exists_impl; [exact Hex|].
      intros r Hr. by apply bool_decide_eq_true_2. }
    eexists. split; [reflexivity|]. by eexists.
  - intros Hm Hnd. destruct (Hwell Hm) as (H1 & H2 & H3). split.
    + open_expand df. rewrite He, H1, Hf, H2, H3, Hd.
      assert (any (map (fun r => bool_decide (~ NoDup (lane_tokens r))) df) = false) as ->.
      { apply any_map_false. eapply Forall_impl; [exact Hnd|].
        intros r Hr. apply bool_decide_eq_false_2. by intros ?. }
      done.
    + eapply Forall_impl; [exact Hm|]. intros r Hr%lane_cell_tokens.
      unfold lane_numbers. induction Hr as [|t ts (z & Hz & Hb) _ IH]; csimpl; [constructor|].
      rewrite Hz. by constructor.
  - intros r Hr. unfold expand_lanes, explode. simpl. rewrite Hr. reflexivity.
Qed.


(** ** resolve.py *)

Lemma strip_idem s : strip (strip s) = strip s.
Proof. destruct (strip_clean s). by apply strip_id. Qed.

Lemma normalize_seq_nonempty v s : normalize_seq v = Some s -> is_empty s = false.
Proof.
  unfold normalize_seq. destruct (_is_missing v); [done|].
  case_bool_decide as Hin; [done|]. intros [= <-].
  destruct (remove_spaces _); [|done]. destruct Hin. apply list_elem_of_here.
Qed.

Lemma truth_cell_normalize v : truth (cell (normalize_seq v)) = present v.
Proof.
  unfold present. destruct (normalize_seq v) as [s|] eqn:E; simpl; [|done].
  by rewrite (normalize_seq_nonempty _ _ E).
Qed.

Lemma present_Some v s : normalize_seq v = Some s -> present v = true.
Proof. unfold present. by intros ->. Qed.

Lemma normalize_seq_cell v : normalize_seq (cell (normalize_seq v)) = normalize_seq v.
Proof.
  destruct (normalize_seq v) as [s|] eqn:E; simpl; [|done].
  by eapply normalize_seq_fixed.
Qed.

(** The loop of [resolve_indexes] treats every row on its own. *)
Lemma resolve_indexes_row i7l i5l pl r :
  let x := resolve_row i7l i5l pl (resolve_prepare r) in
  resolves_to i7l i5l pl r (resolve_finish x.1) x.2.
Proof.
  intros x pre post. unfold resolve_indexes. cbn zeta. simpl rr_df. simpl rr_problems.
  rewrite !map_app, !concat_app. simpl. split; [|done].
  rewrite lookup_app_r; rewrite !length_map; [|done].
  by rewrite Nat.sub_diag.
Qed.

Lemma resolve_finish_with_seqs r v7 v5 :
  resolve_finish (with_seqs (resolve_prepare r) (cell (normalize_seq v7)) (cell (normalize_seq v5)))
  = resolved_row r (normalize_seq v7) (normalize_seq v5).
Proof.
  unfold resolve_finish, with_seqs, resolved_row, resolve_prepare. simpl.
  by rewrite !normalize_seq_cell.
Qed.

Lemma resolve_finish_prepare r :
  resolve_finish (resolve_prepare r)
  = resolved_row r (normalize_seq (i7 r)) (normalize_seq (i5 r)).
Proof.
  unfold resolve_finish, resolved_row, resolve_prepare, with_seqs. simpl.
  by rewrite !normalize_seq_cell.
Qed.

(** C7. A row whose two sequences are present after normalization keeps
    them: whatever the three lookups hold and whatever its IDs are, it
    comes out with the normalized sequences and adds no problem. *)
Theorem C7_sequences_present_kept (i7l i5l : Dict string)
    (pl : option (Dict (string * string))) (r : Row Z) (s7 s5 : string) :
  normalize_seq (i7 r) = Some s7 ->
  normalize_seq (i5 r) = Some s5 ->
  resolves_to i7l i5l pl r (resolved_row r (Some s7) (Some s5)) [].
Proof.
  intros H7 H5.
  pose proof (resolve_indexes_row i7l i5l pl r) as Hrow. cbn zeta in Hrow.
  assert (Hx : resolve_row i7l i5l pl (resolve_prepare r) = (resolve_prepare r, [])).
  { unfold resolve_row. simpl i7. simpl i5.
    by rewrite !truth_cell_normalize, (present_Some _ _ H7), (present_Some _ _ H5). }
  rewrite Hx in Hrow. simpl in Hrow.
  by rewrite resolve_finish_prepare, H7, H5 in Hrow.
Qed.

Lemma resolver_id_prepared x : blank_id (strip (str (PStr (strip (str x))))) = resolver_id x.
Proof. simpl. by rewrite strip_idem. Qed.

Ltac open_row :=
  unfold resolve_row; simpl i7; simpl i5; simpl i7_id; simpl i5_id;
  simpl lane; simpl sample_id;
  rewrite ?resolver_id_prepared, ?truth_cell_normalize.

Lemma paired_rule_guard r :
  paired_rule_applies r = true ->
  present (i7 r) && present (i5 r) = false
  /\ negb (is_empty (resolver_id (i7_id r))) && negb (is_empty (resolver_id (i5_id r)))
     && bool_decide (resolver_id (i7_id r) = resolver_id (i5_id r)) = true.
Proof.
  unfold paired_rule_applies. intros H.
  apply andb_true_iff in H as [H Hd]. apply andb_true_iff in H as [H Hc].
  apply andb_true_iff in H as [Ha Hb]. split; [by apply negb_true_iff|].
  by rewrite Hb, Hc, Hd.
Qed.

(** C2, as the resolver does it. For a row that rule 2 handles (the
    sequences are not both present, the two IDs are present and equal):
    with no paired lookup, or with a paired lookup that has no entry, the
    row adds the ERROR PAIR_TABLE_NOT_PROVIDED; with a paired lookup that
    has entries but not this ID it adds the ERROR PAIR_ID_NOT_FOUND; and
    when the ID is found both sequences become the normalized pair entry,
    with no problem, whatever the i7 and i5 lookups hold. *)
Theorem C2_paired_kit_resolution (i7l i5l : Dict string)
    (pl : option (Dict (string * string))) (r : Row Z) :
  paired_rule_applies r = true ->
  let id := resolver_id (i7_id r) in
  let kept := resolved_row r (normalize_seq (i7 r)) (normalize_seq (i5 r)) in
  (pl = None \/ pl = Some [] ->
   resolves_to i7l i5l pl r kept
     [resolve_error r "PAIR_TABLE_NOT_PROVIDED" PAIR_TABLE_NOT_PROVIDED_message])
  /\ (forall pairs, pl = Some pairs -> pairs ≠ [] -> dict_get pairs id = None ->
      resolves_to i7l i5l pl r kept
        [resolve_error r "PAIR_ID_NOT_FOUND" (PAIR_ID_NOT_FOUND_message id)])
  /\ (forall pairs s7 s5, pl = Some pairs -> dict_get pairs id = Some (s7, s5) ->
      resolves_to i7l i5l pl r
        (resolved_row r (normalize_seq (PStr s7)) (normalize_seq (PStr s5))) []).
Proof.
  intros [Hnot Hid]%paired_rule_guard id kept.
  pose proof (resolve_indexes_row i7l i5l pl r) as Hrow. cbn zeta in Hrow.
  revert Hrow. open_row. rewrite Hnot, Hid. fold id. intros Hrow.
  split; [|split].
  - intros [-> | ->]; simpl in Hrow; by rewrite resolve_finish_prepare in Hrow.
  - intros pairs -> Hne Hget. rewrite Hget in Hrow.
    destruct pairs; [done|]. simpl in Hrow.
    by rewrite resolve_finish_prepare in Hrow.
  - intros pairs s7 s5 -> Hget. rewrite Hget in Hrow.
    destruct pairs; [done|]. simpl in Hrow.
    by rewrite resolve_finish_with_seqs in Hrow.
Qed.

Lemma with_seqs_same (r : Row Z) : with_seqs r (i7 r) (i5 r) = r.
Proof. by destruct r. Qed.

(** What the loop body does to a row that rule 2 does not handle. *)
Lemma resolve_row_unpaired i7l i5l pl r :
  paired_rule_applies r = false ->
  exists o7 o5 ps,
    resolve_row i7l i5l pl (resolve_prepare r)
    = (with_seqs (resolve_prepare r) o7 o5, ps)
    /\ cell (normalize_seq o7) = o7
    /\ (o7 = PNone ->
        resolve_error r "I7_SEQUENCE_NOT_RESOLVED" I7_SEQUENCE_NOT_RESOLVED_message ∈ ps)
    /\ (o7 ≠ PNone -> forall p, p ∈ ps -> code p ≠ "I7_SEQUENCE_NOT_RESOLVED")
    /\ (o7 ≠ PNone -> resolver_id (i5_id r) = EmptyString -> ps = []).
Proof.
  unfold paired_rule_applies. intros Hrule.
  destruct (present (i7 r) && present (i5 r)) eqn:Hboth.
  - exists (i7 (resolve_prepare r)), (i5 (resolve_prepare r)), [].
    split.
    { open_row. rewrite Hboth. by rewrite with_seqs_same. }
    apply andb_true_iff in Hboth as [H7 _]. unfold present in H7.
    simpl i7. rewrite normalize_seq_cell.
    destruct (normalize_seq (i7 r)); [|done].
    repeat split; try done. intros _ p Hp. by apply elem_of_nil in Hp.
  - simpl in Hrule. open_row. rewrite Hboth, Hrule. unfold present.
    destruct (normalize_seq (i7 r)) as [s7|] eqn:E7;
      destruct (normalize_seq (i5 r)) as [s5|] eqn:E5;
      destruct (is_empty (resolver_id (i7_id r))) eqn:Ei7;
      destruct (is_empty (resolver_id (i5_id r))) eqn:Ei5;
      destruct (dict_get i7l (resolver_id (i7_id r))) as [v7|] eqn:Eg7;
      destruct (dict_get i5l (resolver_id (i5_id r))) as [v5|] eqn:Eg5;
      cbn [negb andb cell];
      (eexists _, _, _; split; [reflexivity|]);
      rewrite ?normalize_seq_cell, ?truth_cell_normalize; unfold present;
      try (destruct (normalize_seq (PStr v7)) as [n7|] eqn:En7);
      cbn [cell truth negb app];
      rewrite ?(normalize_seq_nonempty _ _ E7), ?(normalize_seq_fixed _ _ E7);
      cbn [cell truth negb app];
      try apply is_empty_true in Ei5.
    all: (split; [done|]).
    all: (split; [try done; intros _;
                  repeat first [apply list_elem_of_here | apply list_elem_of_further]|]).
    all: (split; [try done|]).
    all: try (intros Hx; try done; intros p Hp;
              repeat (apply elem_of_cons in Hp as [-> | Hp]; [done|]);
              by apply elem_of_nil in Hp).
    all: try (intros Hx Hid; try done; rewrite Hid in Ei5; done).
Qed.

(** C3, as the resolver does it. For a row that rule 2 does not handle:
    if its i7 sequence is absent when the rules are done, the row adds
    the ERROR I7_SEQUENCE_NOT_RESOLVED; if it is present the row adds no
    such problem, and with no i5 ID it adds no problem at all, also when
    its i5 sequence stays absent. *)
Theorem C3_final_requirement (i7l i5l : Dict string)
    (pl : option (Dict (string * string))) (r : Row Z) :
  paired_rule_applies r = false ->
  exists r' ps,
    resolves_to i7l i5l pl r r' ps
    /\ (i7 r' = PNone ->
        resolve_error r "I7_SEQUENCE_NOT_RESOLVED" I7_SEQUENCE_NOT_RESOLVED_message ∈ ps)
    /\ (i7 r' ≠ PNone -> forall p, p ∈ ps -> code p ≠ "I7_SEQUENCE_NOT_RESOLVED")
    /\ (i7 r' ≠ PNone -> resolver_id (i5_id r) = EmptyString -> ps = []).
Proof.
  intros Hrule.
  destruct (resolve_row_unpaired i7l i5l pl r Hrule) as (o7 & o5 & ps & Hx & Hn & Hrest).
  pose proof (resolve_indexes_row i7l i5l pl r) as Hrow. cbn zeta in Hrow.
  rewrite Hx in Hrow. cbn [fst snd] in Hrow.
  eexists _, _. split; [exact Hrow|].
  simpl i7. by rewrite Hn.
Qed.


(** ** validate.py: the loop over the lanes *)

Lemma elem_of_concat {A} (x : A) (ls : list (list A)) :
  x ∈ concat ls <-> exists l, x ∈ l /\ l ∈ ls.
Proof.
  induction ls as [|l ls IH]; simpl.
  - split; [by intros ?%elem_of_nil | by intros (? & _ & ?%elem_of_nil)].
  - rewrite elem_of_app, IH. split.
    + intros [? | (l' & ? & ?)]; [exists l | exists l']; (split; [done|]);
        [apply list_elem_of_here | by apply list_elem_of_further].
    + intros (l' & ? & [-> | ?]%elem_of_cons); [by left | right; by exists l'].
Qed.

Lemma insert_by_elem {A} (leb : A -> A -> bool) x xs y :
  y ∈ insert_by leb x xs <-> y = x \/ y ∈ xs.
Proof.
  induction xs as [|z xs IH]; simpl.
  - rewrite list_elem_of_singleton, elem_of_nil. tauto.
  - destruct (leb z x); rewrite !elem_of_cons, ?IH; tauto.
Qed.

Lemma sort_by_elem {A} (leb : A -> A -> bool) xs y : y ∈ sort_by leb xs <-> y ∈ xs.
Proof.
  unfold sort_by.
  assert (H : forall acc, y ∈ foldl (fun acc x => insert_by leb x acc) acc xs <-> y ∈ acc \/ y ∈ xs).
  { induction xs as [|x xs IH]; intros acc; simpl.
    - rewrite elem_of_nil. tauto.
    - rewrite IH, insert_by_elem, elem_of_cons. tauto. }
  rewrite H, elem_of_nil. tauto.
Qed.

Lemma unique_elem `{EqDecision A} (xs : list A) y : y ∈ unique xs <-> y ∈ xs.
Proof.
  unfold unique. rewrite unique_from_elem. split; [tauto|].
  intros H. split; [done|]. by intros ?%elem_of_nil.
Qed.

(** The state of the loop after the lanes [keys]. *)
Lemma validate_lanes_fold (df : list (Row Z)) (keys : list Z) (acc : list Problem * gmap Z Z) :
  let res :=
    foldl (fun (acc : list Problem * gmap Z Z) (g : Z * list (Row Z)) =>
             let '(lane_, td) := g in
             let '(p, mm) := validate_lane lane_ td in
             ((acc.1 ++ p)%list, <[lane_ := mm]> acc.2))
          acc (map (fun l => (l, filter (fun r => lane r = l) df)) keys) in
  res.1 = (acc.1 ++ concat (map (fun l => (validate_lane l (lane_rows df l)).1) keys))%list
  /\ forall l, res.2 !! l = if bool_decide (l ∈ keys)
                            then Some (validate_lane l (lane_rows df l)).2
                            else acc.2 !! l.
Proof.
  revert acc. induction keys as [|k keys IH]; intros acc; simpl.
  - split; [by rewrite app_nil_r | done].
  - fold (lane_rows df k). destruct (validate_lane k (lane_rows df k)) as [p mm] eqn:Ev.
    destruct (IH ((acc.1 ++ p)%list, <[k := mm]> acc.2)) as [IH1 IH2]. split.
    + rewrite IH1. simpl. by rewrite <- app_assoc.
    + intros l. rewrite IH2. simpl.
      destruct (bool_decide (l ∈ keys)) eqn:E.
      * rewrite bool_decide_eq_true_2; [done|]. right. by apply bool_decide_eq_true in E.
      * apply bool_decide_eq_false in E. destruct (decide (l = k)) as [->|Hne].
        -- rewrite lookup_insert_eq, bool_decide_eq_true_2 by left. by rewrite Ev.
        -- rewrite lookup_insert_ne by done.
           rewrite bool_decide_eq_false_2; [done|]. by intros [?|?]%elem_of_cons.
Qed.

(** What the validator returns, lane by lane. *)
Lemma validate_indexes_per_lane_lanes (df : list (Row Z)) :
  let keys := sort_by Z.leb (unique (map lane df)) in
  (validate_indexes_per_lane df).1
  = concat (map (fun l => (validate_lane l (lane_rows df l)).1) keys)
  /\ forall l, (validate_indexes_per_lane df).2 !! l
       = if bool_decide (l ∈ map lane df)
         then Some (validate_lane l (lane_rows df l)).2
         else None.
Proof.
  intros keys. unfold validate_indexes_per_lane, groupby_lane.
  destruct (validate_lanes_fold df keys ([], ∅)) as [H1 H2]. split; [exact H1|].
  intros l. rewrite H2. simpl. rewrite lookup_empty.
  assert (Hiff : l ∈ keys <-> l ∈ map lane df).
  { unfold keys. by rewrite sort_by_elem, unique_elem. }
  by rewrite (bool_decide_ext _ _ Hiff).
Qed.

(** C10. The tolerance map of the lane validator has an entry for every
    lane that occurs in the table, and for no other; a lane with a row
    whose i7 sequence is missing is reported with the ERROR I7_MISSING
    and stands in the map with the default tolerance 1. *)
Theorem C10_every_lane_has_tolerance (df : list (Row Z)) :
  let probs := (validate_indexes_per_lane df).1 in
  let lane_mm := (validate_indexes_per_lane df).2 in
  (forall l, is_Some (lane_mm !! l) <-> exists r, r ∈ df /\ lane r = l)
  /\ (forall r, r ∈ df -> normalize_seq (i7 r) = None ->
      lane_mm !! lane r = Some 1
      /\ exists p, p ∈ probs /\ lane_problem ERROR "I7_MISSING" (lane r) p).
Proof.
  intros probs lane_mm.
  destruct (validate_indexes_per_lane_lanes df) as [Hp Hm]. cbn zeta in Hp.
  fold probs in Hp. fold lane_mm in Hm.
  assert (Hin : forall l, l ∈ map lane df <-> exists r, r ∈ df /\ lane r = l).
  { intros l. change (map lane df) with (lane <$> df). rewrite list_elem_of_fmap.
    split; intros (r & ? & ?); by exists r. }
  split.
  - intros l. rewrite Hm, <- Hin. case_bool_decide; [|split; [by intros [? ?]|done]].
    split; [done|]. intros _. by eexists.
  - intros r Hr H7.
    assert (Hl : lane r ∈ map lane df) by (apply Hin; by exists r).
    assert (Hv : validate_lane (lane r) (lane_rows df (lane r))
                 = ([mkProblem ERROR "I7_MISSING"
                       ("Lane " +:+ pretty (lane r) +:+ ": missing i7 for samples: "
                        +:+ join ", "
                              (select (map (fun r => str (sample_id r)) (lane_rows df (lane r)))
                                      (map (fun x : option string => bool_decide (x = None))
                                           (map (fun r => normalize_seq (i7 r))
                                                (lane_rows df (lane r))))))
                       (Some (lane r)) None], 1)).
    { unfold validate_lane.
      assert (any (map (fun x : option string => bool_decide (x = None))
                       (map (fun r => normalize_seq (i7 r)) (lane_rows df (lane r)))) = true) as ->.
      { rewrite map_map. apply any_map_true. apply Exists_exists. exists r. split.
        - unfold lane_rows. by apply list_elem_of_filter.
        - by apply bool_decide_eq_true_2. }
      done. }
    split.
    + by rewrite Hm, bool_decide_eq_true_2, Hv.
    + eexists. split.
      * rewrite Hp. apply elem_of_concat.
        eexists. split; [|apply list_elem_of_fmap; exists (lane r); split; [reflexivity|]].
        -- rewrite Hv. apply list_elem_of_here.
        -- by rewrite sort_by_elem, unique_elem.
      * by repeat split.
Qed.

(** ** validate.py: dual-index lanes *)

Lemma select_all_false {A} (xs : list A) (mask : list bool) :
  Forall (fun b => b = false) mask -> select xs mask = [].
Proof.
  intros H. revert xs. induction H as [|b mask -> _ IH]; intros [|x xs]; simpl; auto.
Qed.

Lemma select_all_true {A} (xs : list A) (mask : list bool) :
  List.length mask = List.length xs -> Forall (fun b => b = true) mask -> select xs mask = xs.
Proof.
  intros Hl H. revert xs Hl. induction H as [|b mask -> _ IH]; intros [|x xs]; simpl; try done.
  intros [= Hl]. by rewrite IH.
Qed.

Lemma map_lookup_seq {A B} (g : option A -> B) (l : list A) :
  map (fun i => g (l !! i)) (seq 0 (List.length l)) = map (fun x => g (Some x)) l.
Proof.
  induction l as [|x l IH]; [done|].
  simpl. f_equal. rewrite <- fmap_S_seq, <- IH.
  change (map ?f (S <$> ?l)) with (map f (map S l)). by rewrite map_map.
Qed.

Lemma map_Some_omap {A B} (f : A -> option B) (l : list A) :
  Forall (fun x => is_Some (f x)) l -> map f l = map Some (omap f l).
Proof.
  induction 1 as [|x l [y Hy] _ IH]; [done|]. csimpl. rewrite Hy. csimpl.
  f_equal. exact IH.
Qed.

Lemma omap_id_Some {A} (l : list A) : omap id (map Some l) = l.
Proof. induction l as [|x l IH]; [done|]. csimpl. by rewrite IH. Qed.

Lemma all_rows_dual_present td :
  all_rows_dual td = true ->
  Forall (fun r => is_Some (normalize_seq (i7 r))) td
  /\ Forall (fun r => is_Some (normalize_seq (i5 r))) td.
Proof.
  unfold all_rows_dual. rewrite forallb_forall. intros H.
  split; apply Forall_forall; intros r Hr%list_elem_of_In%H;
    apply andb_true_iff in Hr as [H7 H5]; unfold present in *.
  - destruct (normalize_seq (i7 r)); [by eexists | done].
  - destruct (normalize_seq (i5 r)); [by eexists | done].
Qed.

Lemma length_omap_all {A B} (f : A -> option B) (l : list A) :
  Forall (fun x => is_Some (f x)) l -> List.length (omap f l) = List.length l.
Proof. intros H. by rewrite <- (length_map Some), <- map_Some_omap, length_map. Qed.

Lemma validate_lane_all_rows_dual l td :
  td ≠ [] -> all_rows_dual td = true ->
  let A := trimmed (lane_i7 td) in
  let B := trimmed (lane_i5 td) in
  let verdict := dual_policy l (_min_effective_pair_distance (map Some A) (map Some B)) in
  validate_lane l td
  = ((dual_pair_problems l td A (map Some B) (seq 0 (List.length td)) ++ verdict.1)%list,
     verdict.2).
Proof.
  intros Hne [H7 H5]%all_rows_dual_present A B verdict.
  unfold validate_lane.
  rewrite (map_Some_omap _ _ H7), (map_Some_omap _ _ H5).
  fold (lane_i7 td). fold (lane_i5 td).
  rewrite !omap_id_Some, !map_map, !length_map.
  assert (any (map (fun x : string => bool_decide (Some x = None)) (lane_i7 td)) = false) as ->.
  { apply any_map_false. by apply Forall_forall. }
  assert (Hlen7 : List.length (lane_i7 td) = List.length td) by by apply length_omap_all.
  assert (Hlen5 : List.length (lane_i5 td) = List.length td) by by apply length_omap_all.
  rewrite (select_all_false (seq 0 (List.length (lane_i5 td)))).
  2:{ by apply Forall_fmap, Forall_forall. }
  rewrite (select_all_true (seq 0 (List.length (lane_i5 td)))).
  2:{ by rewrite length_map, length_seq. }
  2:{ by apply Forall_fmap, Forall_forall. }
  rewrite Hlen5. rewrite length_seq.
  assert (bool_decide (0 < List.length td)%nat = true) as ->.
  { apply bool_decide_eq_true_2. destruct td; [done | simpl; lia]. }
  cbn [List.length bool_decide andb negb app].
  fold (trimmed (lane_i7 td)). fold A.
  change (map (fun x => option_map (take (min_list 0 (map len (lane_i5 td)))) (Some x)) (lane_i5 td))
    with (map (fun x => Some (take (min_list 0 (map len (lane_i5 td))) x)) (lane_i5 td)).
  rewrite <- (map_map (take (min_list 0 (map len (lane_i5 td)))) Some).
  fold (trimmed (lane_i5 td)). fold B.
  assert (bool_decide (0 < 0)%nat = false) as -> by done.
  cbn [andb negb app].
  assert (HA : List.length A = List.length td) by (unfold A, trimmed; by rewrite length_map).
  assert (HB : List.length (map Some B) = List.length td)
    by (unfold B, trimmed; by rewrite !length_map).
  assert (map (fun i => Some (at_index A i)) (seq 0 (List.length td)) = map Some A) as ->.
  { rewrite <- HA. apply (map_lookup_seq (fun o => Some (default EmptyString o)) A). }
  assert (map (fun i => default None (map Some B !! i)) (seq 0 (List.length td)) = map Some B) as ->.
  { rewrite <- HB. rewrite (map_lookup_seq (default None) (map Some B)). apply map_id. }
  fold verdict. by destruct verdict.
Qed.

Lemma zip_map_Some {A B} (xs : list A) (ys : list B) :
  zip (map Some xs) (map Some ys) = map (fun ab => (Some ab.1, Some ab.2)) (zip xs ys).
Proof.
  revert ys. induction xs as [|x xs IH]; intros [|y ys]; simpl; try done. by rewrite IH.
Qed.

Lemma pairs_of_map {A B} (f : A -> B) (l : list A) :
  pairs_of (map f l) = map (fun xy => (f xy.1, f xy.2)) (pairs_of l).
Proof.
  induction l as [|x l IH]; simpl; [done|].
  by rewrite map_app, !map_map, IH.
Qed.

(** The pairs the loops visit are the pairs of positions [i < j]. *)
Lemma pairs_of_lookup {A} (l : list A) x y :
  (x, y) ∈ pairs_of l <->
  exists i j : nat, (i < j)%nat /\ l !! i = Some x /\ l !! j = Some y.
Proof.
  induction l as [|a l IH]; simpl.
  - split; [by intros ?%elem_of_nil | by intros (i & j & _ & ? & _)].
  - rewrite elem_of_app, IH. change (map (pair a) l) with (pair a <$> l).
    rewrite list_elem_of_fmap. split.
    + intros [(y' & [= -> ->] & [j Hj]%list_elem_of_lookup) | (i & j & Hij & Hi & Hj)].
      * exists 0%nat, (S j). split; [lia|]. by split.
      * exists (S i), (S j). split; [lia|]. by split.
    + intros (i & j & Hij & Hi & Hj). destruct i as [|i]; destruct j as [|j]; try lia.
      * left. simpl in Hi, Hj. injection Hi as ->. exists y. split; [done|].
        by eapply list_elem_of_lookup_2.
      * right. exists i, j. split; [lia|]. by split.
Qed.

(** On two normalized sequences of one length the Hamming distance is
    the number of positions where they differ. *)
Lemma hamming_normalized a b :
  normalize_seq (PStr a) = Some a -> normalize_seq (PStr b) = Some b -> len a = len b ->
  hamming (Some a) (Some b) = Some (count_diff a b).
Proof.
  intros Ha Hb Hl. unfold hamming. simpl. rewrite Ha, Hb.
  by rewrite bool_decide_eq_true_2.
Qed.

Lemma effective_step_pair m (x y : string * string) :
  effective_step m ((Some x.1, Some x.2), (Some y.1, Some y.2))
  = match pair_distance x y with
    | Some d => min_update m d
    | None => m
    end.
Proof.
  unfold effective_step, pair_distance.
  destruct (hamming (Some x.1) (Some y.1)); [|done].
  by destruct (hamming (Some x.2) (Some y.2)).
Qed.

Lemma foldl_min_update m ds :
  foldl min_update m ds
  = match m, minimum ds with
    | None, o => o
    | Some a, None => Some a
    | Some a, Some b => Some (Nat.min a b)
    end.
Proof.
  revert m. induction ds as [|d ds IH]; intros m; simpl; [by destruct m|].
  rewrite IH. destruct m as [a|]; destruct (minimum ds) as [b|]; simpl; f_equal; lia.
Qed.

(** [minimum] is the least element. *)
Lemma minimum_spec ds :
  match minimum ds with
  | None => ds = []
  | Some m => m ∈ ds /\ forall d, d ∈ ds -> (m <= d)%nat
  end.
Proof.
  induction ds as [|d ds IH]; simpl; [done|].
  destruct (minimum ds) as [a|].
  - destruct IH as [Ha Hle]. split.
    + destruct (Nat.min_spec d a) as [[_ ->] | [_ ->]]; [left | by right].
    + intros x [-> | Hx%Hle]%elem_of_cons; lia.
  - subst ds. split; [left|]. intros x [-> | Hx]%elem_of_cons; [lia | by apply elem_of_nil in Hx].
Qed.

Lemma foldl_effective_step (ps : list ((string * string) * (string * string))) m :
  foldl effective_step m
        (map (fun xy => ((fun ab : string * string => (Some ab.1, Some ab.2)) xy.1,
                         (fun ab : string * string => (Some ab.1, Some ab.2)) xy.2)) ps)
  = foldl min_update m (omap (fun xy => pair_distance xy.1 xy.2) ps).
Proof.
  revert m. induction ps as [|[x y] ps IH]; intros m; [done|].
  cbn [map foldl fst snd]. rewrite (effective_step_pair m x y), IH. csimpl.
  by destruct (pair_distance x y).
Qed.

(** The loop over the pairs computes the least effective distance. *)
Lemma min_effective_refines (A B : list string) :
  _min_effective_pair_distance (map Some A) (map Some B)
  = minimum (omap (fun xy : (string * string) * (string * string) => pair_distance xy.1 xy.2)
                  (pairs_of (zip A B))).
Proof.
  unfold _min_effective_pair_distance. rewrite length_map.
  case_bool_decide as Hn.
  - destruct A as [|a [|a' A]]; simpl in Hn; try lia; [done|].
    destruct B as [|b B]; [done|]. simpl. by destruct B.
  - rewrite zip_map_Some, pairs_of_map, foldl_effective_step.
    by rewrite foldl_min_update.
Qed.

Lemma dual_pair_problems_all l td A B idxs p :
  p ∈ dual_pair_problems l td A B idxs -> level p = ERROR /\ p_lane p = Some l.
Proof.
  unfold dual_pair_problems. destruct (any _); [|by intros ?%elem_of_nil].
  intros (q & -> & _)%list_elem_of_fmap. done.
Qed.

Lemma single_i7_problems_all l td A idxs p :
  p ∈ single_i7_problems l td A idxs -> level p = ERROR /\ p_lane p = Some l.
Proof.
  unfold single_i7_problems. intros (ps & Hp & (i & -> & _)%list_elem_of_fmap)%elem_of_concat.
  case_bool_decide; [|by apply elem_of_nil in Hp].
  by apply list_elem_of_singleton in Hp as ->.
Qed.

Lemma policy_lanes l o pp mm p :
  (dual_policy l o = (pp, mm) \/ mixed_policy l o = (pp, mm) \/ single_policy l o = (pp, mm)) ->
  p ∈ pp -> p_lane p = Some l.
Proof.
  unfold dual_policy, mixed_policy, single_policy. destruct o as [d|]; simpl.
  - repeat case_bool_decide; simpl; intros [Hp | [Hp | Hp]]; injection Hp as <- <-;
      intros Hin; try (by apply elem_of_nil in Hin);
      by apply list_elem_of_singleton in Hin as ->.
  - intros [Hp | [Hp | Hp]]; injection Hp as <- <-; by intros ?%elem_of_nil.
Qed.

(** Every problem of a lane carries the lane. *)
Lemma validate_lane_p_lane l td p : p ∈ (validate_lane l td).1 -> p_lane p = Some l.
Proof.
  unfold validate_lane. destruct (any _).
  - simpl. by intros ->%list_elem_of_singleton.
  - match goal with |- context [let '(_, _) := ?c in _] => destruct c as [pp mm] eqn:Ec end.
    simpl. rewrite !elem_of_app. intros [H | [H | H]].
    + destruct (bool_decide (0 < _)%nat) in H at 1; [|by apply elem_of_nil in H].
      by apply dual_pair_problems_all in H as [_ ?].
    + match type of H with p ∈ (if ?b then _ else _) => destruct b end;
        [|by apply elem_of_nil in H].
      by apply single_i7_problems_all in H as [_ ?].
    + revert Ec. repeat match goal with |- context [if ?b then _ else _] => destruct b end;
        intros Ec; try (injection Ec as <- <-; by apply elem_of_nil in H).
      all: eapply policy_lanes; [|exact H]; eauto.
Qed.

Lemma lane_rows_lane df l : lane_rows df l ≠ [] -> l ∈ map lane df.
Proof.
  unfold lane_rows. destruct (filter _ df) as [|r td] eqn:E; [done|]. intros _.
  assert (r ∈ filter (fun r => lane r = l) df) as [Hl Hr]%list_elem_of_filter
    by (rewrite E; left).
  change (map lane df) with (lane <$> df). apply list_elem_of_fmap. by exists r.
Qed.

Lemma lane_verdict df l :
  lane_rows df l ≠ [] -> all_rows_dual (lane_rows df l) = true ->
  let td := lane_rows df l in
  let verdict := dual_policy l (min_effective_distance td) in
  (validate_indexes_per_lane df).2 !! l = Some verdict.2
  /\ (forall p, p ∈ verdict.1 -> p ∈ (validate_indexes_per_lane df).1)
  /\ (forall p, p ∈ (validate_indexes_per_lane df).1 -> p_lane p = Some l ->
                level p = ERROR \/ p ∈ verdict.1).
Proof.
  intros Hne Hdual td verdict.
  destruct (validate_indexes_per_lane_lanes df) as [Hp Hm]. cbn zeta in Hp.
  pose proof (validate_lane_all_rows_dual l _ Hne Hdual) as Hv. cbn zeta in Hv.
  rewrite min_effective_refines in Hv.
  fold (effective_distances (lane_rows df l)) in Hv.
  fold (min_effective_distance (lane_rows df l)) in Hv. fold td verdict in Hv.
  pose proof (lane_rows_lane _ _ Hne) as Hl.
  split; [|split].
  - rewrite Hm, bool_decide_eq_true_2 by done. fold td. by rewrite Hv.
  - intros p Hin. rewrite Hp. apply elem_of_concat.
    exists (validate_lane l td).1. split.
    + rewrite Hv. simpl. apply elem_of_app. by right.
    + apply list_elem_of_fmap. exists l. split; [done|]. by rewrite sort_by_elem, unique_elem.
  - intros p Hin Hlane. rewrite Hp in Hin.
    apply elem_of_concat in Hin as (ps & Hps & (l' & -> & _)%list_elem_of_fmap).
    pose proof (validate_lane_p_lane _ _ _ Hps) as Hl'.
    assert (l' = l) as -> by congruence.
    fold td in Hps. rewrite Hv in Hps. simpl in Hps.
    apply elem_of_app in Hps as [Hd | ?]; [left | by right].
    by apply dual_pair_problems_all in Hd as [? _].
Qed.

(** A lane with a row whose i7 sequence is absent: one ERROR, the
    default tolerance, and nothing else for the lane. *)
Lemma lane_i7_missing df l :
  Exists (fun r => present (i7 r) = false) (lane_rows df l) ->
  (validate_indexes_per_lane df).2 !! l = Some 1
  /\ (exists p, p ∈ (validate_indexes_per_lane df).1 /\ lane_problem ERROR "I7_MISSING" l p)
  /\ (forall p, p ∈ (validate_indexes_per_lane df).1 -> p_lane p = Some l -> level p = ERROR).
Proof.
  intros Hex.
  destruct (validate_indexes_per_lane_lanes df) as [Hp Hm]. cbn zeta in Hp.
  assert (Hne : lane_rows df l ≠ []).
  { intros E. rewrite E in Hex. by apply Exists_nil in Hex. }
  pose proof (lane_rows_lane _ _ Hne) as Hl.
  assert (Hv : exists text, validate_lane l (lane_rows df l)
                            = ([mkProblem ERROR "I7_MISSING" text (Some l) None], 1)).
  { unfold validate_lane.
    assert (any (map (fun x : option string => bool_decide (x = None))
                     (map (fun r => normalize_seq (i7 r)) (lane_rows df l))) = true) as ->.
    { rewrite map_map. apply any_map_true. eapply Exists_impl; [exact Hex|].
      intros r. cbv beta. unfold present. intros H.
      apply bool_decide_eq_true_2. by destruct (normalize_seq (i7 r)). }
    by eexists. }
  destruct Hv as [text Hv]. split; [|split].
  - by rewrite Hm, bool_decide_eq_true_2, Hv.
  - eexists. split.
    + rewrite Hp. apply elem_of_concat.
      eexists. split; [|apply list_elem_of_fmap; exists l; split; [reflexivity|]].
      * rewrite Hv. apply list_elem_of_here.
      * by rewrite sort_by_elem, unique_elem.
    + by repeat split.
  - intros p Hin Hlane. rewrite Hp in Hin.
    apply elem_of_concat in Hin as (ps & Hps & (l' & -> & _)%list_elem_of_fmap).
    pose proof (validate_lane_p_lane _ _ _ Hps) as Hl'.
    assert (l' = l) as -> by congruence.
    rewrite Hv in Hps. simpl in Hps. by apply list_elem_of_singleton in Hps as ->.
Qed.

Lemma all_rows_dual_of_present td :
  Forall (fun r => present (i5 r) = true) td ->
  Forall (fun r => present (i7 r) = true) td ->
  all_rows_dual td = true.
Proof.
  intros H5 H7. unfold all_rows_dual. apply forallb_forall. intros r Hr%list_elem_of_In.
  rewrite (proj1 (Forall_forall _ _) H5 r Hr), (proj1 (Forall_forall _ _) H7 r Hr). done.
Qed.

(** C1, as the validator does it. Take a lane with at least one row
    (so also every lane with two rows or more) in which every row has
    an i5 sequence.

    When every row has an i7 sequence too, the validator takes for
    every pair of rows the larger of the Hamming distance of the
    lane-trimmed i7 sequences and that of the lane-trimmed i5 sequences,
    and the least of these over all pairs. If the least is 1 or 2 the
    lane's tolerance is 0 and a WARN with the code of that distance is
    emitted; if it is 0, or 3 or more, or if no pair has a distance, the
    lane keeps the default tolerance 1 and no WARN is emitted for it.

    When some row has no i7 sequence, no distance is looked at: the lane
    is reported with the ERROR I7_MISSING, keeps the default tolerance 1,
    and no WARN is emitted for it. *)
Theorem C1_dual_only_lane (df : list (Row Z)) (l : Z) :
  lane_rows df l ≠ [] ->
  Forall (fun r => present (i5 r) = true) (lane_rows df l) ->
  let m := min_effective_distance (lane_rows df l) in
  let probs := (validate_indexes_per_lane df).1 in
  let lane_mm := (validate_indexes_per_lane df).2 in
  (Forall (fun r => present (i7 r) = true) (lane_rows df l) ->
   (m = Some 1%nat ->
    lane_mm !! l = Some 0
    /\ exists p, p ∈ probs /\ lane_problem WARN "DUAL_LANE_PAIR_TOO_SIMILAR_HAMMING_1" l p)
   /\ (m = Some 2%nat ->
       lane_mm !! l = Some 0
       /\ exists p, p ∈ probs /\ lane_problem WARN "DUAL_LANE_PAIR_SIMILAR_HAMMING_2" l p)
   /\ (m ≠ Some 1%nat -> m ≠ Some 2%nat ->
       lane_mm !! l = Some 1
       /\ forall p, p ∈ probs -> p_lane p = Some l -> level p ≠ WARN))
  /\ (Exists (fun r => present (i7 r) = false) (lane_rows df l) ->
      lane_mm !! l = Some 1
      /\ (exists p, p ∈ probs /\ lane_problem ERROR "I7_MISSING" l p)
      /\ forall p, p ∈ probs -> p_lane p = Some l -> level p ≠ WARN).
Proof.
  intros Hne H5 m probs lane_mm. split.
  - intros H7. pose proof (all_rows_dual_of_present _ H5 H7) as Hdual.
    destruct (lane_verdict df l Hne Hdual) as (Hmm & Hin & Hout).
    fold m in Hmm, Hin, Hout. fold probs in Hin, Hout. fold lane_mm in Hmm.
    split; [|split].
    + intros Hm. rewrite Hm in *. split; [done|].
      eexists. split; [apply Hin; left|]. by repeat split.
    + intros Hm. rewrite Hm in *. split; [done|].
      eexists. split; [apply Hin; left|]. by repeat split.
    + intros H1 H2.
      assert (Hv : dual_policy l m = ([], 1)).
      { unfold dual_policy. destruct m as [d|]; [|done].
        rewrite !bool_decide_eq_false_2; [done | |]; unfold HAMMING_WARN, HAMMING_WARN_TIGHTEN;
          congruence. }
      rewrite Hv in *. split; [done|].
      intros p Hp Hl. destruct (Hout p Hp Hl) as [-> | ?%elem_of_nil]; done.
  - intros Hex. destruct (lane_i7_missing df l Hex) as (Hmm & Hp & Hall).
    split; [exact Hmm|]. split; [exact Hp|].
    intros p Hin Hl. by rewrite (Hall p Hin Hl).
Qed.



(** ** context.py: the outcome of a run *)

Lemma any_is_error ps :
  any (map is_error ps) = true <-> Exists (fun p => level p = ERROR) ps.
Proof.
  rewrite any_map_true.
  split; intros H; (eapply Exists_impl; [exact H|]); intros p; unfold is_error;
    by destruct (level p).
Qed.

Lemma rbind_inr {A B} (x : Result A) (k : A -> Result B) (b : B) :
  x ≫= k = inr b -> exists a, x = inr a /\ k a = inr b.
Proof. destruct x as [e|a]; [done|]. intros H. by exists a. Qed.



(** ** Witnesses and counterexamples *)

Lemma C1_witness :
  lane_rows Sample.close_lane 3 ≠ []
  /\ Forall (fun r => present (i5 r) = true) (lane_rows Sample.close_lane 3)
  /\ Forall (fun r => present (i7 r) = true) (lane_rows Sample.close_lane 3)
  /\ min_effective_distance (lane_rows Sample.close_lane 3) = Some 1%nat
  /\ (validate_indexes_per_lane Sample.close_lane).2 !! 3 = Some 0.
Proof.
  assert (H1 : lane_rows Sample.close_lane 3 ≠ []) by done.
  assert (H5 : Forall (fun r => present (i5 r) = true) (lane_rows Sample.close_lane 3))
    by (repeat constructor).
  assert (H7 : Forall (fun r => present (i7 r) = true) (lane_rows Sample.close_lane 3))
    by (repeat constructor).
  assert (Hm : min_effective_distance (lane_rows Sample.close_lane 3) = Some 1%nat)
    by reflexivity.
  split; [exact H1|]. split; [exact H5|]. split; [exact H7|]. split; [exact Hm|].
  destruct (C1_dual_only_lane Sample.close_lane 3 H1 H5) as (Hdist & _).
  destruct (Hdist H7) as (Hone & _ & _).
  apply Hone. exact Hm.
Defined.

(** A lane in which every row has an i5 sequence and one row lacks the
    i7 sequence: two of its rows are one i7 character apart, and the
    lane keeps the default tolerance with the one ERROR I7_MISSING. *)
Example close_lane_missing_i7_keeps_tolerance :
  Forall (fun r => present (i5 r) = true) (lane_rows Sample.close_lane_missing_i7 3)
  /\ (validate_indexes_per_lane Sample.close_lane_missing_i7).2 !! 3 = Some 1
  /\ map (fun p => (level p, code p)) (validate_indexes_per_lane Sample.close_lane_missing_i7).1
     = [(ERROR, "I7_MISSING")].
Proof. split; [repeat constructor|]. split; reflexivity. Qed.

(** C1 as stated fails where the least effective distance is 0: the lane
    of two samples with one index pair keeps tolerance 1 and gets no
    WARN (the pair is reported as the ERROR INDEX_DUPLICATE_IN_LANE). *)
Lemma C1_counterexample :
  min_effective_distance (lane_rows Sample.same_pair_lane 3) = Some 0%nat
  /\ (0 < 3)%nat
  /\ (validate_indexes_per_lane Sample.same_pair_lane).2 !! 3 = Some 1
  /\ map (fun p => (level p, code p)) (validate_indexes_per_lane Sample.same_pair_lane).1
     = [(ERROR, "INDEX_DUPLICATE_IN_LANE")].
Proof. split; [reflexivity|]. split; [lia|]. split; reflexivity. Qed.

(** The end-to-end example of the specification: distance 4 on i7 and 3
    on i5 leave the default tolerance and no problem. *)
Example far_lane_is_quiet :
  min_effective_distance (lane_rows Sample.far_lane 1) = Some 4%nat
  /\ vs_lane_barcode_mismatches (validate_all Sample.far_lane) !! 1 = Some 1
  /\ vs_problems (validate_all Sample.far_lane) = [].
Proof. repeat split; reflexivity. Qed.

Lemma C2_witness :
  paired_rule_applies Sample.kit_row = true
  /\ resolves_to [] [] (Some Sample.kit_lookup) Sample.kit_row
       (resolved_row Sample.kit_row (Some "ACGTACGT") (Some "TTGGCCAA")) [].
Proof.
  assert (H : paired_rule_applies Sample.kit_row = true) by reflexivity.
  split; [exact H|].
  destruct (C2_paired_kit_resolution [] [] (Some Sample.kit_lookup) Sample.kit_row H)
    as (_ & _ & Hfound).
  apply (Hfound Sample.kit_lookup "ACGTACGT" "TTGGCCAA"); reflexivity.
Defined.

(** C2 as stated fails for a paired lookup that was supplied but has no
    entry: the shared ID is not one of its keys, yet the problem is
    PAIR_TABLE_NOT_PROVIDED and not PAIR_ID_NOT_FOUND. *)
Lemma C2_counterexample :
  paired_rule_applies Sample.kit_row = true
  /\ dict_get ([] : Dict (string * string)) (resolver_id (i7_id Sample.kit_row)) = None
  /\ map (fun p => (level p, code p))
         (rr_problems (resolve_indexes [Sample.kit_row] [] [] (Some [])))
     = [(ERROR, "PAIR_TABLE_NOT_PROVIDED")]
  /\ "PAIR_TABLE_NOT_PROVIDED" ≠ "PAIR_ID_NOT_FOUND".
Proof. repeat split; try reflexivity. discriminate. Qed.

Lemma C3_witness :
  paired_rule_applies Sample.single_row = false
  /\ exists r' ps,
       resolves_to [] [] None Sample.single_row r' ps
       /\ (i7 r' = PNone ->
           resolve_error Sample.single_row "I7_SEQUENCE_NOT_RESOLVED"
             I7_SEQUENCE_NOT_RESOLVED_message ∈ ps).
Proof.
  assert (H : paired_rule_applies Sample.single_row = false) by reflexivity.
  split; [exact H|].
  destruct (C3_final_requirement [] [] None Sample.single_row H) as (r' & ps & Hres & Hnone & _).
  exists r', ps. by split.
Defined.

(** C3 as stated fails for a row that rule 2 ends with an error: its i7
    sequence is still absent, and the only problem is the paired-kit
    one. *)
Lemma C3_counterexample :
  let res := resolve_indexes [Sample.kit_row] [] [] None in
  map i7 (rr_df res) = [PNone]
  /\ map (fun p => (level p, code p)) (rr_problems res) = [(ERROR, "PAIR_TABLE_NOT_PROVIDED")]
  /\ "I7_SEQUENCE_NOT_RESOLVED" ∉ map code (rr_problems res).
Proof.
  repeat split; try reflexivity.
  intros [Heq | Hin%elem_of_nil]%elem_of_cons; [discriminate | done].
Qed.

Lemma C6_witness :
  Forall (fun r => lane_cell_matches r = true) [Sample.raw (PStr "1,1,2")]
  /\ Exists (fun r => ~ NoDup (lane_tokens r)) [Sample.raw (PStr "1,1,2")]
  /\ exists e, expand_lanes [Sample.raw (PStr "1,1,2")] = inl e /\ LaneDuplicateInCell e.
Proof.
  assert (H1 : Forall (fun r => lane_cell_matches r = true) [Sample.raw (PStr "1,1,2")])
    by (repeat constructor).
  assert (H2 : Exists (fun r => ~ NoDup (lane_tokens r)) [Sample.raw (PStr "1,1,2")]).
  { constructor. intros Hnd. apply NoDup_cons in Hnd as [Hnot _]. apply Hnot. left. }
  split; [exact H1|]. split; [exact H2|].
  destruct (C6_expand_lanes [Sample.raw (PStr "1,1,2")]) as (_ & Hdup & _).
  exact (Hdup H1 H2).
Defined.

(** An empty lane cell is rejected by the first check. *)
Example empty_lane_cell :
  lane_cell_matches (Sample.raw (PStr EmptyString)) = false
  /\ expand_lanes [Sample.raw (PStr EmptyString)]
     = inl (ValueError "lane is empty/NaN at row(s): [0]").
Proof. split; reflexivity. Qed.

Lemma C7_witness :
  normalize_seq (i7 (Sample.dual 3 "S1" " acgt acgt " "ttggccaa")) = Some "ACGTACGT"
  /\ normalize_seq (i5 (Sample.dual 3 "S1" " acgt acgt " "ttggccaa")) = Some "TTGGCCAA"
  /\ resolves_to [] [] None (Sample.dual 3 "S1" " acgt acgt " "ttggccaa")
       (resolved_row (Sample.dual 3 "S1" " acgt acgt " "ttggccaa")
                     (Some "ACGTACGT") (Some "TTGGCCAA")) [].
Proof.
  split; [reflexivity|]. split; [reflexivity|].
  apply (C7_sequences_present_kept [] [] None); reflexivity.
Defined.

Lemma C10_witness :
  Sample.dual 2 "S1" "ACGTACGT" "TTGGCCAA" ∈ Sample.missing_i7_lane
  /\ is_Some ((validate_indexes_per_lane Sample.missing_i7_lane).2 !! 2).
Proof.
  assert (H : Sample.dual 2 "S1" "ACGTACGT" "TTGGCCAA" ∈ Sample.missing_i7_lane) by left.
  split; [exact H|].
  destruct (C10_every_lane_has_tolerance Sample.missing_i7_lane) as [Hdom _].
  apply Hdom. eexists. split; [exact H | reflexivity].
Defined.


(** The problems of that run, and what it leaves behind. *)
Example error_run_writes_nothing :
  exists o, run Sample.error_world Sample.ctx = inr o
            /\ map (fun p => (level p, code p)) (problems (context o))
               = [(ERROR, "I7_MISSING"); (ERROR, "I7_SEQUENCE_NOT_RESOLVED"); (ERROR, "I7_MISSING")]
            /\ exit_code o = 2 /\ output_file o = None.
Proof. eexists. split; [vm_compute; reflexivity|]. repeat split. Qed.

(** A WARN does not hold the output back: the run over two samples one
    i7 character apart ends with exit code 0 and writes both rows. *)
Example warn_run_writes_output :
  exists o, run Sample.warn_world Sample.ctx = inr o
            /\ map (fun p => (level p, code p)) (problems (context o))
               = [(WARN, "DUAL_LANE_PAIR_TOO_SIMILAR_HAMMING_1")]
            /\ exit_code o = 0
            /\ output_file o
               = Some [Sample.dual 3 "S1" "ACGTACGT" "TTGGCCAA";
                       Sample.dual 3 "S2" "ACGTACGA" "TTGGCCAA"].
Proof. eexists. split; [vm_compute; reflexivity|]. repeat split. Qed.

(** C9. The duplicate-ID failure of the paired loader lists ten IDs, and
    marks the list as cut, for a table in which eleven IDs repeat. *)
Theorem C9_paired_duplicate_lists_ten :
  load_paired_index_table "kit.csv" "Index_ID" "Index_I7" "Index_I5" Sample.doubled_pair_table
  = inl (ValueError
           ("kit.csv: duplicate Pair_ID values: "
            +:+ "['P01', 'P02', 'P03', 'P04', 'P05', 'P06', 'P07', 'P08', 'P09', 'P10']"
            +:+ "...")).
Proof. vm_compute. reflexivity. Qed.

(** The same eleven repeated IDs in a single-index table are all listed,
    with no mark. *)
Example single_duplicate_lists_all :
  load_single_index_table "kit.csv" "Index_ID" "Index_Seq" Sample.doubled_single_table
  = inl (ValueError
           ("Index table kit.csv: duplicate Index_ID(s): "
            +:+ "P01, P02, P03, P04, P05, P06, P07, P08, P09, P10, P11")).
Proof. vm_compute. reflexivity. Qed.

(** Twenty-one repeated IDs in a single-index table: twenty are listed,
    and the list is marked as cut. *)
Example single_duplicate_lists_twenty :
  load_single_index_table "kit.csv" "Index_ID" "Index_Seq" Sample.crowded_single_table
  = inl (ValueError
           ("Index table kit.csv: duplicate Index_ID(s): "
            +:+ "P01, P02, P03, P04, P05, P06, P07, P08, P09, P10, "
            +:+ "P11, P12, P13, P14, P15, P16, P17, P18, P19, P20"
            +:+ " ...")).
Proof. vm_compute. reflexivity. Qed.

(** The missing-sequence failure of the paired loader does the same. *)
Example paired_missing_lists_twenty :
  load_paired_index_table "kit.csv" "Index_ID" "Index_I7" "Index_I5" Sample.gappy_pair_table
  = inl (ValueError
           ("Paired index table kit.csv: missing Index_I7/Index_I5 for Pair_ID(s): "
            +:+ "P01, P02, P03, P04, P05, P06, P07, P08, P09, P10, "
            +:+ "P11, P12, P13, P14, P15, P16, P17, P18, P19, P20"
            +:+ " ...")).
Proof. vm_compute. reflexivity. Qed.

(** * Further properties *)

(** ** utils.py: canonical sequences and the Hamming distance *)

Lemma remove_spaces_no_space s : no_space (remove_spaces s) = true.
Proof.
  unfold no_space. induction s as [|c r IH]; simpl; [done|].
  destruct (Ascii.eqb c " ") eqn:E; [done|]. simpl. by rewrite E.
Qed.

Lemma normalize_seq_text v r :
  normalize_seq v = Some r ->
  r = remove_spaces (upper (strip (str v))) /\ (r ∉ MISSING_TOKENS).
Proof.
  unfold normalize_seq. destruct (_is_missing v); [done|].
  case_bool_decide as Hin; [done|]. by intros [= <-].
Qed.

(** X1. What [normalize_seq] returns is canonical: not empty, none of
    the missing-value tokens, without a space, without white space at
    either end, and unchanged by upper-casing. *)
Theorem X1_normalize_seq_canonical (v : PyVal) (r : string) :
  normalize_seq v = Some r ->
  r ≠ EmptyString
  /\ (r ∉ MISSING_TOKENS)
  /\ no_space r = true
  /\ strip r = r
  /\ upper r = r.
Proof.
  intros H. pose proof (normalize_seq_nonempty _ _ H) as Hne.
  apply normalize_seq_text in H as [-> Hin].
  destruct (strip_clean (str v)) as [H1 H2].
  split; [by intros E; rewrite E in Hne|]. split; [done|].
  split; [apply remove_spaces_no_space|]. split.
  - apply strip_id.
    + apply starts_clean_remove_spaces. by rewrite starts_clean_upper.
    + apply ends_clean_remove_spaces. by rewrite ends_clean_upper.
  - by rewrite <- remove_spaces_upper, upper_idem.
Qed.

Lemma X1_witness :
  normalize_seq (PStr " ac gt ") = Some "ACGT" /\ strip "ACGT" = "ACGT".
Proof.
  split; [reflexivity|].
  apply (X1_normalize_seq_canonical (PStr " ac gt ") "ACGT"). reflexivity.
Defined.

Lemma count_diff_sym a b : count_diff a b = count_diff b a.
Proof.
  revert b. induction a as [|x a IH]; intros [|y b]; simpl; try done.
  rewrite IH. destruct (Ascii.eqb x y) eqn:E.
  - apply Ascii.eqb_eq in E as ->. by rewrite Ascii.eqb_refl.
  - destruct (Ascii.eqb y x) eqn:E'; [|done].
    apply Ascii.eqb_eq in E' as ->. by rewrite Ascii.eqb_refl in E.
Qed.

Lemma count_diff_zero a b : len a = len b -> count_diff a b = 0%nat <-> a = b.
Proof.
  unfold len. revert b. induction a as [|x a IH]; intros [|y b]; simpl; try done.
  intros [= Hl]. destruct (Ascii.eqb x y) eqn:E.
  - apply Ascii.eqb_eq in E as ->. rewrite (IH b Hl). split; [by intros -> | by intros [= ->]].
  - split; [done|]. intros [= -> _]. by rewrite Ascii.eqb_refl in E.
Qed.

Lemma count_diff_le a b : (count_diff a b <= len a)%nat.
Proof.
  unfold len. revert b. induction a as [|x a IH]; intros [|y b]; simpl; try lia.
  specialize (IH b). destruct (Ascii.eqb x y); lia.
Qed.

Lemma count_diff_triangle a b c :
  len a = len b -> len b = len c ->
  (count_diff a c <= count_diff a b + count_diff b c)%nat.
Proof.
  unfold len. revert b c. induction a as [|x a IH]; intros [|y b] [|z c]; simpl; try done; try lia.
  intros [= H1] [= H2]. specialize (IH b c H1 H2).
  destruct (Ascii.eqb x z) eqn:Exz; destruct (Ascii.eqb x y) eqn:Exy;
    destruct (Ascii.eqb y z) eqn:Eyz; try lia.
  apply Ascii.eqb_eq in Exy as ->. apply Ascii.eqb_eq in Eyz as ->.
  by rewrite Ascii.eqb_refl in Exz.
Qed.

(** [hamming] in terms of the normalized sequences. *)
Lemma hamming_Some a b d :
  hamming a b = Some d <->
  exists a' b', normalize_seq (cell a) = Some a' /\ normalize_seq (cell b) = Some b'
                /\ len a' = len b' /\ d = count_diff a' b'.
Proof.
  unfold hamming. destruct (normalize_seq (cell a)) as [a'|]; [|split; [done|]].
  - destruct (normalize_seq (cell b)) as [b'|]; [|split; [done|]].
    + case_bool_decide as Hl.
      * split; [intros [= <-]; by exists a', b' |].
        by intros (? & ? & [= <-] & [= <-] & _ & ->).
      * split; [done|]. by intros (? & ? & [= <-] & [= <-] & ? & _).
    + by intros (? & ? & _ & ? & _).
  - by intros (? & ? & ? & _).
Qed.

Lemma hamming_sym (a b : option string) : hamming a b = hamming b a.
Proof.
  unfold hamming. destruct (normalize_seq (cell a)) as [a'|];
    destruct (normalize_seq (cell b)) as [b'|]; try done.
  rewrite count_diff_sym.
  destruct (decide (len a' = len b')) as [Hl|Hl].
  - by rewrite !bool_decide_eq_true_2.
  - rewrite !bool_decide_eq_false_2; [done | | done]. by intros ?.
Qed.

(** X2. Where it is defined, the Hamming distance is a metric on the
    normalized sequences: it does not depend on the order of its
    arguments; it is 0 exactly for two values that normalize to the same
    sequence; it never exceeds the length of the normalized sequences;
    and it obeys the triangle inequality. It is defined exactly for two
    present values whose normalized sequences have the same length. *)
Theorem X2_hamming_metric (a b c : option string) :
  hamming a b = hamming b a
  /\ (hamming a b = Some 0%nat <->
      exists s, normalize_seq (cell a) = Some s /\ normalize_seq (cell b) = Some s)
  /\ (is_Some (hamming a b) <->
      exists a' b', normalize_seq (cell a) = Some a' /\ normalize_seq (cell b) = Some b'
                    /\ len a' = len b')
  /\ (forall d a', hamming a b = Some d -> normalize_seq (cell a) = Some a' ->
                   (d <= len a')%nat)
  /\ (forall dab dbc dac,
        hamming a b = Some dab -> hamming b c = Some dbc -> hamming a c = Some dac ->
        (dac <= dab + dbc)%nat).
Proof.
  split; [apply hamming_sym|]. split; [|split; [|split]].
  - rewrite hamming_Some. split.
    + intros (a' & b' & Ha & Hb & Hl & Hd). exists a'. split; [done|].
      symmetry in Hd. apply (count_diff_zero _ _ Hl) in Hd. by subst.
    + intros (s & Ha & Hb). exists s, s. repeat split; try done.
      symmetry. by apply count_diff_zero.
  - split.
    + intros [d (a' & b' & Ha & Hb & Hl & _)%hamming_Some]. by exists a', b'.
    + intros (a' & b' & Ha & Hb & Hl). exists (count_diff a' b').
      apply hamming_Some. by exists a', b'.
  - intros d a' (a'' & b' & Ha & Hb & Hl & ->)%hamming_Some Ha'.
    assert (a'' = a') as -> by congruence. apply count_diff_le.
  - intros dab dbc dac
           (a1 & b1 & Ha1 & Hb1 & Hl1 & ->)%hamming_Some
           (b2 & c2 & Hb2 & Hc2 & Hl2 & ->)%hamming_Some
           (a3 & c3 & Ha3 & Hc3 & Hl3 & ->)%hamming_Some.
    assert (b2 = b1) as -> by congruence. assert (a3 = a1) as -> by congruence.
    assert (c3 = c2) as -> by congruence. by apply count_diff_triangle.
Qed.

Lemma X2_witness :
  hamming (Some "acgt") (Some "ACGA") = Some 1%nat
  /\ hamming (Some "ACGA") (Some "ACTA") = Some 1%nat
  /\ hamming (Some "acgt") (Some "ACTA") = Some 2%nat
  /\ (2 <= 1 + 1)%nat.
Proof.
  split; [reflexivity|]. split; [reflexivity|]. split; [reflexivity|].
  destruct (X2_hamming_metric (Some "acgt") (Some "ACGA") (Some "ACTA"))
    as (_ & _ & _ & _ & Htri).
  apply (Htri 1 1 2)%nat; reflexivity.
Defined.


(** ** indexes.py: what a loaded table and its lookup guarantee *)

Lemma filter_eq_length_cons `{EqDecision A} (x a : A) (l : list A) :
  List.length (filter (fun y => y = x) (a :: l))
  = ((if decide (a = x) then 1 else 0) + List.length (filter (fun y => y = x) l))%nat.
Proof. rewrite filter_cons. by destruct (decide (a = x)). Qed.

Lemma filter_eq_nil `{EqDecision A} (x : A) (l : list A) :
  List.length (filter (fun y => y = x) l) = 0%nat <-> x ∉ l.
Proof.
  induction l as [|a l IH]; [split; [intros _ ?%elem_of_nil; done | done]|].
  rewrite filter_eq_length_cons, not_elem_of_cons.
  destruct (decide (a = x)) as [->|Hne]; [split; [lia | by intros [? _]]|].
  simpl. rewrite IH. split; [intros ?; split; [congruence | done] | by intros [_ ?]].
Qed.

Lemma count_le_one_NoDup `{EqDecision A} (l : list A) :
  Forall (fun x => (List.length (filter (fun y => y = x) l) <= 1)%nat) l <-> NoDup l.
Proof.
  induction l as [|a l IH].
  - split; [constructor | constructor].
  - rewrite Forall_cons, NoDup_cons, <- IH, filter_eq_length_cons, decide_True by done.
    split.
    + intros [Ha Hl]. assert (a ∉ l) as Hnot by (apply filter_eq_nil; lia).
      split; [done|]. eapply Forall_impl; [exact Hl|]. intros x Hx.
      cbv beta in Hx. rewrite filter_eq_length_cons in Hx. lia.
    + intros [Ha Hl]. apply filter_eq_nil in Ha as Ha0. split; [lia|].
      apply Forall_forall. intros x Hx. cbv beta. rewrite filter_eq_length_cons.
      destruct (decide (a = x)) as [->|_]; [done|].
      by apply (proj1 (Forall_forall _ _) Hl).
Qed.

Lemma duplicated_all_none `{EqDecision A} (l : list A) :
  any (duplicated_all l) = false <-> NoDup l.
Proof.
  unfold duplicated_all. rewrite any_map_false, <- count_le_one_NoDup.
  split; intros H; (eapply Forall_impl; [exact H|]); intros x Hx; simpl in *.
  - apply bool_decide_eq_false in Hx. lia.
  - apply bool_decide_eq_false_2. lia.
Qed.

Lemma duplicated_from_none `{EqDecision A} (seen l : list A) :
  existsb id (duplicated_from seen l) = false <-> NoDup l /\ forall x, x ∈ l -> x ∉ seen.
Proof.
  revert seen. induction l as [|a l IH]; intros seen.
  - simpl. split; [intros _; split; [constructor | by intros ? ?%elem_of_nil] | done].
  - change (existsb id (duplicated_from seen (a :: l)))
      with (bool_decide (a ∈ seen) || existsb id (duplicated_from (a :: seen) l)).
    rewrite orb_false_iff, IH, NoDup_cons, bool_decide_eq_false.
    split.
    + intros (Ha & Hnd & Hseen). split; [split; [|done]|].
      * intros Hin. apply (Hseen a Hin). left.
      * intros x [-> | Hx]%elem_of_cons; [done|].
        intros Hs. apply (Hseen x Hx). by right.
    + intros ([Ha Hnd] & Hseen). split; [apply Hseen; left|]. split; [done|].
      intros x Hx [-> | Hs]%elem_of_cons; [done|]. apply (Hseen x); [by right | done].
Qed.

Lemma duplicated_none `{EqDecision A} (l : list A) :
  any (duplicated l) = false <-> NoDup l.
Proof.
  unfold any, duplicated. rewrite duplicated_from_none. split; [by intros [? _]|].
  intros H. split; [done|]. by intros x _ ?%elem_of_nil.
Qed.

Lemma elem_of_zip {A B} (xs : list A) (ys : list B) x y :
  (x, y) ∈ zip xs ys -> x ∈ xs /\ y ∈ ys.
Proof.
  revert ys. induction xs as [|a xs IH]; intros [|b ys]; simpl;
    try (by intros ?%elem_of_nil).
  intros [[= -> ->] | Hin]%elem_of_cons; [split; left|].
  destruct (IH _ Hin). split; by right.
Qed.

Lemma strip_nonempty_kept x : (0 < len (strip (str x)))%nat -> kept_id (strip (str x)).
Proof.
  intros H. split; [|apply strip_idem]. intros E. rewrite E in H. simpl in H. lia.
Qed.

Lemma normalize_seq_canonical y s : normalize_seq y = Some s -> canonical s.
Proof. apply normalize_seq_fixed. Qed.

Lemma single_table_loaded (path id_col seq_col : string) (df : DataFrame)
    (out : list (string * option string)) :
  load_single_index_table path id_col seq_col df = inr out ->
  Forall (fun r => kept_id r.1 /\ exists s, r.2 = Some s /\ canonical s) out
  /\ NoDup out.*1
  /\ NoDup out.*2.
Proof.
  unfold load_single_index_table.
  destruct (column df id_col) as [ids|]; [|done].
  destruct (column df seq_col) as [seqs|]; [|done].
  set (tab := filter (fun r : string * option string => (0 < len r.1)%nat)
                     (zip (map (fun x => strip (str x)) ids) (map normalize_seq seqs))).
  destruct (any (map (fun r : string * option string => bool_decide (r.2 = None)) tab)) eqn:Hbad;
    [done|].
  destruct (any (duplicated_all (map fst tab))) eqn:Hdi; [done|].
  destruct (any (duplicated_all (map snd tab))) eqn:Hds; [done|].
  intros [= <-]. split; [|split].
  - apply any_map_false in Hbad. apply Forall_forall. intros [k o] Hin.
    pose proof (proj1 (Forall_forall _ _) Hbad _ Hin) as Ho. simpl in Ho.
    apply bool_decide_eq_false in Ho.
    apply list_elem_of_filter in Hin as [Hlen Hin]. simpl in Hlen.
    apply elem_of_zip in Hin as [Hk Ho'].
    apply list_elem_of_fmap in Hk as (x & -> & _).
    apply list_elem_of_fmap in Ho' as (y & Hy & _).
    split; [by apply strip_nonempty_kept|].
    destruct o as [s|]; [|done]. exists s. split; [done|].
    symmetry in Hy. by eapply normalize_seq_canonical.
  - by apply duplicated_all_none in Hdi.
  - by apply duplicated_all_none in Hds.
Qed.

Lemma paired_table_loaded (path pair_id_col i7_col i5_col : string) (df : DataFrame)
    (out : list (string * (option string * option string))) :
  load_paired_index_table path pair_id_col i7_col i5_col df = inr out ->
  Forall (fun r => kept_id r.1
                   /\ exists s7 s5, r.2 = (Some s7, Some s5) /\ canonical s7 /\ canonical s5) out
  /\ NoDup out.*1.
Proof.
  unfold load_paired_index_table.
  destruct (column df pair_id_col) as [ids|]; [|done].
  destruct (column df i7_col) as [c7|]; [|done].
  destruct (column df i5_col) as [c5|]; [|done].
  set (tab := filter (fun r : string * (option string * option string) => (0 < len r.1)%nat)
                     (zip (map (fun x => strip (str x)) ids)
                          (zip (map normalize_seq c7) (map normalize_seq c5)))).
  destruct (any (map (fun r : string * (option string * option string) =>
                        bool_decide (r.2.1 = None) || bool_decide (r.2.2 = None)) tab)) eqn:Hbad;
    [done|].
  destruct (any (duplicated (map fst tab))) eqn:Hdi; [done|].
  intros [= <-]. split.
  - apply any_map_false in Hbad. apply Forall_forall. intros [k [o7 o5]] Hin.
    pose proof (proj1 (Forall_forall _ _) Hbad _ Hin) as Ho. simpl in Ho.
    apply orb_false_iff in Ho as [H7%bool_decide_eq_false H5%bool_decide_eq_false].
    apply list_elem_of_filter in Hin as [Hlen Hin]. simpl in Hlen.
    apply elem_of_zip in Hin as [Hk Ho'].
    apply elem_of_zip in Ho' as [Ho7 Ho5].
    apply list_elem_of_fmap in Hk as (x & -> & _).
    apply list_elem_of_fmap in Ho7 as (y7 & Hy7 & _).
    apply list_elem_of_fmap in Ho5 as (y5 & Hy5 & _).
    split; [by apply strip_nonempty_kept|].
    destruct o7 as [s7|]; [|done]. destruct o5 as [s5|]; [|done].
    exists s7, s5. symmetry in Hy7, Hy5.
    split; [done|]. split; by eapply normalize_seq_canonical.
  - by apply duplicated_none in Hdi.
Qed.

(** A dictionary built from rows with distinct keys holds exactly these
    rows, in their order. *)
Lemma dict_set_fresh {V} (d : Dict V) k v : k ∉ d.*1 -> dict_set d k v = (d ++ [(k, v)])%list.
Proof.
  induction d as [|[k0 v0] r IH]; csimpl; [done|].
  intros [Hne Hr]%not_elem_of_cons.
  destruct (decide (k0 = k)) as [->|_]; [done|]. by rewrite IH.
Qed.

Lemma dict_of_list_from {V} (kvs acc : list (string * V)) :
  NoDup ((acc ++ kvs)%list).*1 ->
  foldl (fun d kv => dict_set d kv.1 kv.2) acc kvs = (acc ++ kvs)%list.
Proof.
  revert acc. induction kvs as [|[k v] r IH]; intros acc Hnd; simpl.
  - by rewrite app_nil_r.
  - rewrite dict_set_fresh.
    + rewrite IH; rewrite <- app_assoc; done.
    + rewrite fmap_app in Hnd. apply NoDup_app in Hnd as (_ & Hd & _).
      intros Hin. apply (Hd k Hin). left.
Qed.

Lemma dict_of_list_NoDup {V} (kvs : list (string * V)) :
  NoDup kvs.*1 -> dict_of_list kvs = kvs.
Proof. intros H. unfold dict_of_list. by rewrite dict_of_list_from. Qed.

Lemma fmap_fst_map {A B C} (f : A * B -> C) (l : list (A * B)) :
  (map (fun r => (r.1, f r)) l).*1 = l.*1.
Proof. induction l as [|x l IH]; csimpl; [done|]. by rewrite <- IH. Qed.

Lemma single_lookup_loaded (path id_col seq_col : string) (df : DataFrame)
    (out : list (string * option string)) :
  load_single_index_table path id_col seq_col df = inr out ->
  let d := build_single_lookup out in
  d.*1 = out.*1
  /\ dict_wf d
  /\ (forall k s, dict_get d k = Some s <-> (k, Some s) ∈ out)
  /\ (forall k s, dict_get d k = Some s -> kept_id k /\ canonical s)
  /\ (forall k1 k2 s, dict_get d k1 = Some s -> dict_get d k2 = Some s -> k1 = k2).
Proof.
  intros Hload d.
  assert (Forall (fun r => kept_id r.1 /\ exists s, r.2 = Some s /\ canonical s) out
          /\ NoDup out.*1 /\ NoDup out.*2) as (Hall & Hids & Hseqs).
  { by eapply single_table_loaded. }
  assert (d = map (fun r => (r.1, default EmptyString r.2)) out) as Hd.
  { unfold d, build_single_lookup. apply dict_of_list_NoDup. by rewrite fmap_fst_map. }
  assert (d.*1 = out.*1) as Hkeys by (rewrite Hd; apply fmap_fst_map).
  assert (dict_wf d) as Hwf by (unfold dict_wf; by rewrite Hkeys).
  assert (forall k s, dict_get d k = Some s <-> (k, Some s) ∈ out) as Hget.
  { intros k s. split.
    - intros Hin%dict_get_elem. rewrite Hd in Hin.
      apply list_elem_of_fmap in Hin as ([k' o] & [= -> ->] & Hin).
      pose proof (proj1 (Forall_forall _ _) Hall _ Hin) as (_ & s' & Ho & _).
      simpl in *. by subst o.
    - intros Hin. apply elem_dict_get; [done|]. rewrite Hd.
      apply list_elem_of_fmap. by exists (k, Some s). }
  split; [done|]. split; [done|]. split; [done|]. split.
  - intros k s Hk%Hget.
    pose proof (proj1 (Forall_forall _ _) Hall _ Hk) as (Hid & s' & Ho & Hc).
    simpl in *. by simplify_eq.
  - intros k1 k2 s H1%Hget H2%Hget.
    apply list_elem_of_lookup in H1 as [i Hi]. apply list_elem_of_lookup in H2 as [j Hj].
    assert (i = j) as ->.
    { apply (NoDup_lookup _ _ _ (Some s) Hseqs); rewrite list_lookup_fmap.
      - by rewrite Hi. - by rewrite Hj. }
    congruence.
Qed.

Lemma pair_lookup_loaded (path pair_id_col i7_col i5_col : string)
    (df : DataFrame) (out : list (string * (option string * option string))) :
  load_paired_index_table path pair_id_col i7_col i5_col df = inr out ->
  let d := build_pair_lookup out in
  d.*1 = out.*1
  /\ dict_wf d
  /\ (forall k s7 s5, dict_get d k = Some (s7, s5) <-> (k, (Some s7, Some s5)) ∈ out)
  /\ (forall k s7 s5, dict_get d k = Some (s7, s5) ->
        kept_id k /\ canonical s7 /\ canonical s5).
Proof.
  intros Hload d.
  assert (Forall (fun r => kept_id r.1
                   /\ exists s7 s5, r.2 = (Some s7, Some s5) /\ canonical s7 /\ canonical s5) out
          /\ NoDup out.*1) as (Hall & Hids).
  { by eapply paired_table_loaded. }
  assert (d = map (fun r => (r.1, (default EmptyString r.2.1, default EmptyString r.2.2))) out)
    as Hd.
  { unfold d, build_pair_lookup. apply dict_of_list_NoDup.
    by rewrite (fmap_fst_map (fun r => (default EmptyString r.2.1, default EmptyString r.2.2))). }
  assert (d.*1 = out.*1) as Hkeys.
  { rewrite Hd.
    apply (fmap_fst_map (fun r => (default EmptyString r.2.1, default EmptyString r.2.2))). }
  assert (dict_wf d) as Hwf by (unfold dict_wf; by rewrite Hkeys).
  assert (forall k s7 s5, dict_get d k = Some (s7, s5) <-> (k, (Some s7, Some s5)) ∈ out)
    as Hget.
  { intros k s7 s5. split.
    - intros Hin%dict_get_elem. rewrite Hd in Hin.
      apply list_elem_of_fmap in Hin as ([k' [o7 o5]] & Heq & Hin).
      pose proof (proj1 (Forall_forall _ _) Hall _ Hin) as (_ & t7 & t5 & Ho & _).
      simpl in *. by simplify_eq.
    - intros Hin. apply elem_dict_get; [done|]. rewrite Hd.
      apply list_elem_of_fmap. by exists (k, (Some s7, Some s5)). }
  split; [done|]. split; [done|]. split; [done|].
  intros k s7 s5 Hk%Hget.
  pose proof (proj1 (Forall_forall _ _) Hall _ Hk) as (Hid & t7 & t5 & Ho & Hc7 & Hc5).
  simpl in *. by simplify_eq.
Qed.

(** X3. The lookup built from a single-index table that loaded: its
    keys are the table's IDs, each once and in table order; an ID maps
    to a sequence exactly when the table has that row; every sequence is
    canonical; and no two IDs share a sequence. *)
Theorem X3_single_lookup_of_loaded_table (path id_col seq_col : string) (df : DataFrame)
    (out : list (string * option string)) :
  load_single_index_table path id_col seq_col df = inr out ->
  let d := build_single_lookup out in
  d.*1 = out.*1
  /\ dict_wf d
  /\ (forall k s, dict_get d k = Some s <-> (k, Some s) ∈ out)
  /\ (forall k s, dict_get d k = Some s -> kept_id k /\ canonical s)
  /\ (forall k1 k2 s, dict_get d k1 = Some s -> dict_get d k2 = Some s -> k1 = k2).
Proof. apply single_lookup_loaded. Qed.

(** X4. The lookup built from a paired-index table that loaded: its
    keys are the table's IDs, each once and in table order; an ID maps
    to a pair of sequences exactly when the table has that row; and both
    sequences of every entry are canonical. *)
Theorem X4_pair_lookup_of_loaded_table (path pair_id_col i7_col i5_col : string)
    (df : DataFrame) (out : list (string * (option string * option string))) :
  load_paired_index_table path pair_id_col i7_col i5_col df = inr out ->
  let d := build_pair_lookup out in
  d.*1 = out.*1
  /\ dict_wf d
  /\ (forall k s7 s5, dict_get d k = Some (s7, s5) <-> (k, (Some s7, Some s5)) ∈ out)
  /\ (forall k s7 s5, dict_get d k = Some (s7, s5) ->
        kept_id k /\ canonical s7 /\ canonical s5).
Proof. apply pair_lookup_loaded. Qed.

(** ** indexes.py: merging in stages *)

Section MergeStages.
Context {V : Type} `{EqDecision V}.
Variable msg : string -> V -> V -> string.

Lemma merge_items_fresh (items acc : Dict V) :
  NoDup ((acc ++ items)%list).*1 -> merge_items msg acc items = inr (acc ++ items)%list.
Proof.
  revert acc. induction items as [|[k v] r IH]; intros acc Hnd; simpl.
  - by rewrite app_nil_r.
  - assert (k ∉ acc.*1) as Hk.
    { rewrite fmap_app in Hnd. apply NoDup_app in Hnd as (_ & Hd & _).
      intros Hin. apply (Hd k Hin). left. }
    destruct (dict_get acc k) as [old|] eqn:E.
    { apply dict_get_elem in E. destruct Hk. apply list_elem_of_fmap. by exists (k, old). }
    rewrite dict_set_fresh by done.
    rewrite IH; rewrite <- app_assoc; done.
Qed.

Lemma merge_from_app (ls1 ls2 : list (Dict V)) acc :
  merge_from msg acc (ls1 ++ ls2)
  = match merge_from msg acc ls1 with
    | inl e => inl e
    | inr m => merge_from msg m ls2
    end.
Proof.
  revert acc. induction ls1 as [|lk r IH]; intros acc; simpl; [done|].
  destruct (merge_items msg acc lk); [done|]. apply IH.
Qed.

Lemma merge_from_stages (ls1 ls2 : list (Dict V)) :
  merge_from msg [] (ls1 ++ ls2)
  = match merge_from msg [] ls1 with
    | inl e => inl e
    | inr m => merge_from msg [] (m :: ls2)
    end.
Proof.
  rewrite merge_from_app. destruct (merge_from msg [] ls1) as [e|m] eqn:E; [done|].
  simpl. rewrite merge_items_fresh; [done|].
  apply (merge_from_inr msg) in E as [Hwf _]. apply Hwf. constructor.
Qed.

End MergeStages.

(** X5. Merging in stages: a merged lookup can stand for its sources
    in a later merge. Merging [ls1 ++ ls2] raises what merging [ls1]
    raises, and otherwise gives what merging the result for [ls1]
    together with [ls2] gives, for single-index and for paired
    lookups. *)
Theorem X5_merge_in_stages :
  (forall ls1 ls2 : list (Dict string),
     merge_single_lookups (ls1 ++ ls2)
     = match merge_single_lookups ls1 with
       | inl e => inl e
       | inr m => merge_single_lookups (m :: ls2)
       end)
  /\ (forall ls1 ls2 : list (Dict (string * string)),
        merge_pair_lookups (ls1 ++ ls2)
        = match merge_pair_lookups ls1 with
          | inl e => inl e
          | inr m => merge_pair_lookups (m :: ls2)
          end).
Proof. split; intros; apply merge_from_stages. Qed.

Lemma X3_witness :
  load_single_index_table "i7.csv" "Name" "Sequence" Kits.nextera = inr Kits.nextera_rows
  /\ (build_single_lookup Kits.nextera_rows).*1 = Kits.nextera_rows.*1.
Proof.
  split; [reflexivity|].
  apply (X3_single_lookup_of_loaded_table "i7.csv" "Name" "Sequence" Kits.nextera).
  reflexivity.
Defined.

Lemma X4_witness :
  load_paired_index_table "kit.csv" "Index_ID" "Index_I7" "Index_I5" Kits.tenx
  = inr Kits.tenx_rows
  /\ (build_pair_lookup Kits.tenx_rows).*1 = Kits.tenx_rows.*1.
Proof.
  split; [reflexivity|].
  apply (X4_pair_lookup_of_loaded_table "kit.csv" "Index_ID" "Index_I7" "Index_I5" Kits.tenx).
  reflexivity.
Defined.


(** ** io_normalize.py *)

Lemma filter_nil_Forall {A} (P : A -> Prop) `{forall x, Decision (P x)} (l : list A) :
  filter P l = [] <-> Forall (fun x => ~ P x) l.
Proof.
  induction l as [|x l IH]; [split; [constructor | done]|].
  rewrite filter_cons, Forall_cons. destruct (decide (P x)) as [Hp|Hp].
  - split; [done | by intros [? _]].
  - rewrite IH. split; [done | by intros [_ ?]].
Qed.

(** X6. The schema check passes exactly when every canonical column is
    among the columns of the table, whatever their order and whatever
    further columns there are; otherwise it raises a ValueError. *)
Theorem X6_check_required_columns (cols : list string) :
  (check_required_columns cols = inr tt
   <-> Forall (fun c => c ∈ cols) REQUIRED_CANONICAL_COLS)
  /\ ((exists msg, check_required_columns cols = inl (ValueError msg))
      <-> Exists (fun c => c ∉ cols) REQUIRED_CANONICAL_COLS).
Proof.
  assert (check_required_columns cols = inr tt
          <-> Forall (fun c => c ∈ cols) REQUIRED_CANONICAL_COLS) as Hok.
  { unfold check_required_columns.
    destruct (bool_decide _) eqn:E.
    - apply bool_decide_eq_true in E. split; [intros _|done].
      apply filter_nil_Forall in E.
      apply Forall_forall. intros c Hc.
      pose proof (proj1 (Forall_forall _ _) E c (proj2 (unique_elem _ _) Hc)) as Hn.
      destruct (decide (c ∈ cols)); [done | by destruct Hn].
    - apply bool_decide_eq_false in E. split; [done|]. intros Hall. destruct E.
      apply filter_nil_Forall. apply Forall_forall. intros c Hc%unique_elem Hn.
      apply Hn. by apply (proj1 (Forall_forall _ _) Hall). }
  split; [done|].
  assert (Exists (fun c => c ∉ cols) REQUIRED_CANONICAL_COLS
          <-> ~ Forall (fun c => c ∈ cols) REQUIRED_CANONICAL_COLS) as ->.
  { split; [apply Exists_not_Forall | apply not_Forall_Exists; intros c; apply _]. }
  rewrite <- Hok.
  unfold check_required_columns. destruct (bool_decide _).
  - split; [by intros [? ?] | by intros []].
  - split; [done | intros _; by eexists].
Qed.

Lemma lower_nil_iff s : lower s = EmptyString <-> s = EmptyString.
Proof. destruct s; [done|]. split; discriminate. Qed.

Lemma norm_id_str v : _norm_id (PStr v) = if bool_decide (lower (strip v) = "nan") then EmptyString else strip v.
Proof. done. Qed.

Lemma norm_id_fixed x :
  strip (_norm_id x) = _norm_id x /\ lower (_norm_id x) ≠ "nan".
Proof.
  unfold _norm_id. destruct (isna x); [done|].
  case_bool_decide as E; [done|]. split; [apply strip_idem | done].
Qed.

Lemma norm_id_idem x : _norm_id (PStr (_norm_id x)) = _norm_id x.
Proof.
  destruct (norm_id_fixed x) as [Hs Hn]. rewrite norm_id_str, Hs.
  by rewrite bool_decide_eq_false_2.
Qed.

Lemma norm_id_resolver x : resolver_id (PStr (_norm_id x)) = _norm_id x.
Proof.
  destruct (norm_id_fixed x) as [Hs Hn]. unfold resolver_id, blank_id. simpl str. rewrite Hs.
  rewrite (bool_decide_eq_false_2 _ Hn), orb_false_r.
  by destruct (_norm_id x).
Qed.

(** X7. The ID normalizer is idempotent, its result is stripped and
    never reads as nan, null input gives the empty string, and the
    resolver reads a normalized ID as it stands. *)
Theorem X7_norm_id (x : PyVal) :
  _norm_id (PStr (_norm_id x)) = _norm_id x
  /\ strip (_norm_id x) = _norm_id x
  /\ lower (_norm_id x) ≠ "nan"
  /\ (isna x = true -> _norm_id x = EmptyString)
  /\ resolver_id (PStr (_norm_id x)) = _norm_id x.
Proof.
  destruct (norm_id_fixed x) as [Hs Hn].
  split; [apply norm_id_idem|]. split; [done|]. split; [done|].
  split; [|apply norm_id_resolver].
  unfold _norm_id. by intros ->.
Qed.

Lemma normalize_minimal_inr cols df df' :
  normalize_minimal cols df = inr df' -> df' = map normalized_row df.
Proof.
  unfold normalize_minimal. destruct (check_required_columns cols); [done|]. by intros [= <-].
Qed.

Lemma normalized_row_idem r : normalized_row (normalized_row r) = normalized_row r.
Proof.
  unfold normalized_row. simpl.
  by rewrite !strip_idem, !norm_id_idem, !normalize_seq_cell.
Qed.

Lemma resolve_prepare_normalized r : resolve_prepare (normalized_row r) = normalized_row r.
Proof.
  unfold resolve_prepare, normalized_row. simpl.
  destruct (norm_id_fixed (i7_id r)) as [-> _]. destruct (norm_id_fixed (i5_id r)) as [-> _].
  by rewrite !normalize_seq_cell.
Qed.

(** X8. Minimal normalization is idempotent, keeps the rows in number
    and order with their lanes and further cells, and leaves a table on
    which the first pass of the resolver changes nothing. *)
Theorem X8_normalize_minimal (cols : list string) (df df' : list (Row Z)) :
  normalize_minimal cols df = inr df' ->
  normalize_minimal cols df' = inr df'
  /\ map lane df' = map lane df
  /\ map extra df' = map extra df
  /\ map resolve_prepare df' = df'.
Proof.
  intros H. pose proof (normalize_minimal_inr _ _ _ H) as ->.
  split; [|split; [|split]].
  - revert H. unfold normalize_minimal. destruct (check_required_columns cols); [done|].
    intros _. f_equal. rewrite map_map. apply map_ext. intros r. apply normalized_row_idem.
  - rewrite map_map. by apply map_ext.
  - rewrite map_map. by apply map_ext.
  - rewrite map_map. apply map_ext. intros r. apply resolve_prepare_normalized.
Qed.

(** *** Lane expansion *)

Lemma expand_lanes_well df :
  Forall (fun r => lane_cell_matches r = true) df ->
  Forall (fun r => NoDup (lane_tokens r)) df ->
  expand_lanes df = inr (expanded df).
Proof.
  intros Hm Hnd. destruct (expand_lanes_masks df) as (He & Hf & Hd).
  open_expand df. rewrite He, Hf, Hd.
  assert (any (map lane_cell_empty df) = false) as ->.
  { apply any_map_false. eapply Forall_impl; [exact Hm|].
    intros r. apply lane_cell_matches_not_empty. }
  assert (any (map (fun r => negb (lane_cell_matches r)) df) = false) as ->.
  { apply any_map_false. eapply Forall_impl; [exact Hm|]. by intros r ->. }
  rewrite explode_expanded.
  - assert (any (map (fun r => bool_decide (~ NoDup (lane_tokens r))) df) = false) as ->; [|done].
    apply any_map_false. eapply Forall_impl; [exact Hnd|].
    intros r Hr. apply bool_decide_eq_false_2. by intros ?.
  - eapply Forall_impl; [exact Hm|].
    intros r Hr. eapply Forall_impl; [by apply lane_cell_tokens|].
    intros t (z & -> & _). by eexists.
Qed.

Lemma expand_lanes_inr df out :
  expand_lanes df = inr out ->
  Forall (fun r => lane_cell_matches r = true) df
  /\ Forall (fun r => NoDup (lane_tokens r)) df
  /\ out = expanded df.
Proof.
  destruct (expand_lanes_masks df) as (He & Hf & Hd).
  open_expand df. rewrite He, Hf, Hd.
  destruct (any (map lane_cell_empty df)); [done|].
  destruct (any (map (fun r => negb (lane_cell_matches r)) df)) eqn:Hbad; [done|].
  assert (Forall (fun r => lane_cell_matches r = true) df) as Hm.
  { apply any_map_false in Hbad. eapply Forall_impl; [exact Hbad|].
    intros r Hr. by apply negb_false_iff in Hr. }
  rewrite explode_expanded.
  2:{ eapply Forall_impl; [exact Hm|].
      intros r Hr. eapply Forall_impl; [by apply lane_cell_tokens|].
      intros t (z & -> & _). by eexists. }
  destruct (any (map (fun r => bool_decide (~ NoDup (lane_tokens r))) df)) eqn:Hdup; [done|].
  intros [= <-]. split; [done|]. split; [|done].
  apply any_map_false in Hdup. eapply Forall_impl; [exact Hdup|].
  intros r Hr. apply bool_decide_eq_false in Hr.
  destruct (decide (NoDup (lane_tokens r))); [done | by destruct Hr].
Qed.

Lemma lane_numbers_range r :
  lane_cell_matches r = true ->
  lane_numbers r ≠ [] /\ Forall (fun l => 1 <= l <= 8) (lane_numbers r).
Proof.
  intros Hr. pose proof (lane_cell_tokens r Hr) as Ht.
  assert (lane_tokens r ≠ []) as Hne.
  { revert Hr. unfold lane_cell_matches, lane_tokens, lane_text. rewrite match_anchored_strip.
    by intros (d & ds & _ & ->)%lane_pattern_tokens. }
  unfold lane_numbers. split.
  - destruct (lane_tokens r) as [|t ts]; [done|].
    apply Forall_cons in Ht as [(z & Hz & _) _]. csimpl. by rewrite Hz.
  - clear Hne. induction Ht as [|t ts (z & Hz & Hb) _ IH]; csimpl; [constructor|].
    rewrite Hz. by constructor.
Qed.


Lemma expanded_rows df r' :
  r' ∈ expanded df <-> exists r l, r ∈ df /\ l ∈ lane_numbers r /\ r' = with_lane r l.
Proof.
  unfold expanded. rewrite elem_of_concat. split.
  - intros (l & Hr' & Hl). apply list_elem_of_fmap in Hl as (r & -> & Hr).
    apply list_elem_of_fmap in Hr' as (z & -> & Hz). by exists r, z.
  - intros (r & z & Hr & Hz & ->). exists (map (with_lane r) (lane_numbers r)).
    split; apply list_elem_of_fmap; [by exists z | by exists r].
Qed.

Lemma expand_lanes_range df out :
  expand_lanes df = inr out -> Forall (fun r' => 1 <= lane r' <= 8) out.
Proof.
  intros (Hm & Hnd & ->)%expand_lanes_inr.
  apply Forall_forall. intros r' (r & l & Hr & Hl & ->)%expanded_rows. simpl.
  pose proof (proj1 (Forall_forall _ _) Hm r Hr) as Hmr.
  destruct (lane_numbers_range r Hmr) as [_ Hrange].
  by apply (proj1 (Forall_forall _ _) Hrange).
Qed.


Lemma int_lane_cell (r : Row PyVal) z :
  lane r = PInt z -> 1 <= z <= 8 ->
  lane_cell_matches r = true /\ NoDup (lane_tokens r) /\ lane_numbers r = [z].
Proof.
  intros Hl Hz.
  unfold lane_cell_matches, lane_tokens, lane_numbers, lane_tokens, lane_text. rewrite Hl.
  assert (z = 1 \/ z = 2 \/ z = 3 \/ z = 4 \/ z = 5 \/ z = 6 \/ z = 7 \/ z = 8) as Hc by lia.
  destruct Hc as [->|[->|[->|[->|[->|[->|[->| ->]]]]]]];
    (split; [reflexivity|]; split; [apply NoDup_singleton | reflexivity]).
Qed.

(** X10. A table whose lane cells are integers from 1 to 8 passes the
    lane expander row for row: the result has the same rows in the same
    order, each with its integer lane. *)
Theorem X10_expand_lanes_integer_cells (df : list (Row PyVal)) (zs : list Z) :
  Forall2 (fun r z => lane r = PInt z /\ 1 <= z <= 8) df zs ->
  expand_lanes df = inr (zip_with with_lane df zs).
Proof.
  intros H. rewrite expand_lanes_well.
  - f_equal. unfold expanded. induction H as [|r z df zs [Hl Hz] _ IH]; csimpl; [done|].
    destruct (int_lane_cell r z Hl Hz) as (_ & _ & ->). simpl. by rewrite IH.
  - induction H as [|r z df zs [Hl Hz] _ IH]; constructor; [|done].
    by destruct (int_lane_cell r z Hl Hz) as (? & _ & _).
  - induction H as [|r z df zs [Hl Hz] _ IH]; constructor; [|done].
    by destruct (int_lane_cell r z Hl Hz) as (_ & ? & _).
Qed.

Lemma X8_witness :
  normalize_minimal REQUIRED_CANONICAL_COLS [Sample.kit_row]
  = inr [normalized_row Sample.kit_row]
  /\ normalize_minimal REQUIRED_CANONICAL_COLS [normalized_row Sample.kit_row]
     = inr [normalized_row Sample.kit_row].
Proof.
  split; [reflexivity|].
  apply (X8_normalize_minimal REQUIRED_CANONICAL_COLS [Sample.kit_row]). reflexivity.
Defined.


Lemma X10_witness :
  expand_lanes [Sample.raw (PInt 2); Sample.raw (PInt 7)]
  = inr [with_lane (Sample.raw (PInt 2)) 2; with_lane (Sample.raw (PInt 7)) 7].
Proof.
  apply (X10_expand_lanes_integer_cells [Sample.raw (PInt 2); Sample.raw (PInt 7)] [2; 7]).
  repeat constructor; lia.
Defined.


(** ** resolve.py: the table that comes out *)

Lemma resolve_indexes_df df i7l i5l pl :
  rr_df (resolve_indexes df i7l i5l pl)
  = map (fun r => resolve_finish (resolve_row i7l i5l pl (resolve_prepare r)).1) df.
Proof. unfold resolve_indexes. simpl. by rewrite !map_map. Qed.

Lemma resolve_indexes_problems df i7l i5l pl :
  rr_problems (resolve_indexes df i7l i5l pl)
  = concat (map (fun r => (resolve_row i7l i5l pl (resolve_prepare r)).2) df).
Proof. unfold resolve_indexes. simpl. by rewrite !map_map. Qed.

Lemma resolved_row_cell r o7 o5 :
  resolve_finish (with_seqs (resolve_prepare r) (cell o7) (cell o5))
  = resolved_row r (normalize_seq (cell o7)) (normalize_seq (cell o5)).
Proof. done. Qed.

Lemma paired_branch (pl : option (Dict (string * string))) r id s7 s5 :
  normalize_seq (i7 r) = s7 -> normalize_seq (i5 r) = s5 ->
  resolve_finish
    (match pl with
     | None | Some [] =>
         (resolve_prepare r,
          [mkProblem ERROR "PAIR_TABLE_NOT_PROVIDED"
             "Paired index IDs provided (i7_id==i5_id), but no paired index table was loaded."
             (Some (lane r)) (Some (strip (str (sample_id r))))])
     | Some pl =>
         match dict_get pl id with
         | None =>
             (resolve_prepare r,
              [mkProblem ERROR "PAIR_ID_NOT_FOUND"
                 ("paired Index_ID '" +:+ id +:+ "' not found in paired index table.")
                 (Some (lane r)) (Some (strip (str (sample_id r))))])
         | Some (seq_i7, seq_i5) =>
             (with_seqs (resolve_prepare r) (cell (normalize_seq (PStr seq_i7)))
                        (cell (normalize_seq (PStr seq_i5))), [])
         end
     end).1
  = resolved_row r
      (match pl ≫= (fun d => dict_get d id) with
       | Some (a, b) => (normalize_seq (PStr a), normalize_seq (PStr b))
       | None => (s7, s5)
       end).1
      (match pl ≫= (fun d => dict_get d id) with
       | Some (a, b) => (normalize_seq (PStr a), normalize_seq (PStr b))
       | None => (s7, s5)
       end).2.
Proof.
  intros <- <-.
  destruct pl as [d|]; cbn [mbind option_bind fst snd]; [|by rewrite resolve_finish_prepare].
  destruct (dict_get d id) as [[a b]|] eqn:E.
  - destruct d as [|e d]; [done|]. cbn [fst snd]. by rewrite resolve_finish_with_seqs.
  - destruct d as [|e d]; cbn [fst snd]; by rewrite resolve_finish_prepare.
Qed.

Lemma resolve_row_resolved i7l i5l pl r :
  resolve_finish (resolve_row i7l i5l pl (resolve_prepare r)).1 = resolved i7l i5l pl r.
Proof.
  unfold resolved, rule_seqs, looked_up. open_row. unfold present.
  destruct (normalize_seq (i7 r)) as [s7|] eqn:E7;
    destruct (normalize_seq (i5 r)) as [s5|] eqn:E5; cbn [andb].
  - cbn [fst snd]. rewrite resolve_finish_prepare. by rewrite E7, E5.
  - destruct (negb (is_empty (resolver_id (i7_id r))) && negb (is_empty (resolver_id (i5_id r)))
              && bool_decide (resolver_id (i7_id r) = resolver_id (i5_id r))) eqn:G.
    + by apply paired_branch.
    + cbn [negb truth cell]. rewrite (normalize_seq_nonempty _ _ E7). cbn [negb andb].
      destruct (is_empty (resolver_id (i5_id r))) eqn:Ei5; cbn [negb andb fst snd].
      * unfold resolve_finish, resolved_row, with_seqs, resolve_prepare; simpl.
        by rewrite (normalize_seq_fixed _ _ E7).
      * destruct (dict_get i5l (resolver_id (i5_id r))) as [v5|]; cbn [fst snd];
          unfold resolve_finish, resolved_row, with_seqs, resolve_prepare; simpl;
          by rewrite ?(normalize_seq_fixed _ _ E7), ?normalize_seq_cell.
  - destruct (negb (is_empty (resolver_id (i7_id r))) && negb (is_empty (resolver_id (i5_id r)))
              && bool_decide (resolver_id (i7_id r) = resolver_id (i5_id r))) eqn:G.
    + by apply paired_branch.
    + cbn [negb truth cell andb].
      destruct (is_empty (resolver_id (i7_id r))) eqn:Ei7; cbn [negb andb fst snd].
      * unfold resolve_finish, resolved_row, with_seqs, resolve_prepare; simpl.
        by rewrite (normalize_seq_fixed _ _ E5).
      * destruct (dict_get i7l (resolver_id (i7_id r))) as [v7|]; cbn [fst snd];
          [destruct (truth (cell (normalize_seq (PStr v7))))|];
          unfold resolve_finish, resolved_row, with_seqs, resolve_prepare; simpl;
          by rewrite ?(normalize_seq_fixed _ _ E5), ?normalize_seq_cell.
  - destruct (negb (is_empty (resolver_id (i7_id r))) && negb (is_empty (resolver_id (i5_id r)))
              && bool_decide (resolver_id (i7_id r) = resolver_id (i5_id r))) eqn:G.
    + by apply paired_branch.
    + cbn [negb truth cell andb].
      destruct (is_empty (resolver_id (i7_id r))) eqn:Ei7;
        destruct (is_empty (resolver_id (i5_id r))) eqn:Ei5; cbn [negb andb fst snd];
        try destruct (dict_get i7l (resolver_id (i7_id r))) as [v7|];
        try destruct (dict_get i5l (resolver_id (i5_id r))) as [v5|]; cbn [fst snd];
        try destruct (truth (cell (normalize_seq (PStr v7))));
        unfold resolve_finish, resolved_row, with_seqs, resolve_prepare; simpl;
        by rewrite ?normalize_seq_cell.
Qed.

(** X11. The resolved table is the input table row by row: every row
    comes out in its place with its lane, sample, project and further
    cells untouched, its IDs stripped, and its sequences as the rules
    give them from the row alone. Sequences that are both present stay.
    Otherwise a row whose two IDs are non-blank and equal belongs to the
    paired lookup alone: it takes both sequences from the entry of the
    ID there, and when there is no such entry, or no paired lookup, its
    sequences stay as they were, whatever the i7 and i5 lookups hold.
    Every other row takes each absent sequence from its own lookup, and
    the sequence stays absent when its ID is blank or not found. *)
Theorem X11_resolved_table (df : list (Row Z)) (i7l i5l : Dict string)
    (pl : option (Dict (string * string))) :
  rr_df (resolve_indexes df i7l i5l pl) = map (resolved i7l i5l pl) df
  /\ forall r,
       let s7 := normalize_seq (i7 r) in
       let s5 := normalize_seq (i5 r) in
       let id7 := resolver_id (i7_id r) in
       let id5 := resolver_id (i5_id r) in
       let hit := pl ≫= (fun d => dict_get d id7) in
       (present (i7 r) && present (i5 r) = true ->
        resolved i7l i5l pl r = resolved_row r s7 s5)
       /\ (paired_rule_applies r = true -> hit = None ->
           resolved i7l i5l pl r = resolved_row r s7 s5)
       /\ (forall a b, paired_rule_applies r = true -> hit = Some (a, b) ->
           resolved i7l i5l pl r
           = resolved_row r (normalize_seq (PStr a)) (normalize_seq (PStr b)))
       /\ (present (i7 r) && present (i5 r) = false -> paired_rule_applies r = false ->
           resolved i7l i5l pl r
           = resolved_row r
               (match s7 with Some _ => s7 | None => looked_up i7l id7 end)
               (match s5 with Some _ => s5 | None => looked_up i5l id5 end)).
Proof.
  split.
  { rewrite resolve_indexes_df. apply map_ext. intros r. apply resolve_row_resolved. }
  intros r. cbn zeta. unfold resolved, rule_seqs.
  split; [|split; [|split]].
  - unfold present. destruct (normalize_seq (i7 r)), (normalize_seq (i5 r)); done.
  - intros [Hnot Hid]%paired_rule_guard Hhit. rewrite Hid, Hhit.
    unfold present in Hnot.
    destruct (normalize_seq (i7 r)), (normalize_seq (i5 r)); done.
  - intros a b [Hnot Hid]%paired_rule_guard Hhit. rewrite Hid, Hhit.
    unfold present in Hnot.
    destruct (normalize_seq (i7 r)), (normalize_seq (i5 r)); done.
  - intros Hnot Hrule. unfold paired_rule_applies in Hrule. rewrite Hnot in Hrule.
    cbn [negb andb] in Hrule. rewrite Hrule.
    unfold present in Hnot.
    destruct (normalize_seq (i7 r)), (normalize_seq (i5 r)); done.
Qed.

Lemma rule_seqs_closed i7l i5l pl id7 id5 s7 s5 :
  normalize_seq (cell s7) = s7 -> normalize_seq (cell s5) = s5 ->
  let s := rule_seqs i7l i5l pl id7 id5 s7 s5 in
  normalize_seq (cell s.1) = s.1 /\ normalize_seq (cell s.2) = s.2.
Proof.
  intros H7 H5. unfold rule_seqs, looked_up.
  destruct s7 as [s7|], s5 as [s5|]; cbn [fst snd]; try done;
    destruct (negb (is_empty id7) && negb (is_empty id5) && bool_decide (id7 = id5));
    try destruct (pl ≫= _) as [[a b]|]; cbn [fst snd];
    try destruct (is_empty id7); try destruct (is_empty id5);
    try destruct (dict_get i7l id7); try destruct (dict_get i5l id5);
    rewrite ?normalize_seq_cell; done.
Qed.

Lemma rule_seqs_idem i7l i5l pl id7 id5 s7 s5 :
  let s := rule_seqs i7l i5l pl id7 id5 s7 s5 in
  rule_seqs i7l i5l pl id7 id5 s.1 s.2 = s.
Proof.
  unfold rule_seqs, looked_up.
  destruct s7 as [s7|], s5 as [s5|]; cbn [fst snd]; try done;
    destruct (negb (is_empty id7) && negb (is_empty id5) && bool_decide (id7 = id5)) eqn:G;
    try destruct (pl ≫= _) as [[a b]|] eqn:P; cbn [fst snd]; rewrite ?G, ?P; try done;
    try (destruct (normalize_seq (PStr a)), (normalize_seq (PStr b)); done);
    destruct (is_empty id7) eqn:E7; destruct (is_empty id5) eqn:E5; rewrite ?G; try done;
    try destruct (dict_get i7l id7) as [v7|] eqn:D7;
    try destruct (dict_get i5l id5) as [v5|] eqn:D5; rewrite ?G; try done;
    try destruct (normalize_seq (PStr v7)) eqn:N7;
    try destruct (normalize_seq (PStr v5)) eqn:N5; rewrite ?G; done.
Qed.

Lemma resolver_id_stripped x : resolver_id (PStr (strip (str x))) = resolver_id x.
Proof. apply resolver_id_prepared. Qed.

Lemma resolved_idem i7l i5l pl r :
  resolved i7l i5l pl (resolved i7l i5l pl r) = resolved i7l i5l pl r.
Proof.
  pose proof (rule_seqs_closed i7l i5l pl (resolver_id (i7_id r)) (resolver_id (i5_id r))
                (normalize_seq (i7 r)) (normalize_seq (i5 r))
                (normalize_seq_cell _) (normalize_seq_cell _)) as [H7 H5].
  pose proof (rule_seqs_idem i7l i5l pl (resolver_id (i7_id r)) (resolver_id (i5_id r))
                (normalize_seq (i7 r)) (normalize_seq (i5 r))) as Hi.
  cbn zeta in Hi.
  unfold resolved. cbn [resolved_row i7_id i5_id i7 i5 lane sample_id project_id extra].
  rewrite !resolver_id_stripped.
  destruct (rule_seqs i7l i5l pl (resolver_id (i7_id r)) (resolver_id (i5_id r))
              (normalize_seq (i7 r)) (normalize_seq (i5 r))) as [o7 o5].
  cbn [fst snd] in *. rewrite H7, H5, Hi. cbn [fst snd].
  unfold resolved_row. simpl. by rewrite !strip_idem.
Qed.

(** X12. Resolving is idempotent on the table: resolving the resolved
    table again with the same lookups changes nothing. *)
Theorem X12_resolve_idempotent (df : list (Row Z)) (i7l i5l : Dict string)
    (pl : option (Dict (string * string))) :
  rr_df (resolve_indexes (rr_df (resolve_indexes df i7l i5l pl)) i7l i5l pl)
  = rr_df (resolve_indexes df i7l i5l pl).
Proof.
  rewrite !resolve_indexes_df, map_map. apply map_ext. intros r.
  rewrite !resolve_row_resolved. apply resolved_idem.
Qed.

(** ** resolve.py: the problems *)

Lemma resolve_row_problems i7l i5l pl r p :
  p ∈ (resolve_row i7l i5l pl r).2 ->
  level p = ERROR /\ p_lane p = Some (lane r)
  /\ p_sample_id p = Some (strip (str (sample_id r)))
  /\ code p ∈ resolver_codes.
Proof.
  assert (forall c m,
            c ∈ resolver_codes ->
            let q := mkProblem ERROR c m (Some (lane r)) (Some (strip (str (sample_id r)))) in
            level q = ERROR /\ p_lane q = Some (lane r)
            /\ p_sample_id q = Some (strip (str (sample_id r)))
            /\ code q ∈ resolver_codes) as Hq by done.
  assert (forall c : string, c ∈ resolver_codes <-> bool_decide (c ∈ resolver_codes) = true)
    as Hdec by (intros c; by rewrite bool_decide_eq_true).
  unfold resolve_row.
  destruct (truth (i7 r) && truth (i5 r)); cbn [snd]; [by intros ?%elem_of_nil|].
  destruct (negb _ && negb _ && bool_decide _).
  - destruct pl as [[|e d]|]; [| destruct (dict_get _ _) as [[a b]|] |]; cbn [snd];
      intros Hp; try (by apply elem_of_nil in Hp);
      apply list_elem_of_singleton in Hp as ->; apply Hq; by apply Hdec.
  - destruct (negb (truth (i7 r))); [destruct (is_empty _); [|destruct (dict_get i7l _)]|];
      (destruct (negb (truth (i5 r)) && negb (is_empty _)); [destruct (dict_get i5l _)|]);
      cbn [fst snd app];
      match goal with |- context [if ?b then _ else _] => destruct b end;
      cbn [fst snd app]; intros Hp;
      repeat (apply elem_of_cons in Hp as [-> | Hp]; [apply Hq; by apply Hdec|]);
      by apply elem_of_nil in Hp.
Qed.

(** X13. Every problem of the resolver is an ERROR with one of six
    codes, tagged with the lane and the stripped sample ID of a row of
    the table. *)
Theorem X13_resolver_problems (df : list (Row Z)) (i7l i5l : Dict string)
    (pl : option (Dict (string * string))) (p : Problem) :
  p ∈ rr_problems (resolve_indexes df i7l i5l pl) ->
  level p = ERROR
  /\ code p ∈ resolver_codes
  /\ exists r, r ∈ df /\ p_lane p = Some (lane r) /\ p_sample_id p = Some (resolver_sid r).
Proof.
  rewrite resolve_indexes_problems.
  intros (ps & Hp & (r & -> & Hr)%list_elem_of_fmap)%elem_of_concat.
  apply resolve_row_problems in Hp as (Hl & Hlane & Hsid & Hc).
  split; [done|]. split; [done|]. by exists r.
Qed.

Lemma present_finish_with_seqs r v7 o5 :
  present v7 = true ->
  present (i7 (resolve_finish (with_seqs (resolve_prepare r) (cell (normalize_seq v7)) o5)))
  = true.
Proof.
  unfold resolve_finish, with_seqs, resolve_prepare. simpl.
  unfold present. by rewrite !normalize_seq_cell.
Qed.

Lemma present_finish_prepare r :
  present (i7 r) = true -> present (i7 (resolve_finish (resolve_prepare r))) = true.
Proof.
  unfold resolve_finish, with_seqs, resolve_prepare. simpl.
  unfold present. by rewrite !normalize_seq_cell.
Qed.

Lemma present_finish_kept r s7 o5 :
  normalize_seq (i7 r) = Some s7 ->
  present (i7 (resolve_finish (with_seqs (resolve_prepare r) (PStr s7) o5))) = true.
Proof.
  intros E. change (PStr s7) with (cell (Some s7)). rewrite <- E.
  apply present_finish_with_seqs. by rewrite (present_Some _ _ E).
Qed.

Lemma quiet_row_has_i7 i7l i5l pl r :
  pair_lookup_canonical pl ->
  (resolve_row i7l i5l pl (resolve_prepare r)).2 = [] ->
  present (i7 (resolve_finish (resolve_row i7l i5l pl (resolve_prepare r)).1)) = true.
Proof.
  intros Hpl.
  destruct (resolve_row i7l i5l pl (resolve_prepare r)) as [r' ps] eqn:E.
  cbn [fst snd]. intros ->. revert E. open_row.
  assert (Hpair : forall d a b,
            pl = Some d -> dict_get d (resolver_id (i7_id r)) = Some (a, b) ->
            present (PStr a) = true).
  { intros d a b -> Hg. destruct (Hpl _ _ _ _ eq_refl Hg) as [Ha _].
    by rewrite (present_Some _ _ Ha). }
  destruct (present (i7 r) && present (i5 r)) eqn:Hboth.
  { intros [= <-]. apply andb_true_iff in Hboth as [H7 _]. by apply present_finish_prepare. }
  destruct (negb _ && negb _ && bool_decide _).
  - destruct pl as [[|e d]|]; [done| |done].
    destruct (dict_get (e :: d) (resolver_id (i7_id r))) as [[a b]|] eqn:Eg; [|done].
    intros [= <-]. apply present_finish_with_seqs. by eapply Hpair.
  - unfold present at 1. unfold present in Hboth.
    destruct (normalize_seq (i7 r)) as [s7|] eqn:E7; cbn [negb cell].
    + destruct (negb _ && negb _); [destruct (dict_get i5l _)|]; cbn [truth];
        rewrite (normalize_seq_nonempty _ _ E7); cbn [negb app]; try done;
        intros [= <-]; by apply present_finish_kept.
    + destruct (is_empty (resolver_id (i7_id r))).
      { destruct (negb _ && negb _); [destruct (dict_get i5l _)|]; done. }
      destruct (dict_get i7l (resolver_id (i7_id r))) as [v7|].
      2:{ destruct (negb _ && negb _); [destruct (dict_get i5l _)|]; done. }
      destruct (negb _ && negb _); [destruct (dict_get i5l _)|];
        rewrite truth_cell_normalize;
        (destruct (present (PStr v7)) eqn:Ep; cbn [negb app]; [|done]);
        try done; intros [= <-]; by apply present_finish_with_seqs.
Qed.

Lemma quiet_resolution_has_i7 (df : list (Row Z)) (i7l i5l : Dict string)
    (pl : option (Dict (string * string))) :
  pair_lookup_canonical pl ->
  rr_problems (resolve_indexes df i7l i5l pl) = [] ->
  Forall (fun r => present (i7 r) = true) (rr_df (resolve_indexes df i7l i5l pl)).
Proof.
  intros Hpl. rewrite resolve_indexes_problems, resolve_indexes_df.
  induction df as [|r df IH]; csimpl; [constructor|].
  intros [Hr Hdf]%app_eq_nil. constructor; [|by apply IH].
  by apply quiet_row_has_i7.
Qed.

(** X14. With a paired lookup whose sequences are canonical, a table
    that the resolver passes without a problem has an i7 sequence in
    every row. *)
Theorem X14_quiet_resolution_has_i7 (df : list (Row Z)) (i7l i5l : Dict string)
    (pl : option (Dict (string * string))) :
  pair_lookup_canonical pl ->
  rr_problems (resolve_indexes df i7l i5l pl) = [] ->
  Forall (fun r => present (i7 r) = true) (rr_df (resolve_indexes df i7l i5l pl)).
Proof. apply quiet_resolution_has_i7. Qed.

(** The problems of a row that rule 2 does not handle: those of the i7
    lookup, then those of the i5 lookup, then the final requirement. *)
Lemma unpaired_row_problems i7l i5l pl r :
  paired_rule_applies r = false ->
  let id7 := resolver_id (i7_id r) in
  let id5 := resolver_id (i5_id r) in
  let p7 :=
    if present (i7 r) then []
    else if is_empty id7 then [resolve_error r "I7_MISSING" I7_MISSING_message]
    else match dict_get i7l id7 with
         | None => [resolve_error r "I7_ID_NOT_FOUND" (I7_ID_NOT_FOUND_message id7)]
         | Some _ => []
         end in
  let p5 :=
    if present (i5 r) || is_empty id5 then []
    else match dict_get i5l id5 with
         | None => [resolve_error r "I5_ID_NOT_FOUND" (I5_ID_NOT_FOUND_message id5)]
         | Some _ => []
         end in
  exists pf,
    (resolve_row i7l i5l pl (resolve_prepare r)).2 = (p7 ++ p5 ++ pf)%list
    /\ Forall (fun p => code p = "I7_SEQUENCE_NOT_RESOLVED") pf.
Proof.
  intros Hrule. unfold paired_rule_applies in Hrule. cbn zeta. open_row.
  set (id7 := resolver_id (i7_id r)) in *. set (id5 := resolver_id (i5_id r)) in *.
  destruct (present (i7 r) && present (i5 r)) eqn:Hboth.
  { apply andb_true_iff in Hboth as [-> ->]. exists []. by split. }
  cbn [negb andb] in Hrule. rewrite Hrule.
  destruct (present (i7 r)) eqn:P7; destruct (present (i5 r)) eqn:P5; try done;
    cbn [negb andb orb];
    try destruct (is_empty id7); try destruct (is_empty id5); cbn [negb andb orb];
    try destruct (dict_get i7l id7); try destruct (dict_get i5l id5);
    cbn [fst snd app];
    match goal with
    | |- context [if ?b then _ else _] => destruct b
    | |- _ => idtac
    end;
    (eexists; split; [reflexivity|]); repeat constructor.
Qed.

Lemma unpaired_row_seqs i7l i5l pl r :
  paired_rule_applies r = false ->
  let x := resolve_finish (resolve_row i7l i5l pl (resolve_prepare r)).1 in
  (present (i7 r) = false -> i7 x = cell (looked_up i7l (resolver_id (i7_id r))))
  /\ (present (i5 r) = false -> i5 x = cell (looked_up i5l (resolver_id (i5_id r)))).
Proof.
  unfold paired_rule_applies. intros Hrule. cbn zeta. rewrite resolve_row_resolved.
  unfold resolved, rule_seqs, present in *.
  destruct (normalize_seq (i7 r)), (normalize_seq (i5 r)); cbn [negb andb] in Hrule;
    try rewrite Hrule; cbn [fst snd resolved_row i7 i5]; split; done.
Qed.

(** X15. The i7 sequence is required. For a row that rule 2 does not
    handle and whose i7 sequence is absent: with no i7 ID the sequence
    stays absent and the row adds the ERROR I7_MISSING; with an ID that
    the i7 lookup does not have it stays absent and the row adds the
    ERROR I7_ID_NOT_FOUND naming the ID; with an ID that the lookup has
    it becomes the normalized entry, and neither problem is added. *)
Theorem X15_independent_i7 (i7l i5l : Dict string)
    (pl : option (Dict (string * string))) (r : Row Z) :
  paired_rule_applies r = false -> present (i7 r) = false ->
  let id := resolver_id (i7_id r) in
  exists r' ps,
    resolves_to i7l i5l pl r r' ps
    /\ (id = EmptyString ->
        i7 r' = PNone /\ resolve_error r "I7_MISSING" I7_MISSING_message ∈ ps)
    /\ (id ≠ EmptyString -> dict_get i7l id = None ->
        i7 r' = PNone
        /\ resolve_error r "I7_ID_NOT_FOUND" (I7_ID_NOT_FOUND_message id) ∈ ps)
    /\ (forall v, id ≠ EmptyString -> dict_get i7l id = Some v ->
        i7 r' = cell (normalize_seq (PStr v))
        /\ forall p, p ∈ ps -> code p ≠ "I7_MISSING" /\ code p ≠ "I7_ID_NOT_FOUND").
Proof.
  intros Hrule P7 id.
  pose proof (resolve_indexes_row i7l i5l pl r) as Hrow. cbn zeta in Hrow.
  destruct (unpaired_row_seqs i7l i5l pl r Hrule) as [H7 _]. cbn zeta in H7.
  specialize (H7 P7). fold id in H7.
  destruct (unpaired_row_problems i7l i5l pl r Hrule) as (pf & Hps & Hpf).
  rewrite P7 in Hps. fold id in Hps.
  eexists _, _. split; [exact Hrow|]. rewrite H7, Hps. unfold looked_up.
  split; [|split].
  - intros ->. split; [done|]. simpl. left.
  - intros Hne ->. destruct (is_empty id) eqn:E; [by apply is_empty_true in E|].
    split; [done|]. left.
  - intros v Hne ->. destruct (is_empty id) eqn:E; [by apply is_empty_true in E|].
    split; [done|]. intros p. cbn [app]. rewrite elem_of_app. intros [Hp | Hp].
    + destruct (present (i5 r) || is_empty (resolver_id (i5_id r)));
        [by apply elem_of_nil in Hp|].
      destruct (dict_get i5l (resolver_id (i5_id r))); [by apply elem_of_nil in Hp|].
      by apply list_elem_of_singleton in Hp as ->.
    + rewrite (proj1 (Forall_forall _ _) Hpf p Hp). done.
Qed.

(** X16. The i5 sequence is optional. For a row that rule 2 does not
    handle and whose i5 sequence is absent: with no i5 ID the sequence
    stays absent and no i5 problem is added; with an ID that the i5
    lookup does not have it stays absent and the row adds the ERROR
    I5_ID_NOT_FOUND naming the ID; with an ID that the lookup has it
    becomes the normalized entry, and no i5 problem is added. *)
Theorem X16_independent_i5 (i7l i5l : Dict string)
    (pl : option (Dict (string * string))) (r : Row Z) :
  paired_rule_applies r = false -> present (i5 r) = false ->
  let id := resolver_id (i5_id r) in
  exists r' ps,
    resolves_to i7l i5l pl r r' ps
    /\ (id = EmptyString ->
        i5 r' = PNone /\ forall p, p ∈ ps -> code p ≠ "I5_ID_NOT_FOUND")
    /\ (id ≠ EmptyString -> dict_get i5l id = None ->
        i5 r' = PNone
        /\ resolve_error r "I5_ID_NOT_FOUND" (I5_ID_NOT_FOUND_message id) ∈ ps)
    /\ (forall v, id ≠ EmptyString -> dict_get i5l id = Some v ->
        i5 r' = cell (normalize_seq (PStr v))
        /\ forall p, p ∈ ps -> code p ≠ "I5_ID_NOT_FOUND").
Proof.
  intros Hrule P5 id.
  pose proof (resolve_indexes_row i7l i5l pl r) as Hrow. cbn zeta in Hrow.
  destruct (unpaired_row_seqs i7l i5l pl r Hrule) as [_ H5]. cbn zeta in H5.
  specialize (H5 P5). fold id in H5.
  destruct (unpaired_row_problems i7l i5l pl r Hrule) as (pf & Hps & Hpf).
  rewrite P5 in Hps. fold id in Hps. cbn [orb] in Hps.
  eexists _, _. split; [exact Hrow|]. rewrite H5, Hps. unfold looked_up.
  assert (Hother : forall p,
            p ∈ (if present (i7 r) then []
                 else if is_empty (resolver_id (i7_id r))
                      then [resolve_error r "I7_MISSING" I7_MISSING_message]
                      else match dict_get i7l (resolver_id (i7_id r)) with
                           | Some _ => []
                           | None => [resolve_error r "I7_ID_NOT_FOUND"
                                        (I7_ID_NOT_FOUND_message (resolver_id (i7_id r)))]
                           end) \/ p ∈ pf ->
            code p ≠ "I5_ID_NOT_FOUND").
  { intros p [Hp | Hp].
    - destruct (present (i7 r)); [by apply elem_of_nil in Hp|].
      destruct (is_empty _); [by apply list_elem_of_singleton in Hp as ->|].
      destruct (dict_get i7l _); [by apply elem_of_nil in Hp|].
      by apply list_elem_of_singleton in Hp as ->.
    - by rewrite (proj1 (Forall_forall _ _) Hpf p Hp). }
  split; [|split].
  - intros ->. split; [done|]. intros p. cbn [is_empty app].
    rewrite !elem_of_app. intros [Hp | Hp]; apply Hother; [by left | by right].
  - intros Hne ->. destruct (is_empty id) eqn:E; [by apply is_empty_true in E|].
    split; [done|]. rewrite !elem_of_app. right. left. left.
  - intros v Hne ->. destruct (is_empty id) eqn:E; [by apply is_empty_true in E|].
    split; [done|]. intros p.
    rewrite !elem_of_app. intros [Hp | [Hp | Hp]];
      [apply Hother; by left | by apply elem_of_nil in Hp | apply Hother; by right].
Qed.

Lemma X13_witness :
  exists p,
    p ∈ rr_problems (resolve_indexes [Rows.named 2 " S1 " "N799" ""] Rows.i7_lookup [] None)
    /\ level p = ERROR /\ code p = "I7_ID_NOT_FOUND" /\ p_sample_id p = Some "S1".
Proof.
  eexists. split; [left|].
  split; [|split; reflexivity].
  eapply (X13_resolver_problems [Rows.named 2 " S1 " "N799" ""] Rows.i7_lookup [] None).
  left.
Defined.

Lemma X14_witness :
  pair_lookup_canonical (Some Sample.kit_lookup)
  /\ Forall (fun r => present (i7 r) = true)
       (rr_df (resolve_indexes [Sample.kit_row; Rows.named 1 "S2" "N701" ""]
                 Rows.i7_lookup [] (Some Sample.kit_lookup))).
Proof.
  assert (pair_lookup_canonical (Some Sample.kit_lookup)) as Hpl.
  { intros d k s7 s5 [= <-]. unfold Sample.kit_lookup. simpl.
    destruct (decide _); [|done]. by intros [= <- <-]. }
  split; [exact Hpl|].
  apply (X14_quiet_resolution_has_i7 _ Rows.i7_lookup [] (Some Sample.kit_lookup) Hpl).
  reflexivity.
Defined.

Lemma X15_witness :
  paired_rule_applies (Rows.named 1 "S2" "N799" "") = false
  /\ exists r' ps,
       resolves_to Rows.i7_lookup [] None (Rows.named 1 "S2" "N799" "") r' ps
       /\ i7 r' = PNone
       /\ resolve_error (Rows.named 1 "S2" "N799" "") "I7_ID_NOT_FOUND"
            (I7_ID_NOT_FOUND_message "N799") ∈ ps.
Proof.
  split; [reflexivity|].
  destruct (X15_independent_i7 Rows.i7_lookup [] None (Rows.named 1 "S2" "N799" "")
              eq_refl eq_refl) as (r' & ps & Hres & _ & Hnf & _).
  exists r', ps. split; [exact Hres|]. apply Hnf; [discriminate | reflexivity].
Defined.

Lemma X16_witness :
  paired_rule_applies (Rows.named 1 "S2" "N701" "S502") = false
  /\ exists r' ps,
       resolves_to Rows.i7_lookup Rows.i5_lookup None (Rows.named 1 "S2" "N701" "S502") r' ps
       /\ i5 r' = PStr "CTCTCTAT".
Proof.
  split; [reflexivity|].
  destruct (X16_independent_i5 Rows.i7_lookup Rows.i5_lookup None
              (Rows.named 1 "S2" "N701" "S502") eq_refl eq_refl)
    as (r' & ps & Hres & _ & _ & Hfound).
  exists r', ps. split; [exact Hres|].
  apply (Hfound "CTCTCTAT"); [discriminate | reflexivity].
Defined.


(** ** validate.py: trimming and the distance loops *)

Lemma len_take n s : len (take n s) = Nat.min n (len s).
Proof.
  unfold len. revert s. induction n as [|n IH]; intros [|c s]; simpl; try done.
  by rewrite IH.
Qed.

Lemma take_take n s : take n (take n s) = take n s.
Proof. revert s. induction n as [|n IH]; intros [|c s]; simpl; try done. by rewrite IH. Qed.

Lemma take_len s : take (len s) s = s.
Proof. induction s as [|c s IH]; simpl; [done|]. by rewrite IH. Qed.

Lemma foldl_min_le x xs : (foldl Nat.min x xs <= x)%nat /\ Forall (fun y => (foldl Nat.min x xs <= y)%nat) xs.
Proof.
  revert x. induction xs as [|y xs IH]; intros x; simpl; [split; [lia | constructor]|].
  destruct (IH (Nat.min x y)) as [H1 H2]. split; [lia|]. constructor; [lia | done].
Qed.

Lemma foldl_min_in x xs : foldl Nat.min x xs ∈ x :: xs.
Proof.
  revert x. induction xs as [|y xs IH]; intros x; simpl; [left|].
  specialize (IH (Nat.min x y)).
  apply elem_of_cons in IH as [-> | IH].
  - destruct (Nat.min_spec x y) as [[_ ->] | [_ ->]]; [left | right; left].
  - right. by right.
Qed.

Lemma min_list_le xs x : x ∈ xs -> (min_list 0 xs <= x)%nat.
Proof.
  destruct xs as [|y xs]; [by intros ?%elem_of_nil|]. simpl.
  destruct (foldl_min_le y xs) as [H1 H2].
  intros [-> | Hx]%elem_of_cons; [done|]. by apply (proj1 (Forall_forall _ _) H2).
Qed.

Lemma min_list_in xs : xs ≠ [] -> min_list 0 xs ∈ xs.
Proof. destruct xs as [|y xs]; [done|]. intros _. apply foldl_min_in. Qed.

Lemma foldl_min_const {A} (m : nat) (l : list A) :
  foldl Nat.min m (map (fun _ => m) l) = m.
Proof. induction l as [|x l IH]; simpl; [done|]. by rewrite Nat.min_id. Qed.

Lemma trim_trimmed seqs : _trim_to_lane_min seqs = trimmed seqs.
Proof. by destruct seqs. Qed.

Lemma trimmed_len seqs t : t ∈ trimmed seqs -> len t = min_list 0 (map len seqs).
Proof.
  unfold trimmed. intros (s & -> & Hs)%list_elem_of_fmap. rewrite len_take.
  assert (min_list 0 (map len seqs) <= len s)%nat; [|lia].
  apply min_list_le. apply list_elem_of_fmap. by exists s.
Qed.

Lemma trimmed_idem seqs : trimmed (trimmed seqs) = trimmed seqs.
Proof.
  destruct seqs as [|s0 seqs]; [done|].
  set (l := s0 :: seqs).
  assert (min_list 0 (map len (trimmed l)) = min_list 0 (map len l)) as Hm.
  { assert (map len (trimmed l) = map (fun _ => min_list 0 (map len l)) l) as ->.
    { unfold trimmed. rewrite map_map. apply map_ext_in. intros s Hs%list_elem_of_In.
      rewrite len_take.
      assert (min_list 0 (map len l) <= len s)%nat; [|lia].
      apply min_list_le. apply list_elem_of_fmap. by exists s. }
    unfold l at 1. cbn [map min_list]. apply foldl_min_const. }
  unfold trimmed at 1. rewrite Hm. unfold trimmed. rewrite map_map.
  apply map_ext. intros s. apply take_take.
Qed.

(** X17. Trimming to the lane minimum keeps the sequences in number and
    order, cuts each to a prefix of itself, makes them all as long as
    the shortest of them, and changes nothing when done again. *)
Theorem X17_trim_to_lane_min (seqs : list string) :
  let out := _trim_to_lane_min seqs in
  List.length out = List.length seqs
  /\ (forall (i : nat) s, seqs !! i = Some s ->
        exists t, out !! i = Some t /\ t = take (len t) s)
  /\ (forall t s, t ∈ out -> s ∈ seqs -> (len t <= len s)%nat)
  /\ (forall t, t ∈ out -> exists s, s ∈ seqs /\ len t = len s)
  /\ _trim_to_lane_min out = out.
Proof.
  cbn zeta. rewrite !trim_trimmed.
  split; [unfold trimmed; by rewrite length_map|]. split; [|split; [|split]].
  - intros i s Hi.
    assert (trimmed seqs !! i = Some (take (min_list 0 (map len seqs)) s)) as Ht.
    { unfold trimmed. change (map ?f ?l) with (f <$> l) at 1. by rewrite list_lookup_fmap, Hi. }
    eexists. split; [exact Ht|]. rewrite len_take.
    assert (min_list 0 (map len seqs) <= len s)%nat as Hle.
    { apply min_list_le. apply list_elem_of_fmap. exists s. split; [done|].
      by eapply list_elem_of_lookup_2. }
    by rewrite Nat.min_l.
  - intros t s Ht%trimmed_len Hs. rewrite Ht. apply min_list_le.
    apply list_elem_of_fmap. by exists s.
  - intros t Ht. rewrite (trimmed_len _ _ Ht).
    assert (map len seqs ≠ []) as Hne.
    { destruct seqs; [by apply elem_of_nil in Ht | done]. }
    apply min_list_in in Hne. apply list_elem_of_fmap in Hne as (s & Hs & Hin).
    by exists s.
  - apply trimmed_idem.
Qed.

(** The loops that skip undefined distances compute the least of the
    defined ones. *)
Lemma foldl_hamming_step (ps : list (string * string)) m :
  foldl hamming_step m ps
  = foldl min_update m (omap (fun xy => hamming (Some xy.1) (Some xy.2)) ps).
Proof.
  revert m. induction ps as [|[x y] ps IH]; intros m; [done|].
  cbn [foldl]. rewrite IH. unfold hamming_step. csimpl.
  by destruct (hamming (Some x) (Some y)).
Qed.

Lemma minimum_least ds d : minimum ds = Some d <-> least (fun x => x ∈ ds) d.
Proof.
  pose proof (minimum_spec ds) as H. unfold least. destruct (minimum ds) as [m|].
  - destruct H as [Hin Hle]. split.
    + by intros [= <-].
    + intros [Hd Hmin]. f_equal. apply Nat.le_antisymm; [by apply Hle | by apply Hmin].
  - subst ds. split; [done|]. by intros [?%elem_of_nil _].
Qed.

Lemma least_ext (P Q : nat -> Prop) d : (forall x, P x <-> Q x) -> least P d <-> least Q d.
Proof.
  intros H. unfold least. split; intros [H1 H2]; (split; [by apply H|]);
    intros d' Hd'; apply H2; by apply H.
Qed.

Lemma least_unique (P : nat -> Prop) d1 d2 : least P d1 -> least P d2 -> d1 = d2.
Proof. intros [H1 L1] [H2 L2]. apply Nat.le_antisymm; [by apply L1 | by apply L2]. Qed.

Lemma minimum_None ds : minimum ds = None <-> ds = [].
Proof. destruct ds; simpl; [done|]. split; [by destruct (minimum ds) | done]. Qed.

Lemma list_prod_nil_r {A B} (a : list A) : list_prod a ([] : list B) = [].
Proof. induction a as [|x a IH]; [done|]. simpl. exact IH. Qed.

Lemma between_sets_minimum a b :
  _min_hamming_between_sets a b
  = minimum (omap (fun xy => hamming (Some xy.1) (Some xy.2)) (list_prod a b)).
Proof.
  unfold _min_hamming_between_sets. destruct a as [|x a]; [done|].
  destruct b as [|y b]; [by rewrite list_prod_nil_r|].
  by rewrite foldl_hamming_step, foldl_min_update.
Qed.

Lemma elem_of_prod_distances a b d :
  d ∈ omap (fun xy : string * string => hamming (Some xy.1) (Some xy.2)) (list_prod a b)
  <-> exists x y, x ∈ a /\ y ∈ b /\ hamming (Some x) (Some y) = Some d.
Proof.
  rewrite list_elem_of_omap. split.
  - intros ([x y] & Hin & Hd). apply list_elem_of_In, in_prod_iff in Hin as [Hx Hy].
    exists x, y. by rewrite !list_elem_of_In.
  - intros (x & y & Hx & Hy & Hd). exists (x, y). split; [|done].
    apply list_elem_of_In, in_prod_iff. by rewrite <- !list_elem_of_In.
Qed.

Lemma between_sets_least a b d :
  _min_hamming_between_sets a b = Some d
  <-> least (fun d => exists x y, x ∈ a /\ y ∈ b /\ hamming (Some x) (Some y) = Some d) d.
Proof.
  rewrite between_sets_minimum, minimum_least. apply least_ext.
  intros x. apply elem_of_prod_distances.
Qed.

Lemma between_sets_None a b :
  _min_hamming_between_sets a b = None
  <-> forall x y, x ∈ a -> y ∈ b -> hamming (Some x) (Some y) = None.
Proof.
  rewrite between_sets_minimum, minimum_None. split.
  - intros Hnil x y Hx Hy. destruct (hamming (Some x) (Some y)) as [d|] eqn:E; [|done].
    assert (d ∈ omap (fun xy : string * string => hamming (Some xy.1) (Some xy.2))
                     (list_prod a b)) as Hd
      by (apply elem_of_prod_distances; by exists x, y).
    rewrite Hnil in Hd. by apply elem_of_nil in Hd.
  - intros H. destruct (omap _ _) as [|d ds] eqn:E; [done|].
    assert (d ∈ omap (fun xy : string * string => hamming (Some xy.1) (Some xy.2))
                     (list_prod a b)) as Hd by (rewrite E; left).
    apply elem_of_prod_distances in Hd as (x & y & Hx & Hy & Hd).
    by rewrite (H x y Hx Hy) in Hd.
Qed.

(** X18. The distance between two sets of sequences is the least
    Hamming distance of a sequence of the one and a sequence of the
    other, pairs without a distance skipped; there is none exactly when
    no such pair has a distance; and it is the same in either
    direction. *)
Theorem X18_min_hamming_between_sets (a b : list string) :
  (forall d,
     _min_hamming_between_sets a b = Some d
     <-> least (fun d => exists x y, x ∈ a /\ y ∈ b /\ hamming (Some x) (Some y) = Some d) d)
  /\ (_min_hamming_between_sets a b = None
      <-> forall x y, x ∈ a -> y ∈ b -> hamming (Some x) (Some y) = None)
  /\ _min_hamming_between_sets a b = _min_hamming_between_sets b a.
Proof.
  split; [apply between_sets_least|]. split; [apply between_sets_None|].
  destruct (_min_hamming_between_sets a b) as [d|] eqn:Eab.
  - symmetry. apply between_sets_least. apply between_sets_least in Eab.
    revert Eab. apply least_ext. intros x. split; intros (u & v & Hu & Hv & Hd);
      exists v, u; by rewrite hamming_sym.
  - symmetry. apply between_sets_None. intros x y Hx Hy.
    rewrite hamming_sym. by apply (proj1 (between_sets_None a b) Eab).
Qed.

Lemma insert_by_perm {A} (leb : A -> A -> bool) x xs : insert_by leb x xs ≡ₚ x :: xs.
Proof.
  induction xs as [|y xs IH]; simpl; [done|].
  destruct (leb y x); [|done]. rewrite IH. apply Permutation_swap.
Qed.

Lemma sort_by_perm {A} (leb : A -> A -> bool) xs : sort_by leb xs ≡ₚ xs.
Proof.
  unfold sort_by.
  assert (forall acc, foldl (fun acc x => insert_by leb x acc) acc xs ≡ₚ (acc ++ xs)%list) as H.
  { induction xs as [|x xs IH]; intros acc; simpl; [by rewrite app_nil_r|].
    rewrite IH, insert_by_perm. simpl. apply Permutation_middle. }
  apply H.
Qed.

Lemma unique_NoDup `{EqDecision A} (xs : list A) : NoDup (unique xs).
Proof. apply unique_from_NoDup. Qed.

Lemma sorted_set_spec xs : NoDup (sorted_set xs) /\ forall x, x ∈ sorted_set xs <-> x ∈ xs.
Proof.
  unfold sorted_set, sorted. split.
  - rewrite sort_by_perm. apply unique_NoDup.
  - intros x. by rewrite sort_by_elem, unique_elem.
Qed.

Lemma pairs_of_distinct {A} (l : list A) x y :
  NoDup l -> ((x, y) ∈ pairs_of l \/ (y, x) ∈ pairs_of l <-> x ∈ l /\ y ∈ l /\ x ≠ y).
Proof.
  intros Hnd. rewrite !pairs_of_lookup. split.
  - intros [(i & j & Hij & Hi & Hj) | (i & j & Hij & Hi & Hj)];
      (split; [by eapply list_elem_of_lookup_2|]); (split; [by eapply list_elem_of_lookup_2|]);
      intros ->; pose proof (NoDup_lookup _ _ _ _ Hnd Hi Hj); lia.
  - intros ([i Hi]%list_elem_of_lookup & [j Hj]%list_elem_of_lookup & Hne).
    destruct (Nat.lt_trichotomy i j) as [Hlt | [-> | Hgt]].
    + left. by exists i, j.
    + congruence.
    + right. by exists j, i.
Qed.

Lemma pairwise_minimum seqs :
  _min_pairwise_hamming seqs
  = minimum (omap (fun xy => hamming (Some xy.1) (Some xy.2)) (pairs_of (sorted_set seqs))).
Proof.
  unfold _min_pairwise_hamming. case_bool_decide as Hn.
  - destruct (sorted_set seqs) as [|a [|b l]]; simpl in Hn; try lia; done.
  - by rewrite foldl_hamming_step, foldl_min_update.
Qed.

Lemma pairwise_least seqs d :
  _min_pairwise_hamming seqs = Some d
  <-> least (fun d => exists x y, x ∈ seqs /\ y ∈ seqs /\ x ≠ y
                                  /\ hamming (Some x) (Some y) = Some d) d.
Proof.
  rewrite pairwise_minimum, minimum_least. apply least_ext. intros n.
  destruct (sorted_set_spec seqs) as [Hnd Hel].
  rewrite list_elem_of_omap. split.
  - intros ([x y] & Hin & Hd). simpl in Hd.
    assert ((x, y) ∈ pairs_of (sorted_set seqs) \/ (y, x) ∈ pairs_of (sorted_set seqs)) as Hp
      by by left.
    apply (pairs_of_distinct _ _ _ Hnd) in Hp as (Hx & Hy & Hne).
    exists x, y. by rewrite <- !Hel.
  - intros (x & y & Hx & Hy & Hne & Hd).
    assert (x ∈ sorted_set seqs /\ y ∈ sorted_set seqs /\ x ≠ y) as Hp by by rewrite !Hel.
    apply (pairs_of_distinct _ _ _ Hnd) in Hp as [Hp | Hp].
    + by exists (x, y).
    + exists (y, x). split; [done|]. simpl. by rewrite hamming_sym.
Qed.

(** X19. The pairwise distance of a list of sequences is the least
    Hamming distance of two different sequences of the list, pairs
    without a distance skipped; repeats of a sequence do not count, and
    there is none exactly when no two different sequences have a
    distance. *)
Theorem X19_min_pairwise_hamming (seqs : list string) :
  (forall d,
     _min_pairwise_hamming seqs = Some d
     <-> least (fun d => exists x y, x ∈ seqs /\ y ∈ seqs /\ x ≠ y
                                     /\ hamming (Some x) (Some y) = Some d) d)
  /\ (_min_pairwise_hamming seqs = None
      <-> forall x y, x ∈ seqs -> y ∈ seqs -> x ≠ y -> hamming (Some x) (Some y) = None).
Proof.
  split; [apply pairwise_least|]. split.
  - intros Hnone x y Hx Hy Hne.
    destruct (hamming (Some x) (Some y)) as [d|] eqn:E; [|done]. exfalso.
    rewrite pairwise_minimum, minimum_None in Hnone.
    destruct (sorted_set_spec seqs) as [Hnd Hel].
    assert (x ∈ sorted_set seqs /\ y ∈ sorted_set seqs /\ x ≠ y) as Hp by by rewrite !Hel.
    assert (d ∈ omap (fun xy : string * string => hamming (Some xy.1) (Some xy.2))
                     (pairs_of (sorted_set seqs))) as Hd.
    { apply list_elem_of_omap.
      apply (pairs_of_distinct _ _ _ Hnd) in Hp as [Hp | Hp].
      - by exists (x, y).
      - exists (y, x). split; [done|]. simpl. by rewrite hamming_sym. }
    rewrite Hnone in Hd. by apply elem_of_nil in Hd.
  - intros Hall. destruct (_min_pairwise_hamming seqs) as [d|] eqn:E; [|done].
    apply pairwise_least in E as [(x & y & Hx & Hy & Hne & Hd) _].
    by rewrite (Hall x y Hx Hy Hne) in Hd.
Qed.

(** ** validate.py: what the lane validator reports *)

Lemma policy_shape l o pp mm :
  (dual_policy l o = (pp, mm) \/ mixed_policy l o = (pp, mm) \/ single_policy l o = (pp, mm)
   \/ (([] : list Problem), DEFAULT_BARCODE_MISMATCHES) = (pp, mm)) ->
  Forall (lane_report WARN l) pp /\ ((mm = 0 /\ pp ≠ []) \/ (mm = 1 /\ pp = [])).
Proof.
  unfold dual_policy, mixed_policy, single_policy. destruct o as [d|]; simpl.
  - repeat case_bool_decide; simpl; intros [Hp | [Hp | [Hp | Hp]]]; injection Hp as <- <-;
      (split; [repeat constructor | auto]).
  - intros [Hp | [Hp | [Hp | Hp]]]; injection Hp as <- <-; (split; [constructor | auto]).
Qed.

Lemma dual_pair_problems_report l td A B idxs :
  Forall (lane_report ERROR l) (dual_pair_problems l td A B idxs).
Proof.
  apply Forall_forall. intros p. unfold dual_pair_problems.
  destruct (any _); [|by intros ?%elem_of_nil].
  intros (q & -> & _)%list_elem_of_fmap. done.
Qed.

Lemma single_i7_problems_report l td A idxs :
  Forall (lane_report ERROR l) (single_i7_problems l td A idxs).
Proof.
  apply Forall_forall. intros p. unfold single_i7_problems.
  intros (ps & Hp & (i & -> & _)%list_elem_of_fmap)%elem_of_concat.
  case_bool_decide; [|by apply elem_of_nil in Hp].
  by apply list_elem_of_singleton in Hp as ->.
Qed.

(** A lane's verdict: ERRORs, then the WARN of the distance policy, if
    any, and the tolerance that goes with it. *)
Lemma validate_lane_shape l td :
  exists pe pw,
    (validate_lane l td).1 = (pe ++ pw)%list
    /\ Forall (lane_report ERROR l) pe
    /\ Forall (lane_report WARN l) pw
    /\ (((validate_lane l td).2 = 0 /\ pw ≠ []) \/ ((validate_lane l td).2 = 1 /\ pw = [])).
Proof.
  unfold validate_lane. destruct (any _).
  - eexists [_], []. cbn [fst snd]. split; [done|]. split; [by repeat constructor|].
    split; [constructor|]. by right.
  - match goal with |- context [let '(_, _) := ?c in _] => destruct c as [pp mm] eqn:Ec end.
    assert (Forall (lane_report WARN l) pp /\ ((mm = 0 /\ pp ≠ []) \/ (mm = 1 /\ pp = [])))
      as [Hw Hcase].
    { revert Ec.
      repeat match goal with |- context [if ?b then _ else _] => destruct b end;
        intros Ec;
        first [ eapply policy_shape; left; exact Ec
              | eapply policy_shape; right; left; exact Ec
              | eapply policy_shape; right; right; left; exact Ec
              | apply (policy_shape l None); right; right; right; exact Ec ]. }
    clear Ec. cbn [fst snd].
    match goal with
    | |- context [((if ?b1 then ?d else []) ++ (if ?b2 then ?s else []) ++ pp)%list] =>
        exists ((if b1 then d else []) ++ (if b2 then s else []))%list, pp
    end.
    split; [by rewrite <- app_assoc|]. split; [|done].
    apply Forall_app. split.
    + destruct (bool_decide _); [apply dual_pair_problems_report | constructor].
    + destruct (bool_decide _); [apply single_i7_problems_report | constructor].
Qed.

Lemma lane_result df l :
  l ∈ map lane df ->
  (validate_indexes_per_lane df).2 !! l = Some (validate_lane l (lane_rows df l)).2
  /\ forall p,
       p ∈ (validate_lane l (lane_rows df l)).1
       <-> p ∈ (validate_indexes_per_lane df).1 /\ p_lane p = Some l.
Proof.
  intros Hl. destruct (validate_indexes_per_lane_lanes df) as [Hp Hm]. cbn zeta in Hp.
  split; [by rewrite Hm, bool_decide_eq_true_2|].
  intros p. rewrite Hp, elem_of_concat. split.
  - intros Hin. split; [|by eapply validate_lane_p_lane].
    eexists. split; [exact Hin|]. apply list_elem_of_fmap. exists l. split; [done|].
    by rewrite sort_by_elem, unique_elem.
  - intros [(ps & Hps & (l' & -> & _)%list_elem_of_fmap) Hlane].
    pose proof (validate_lane_p_lane _ _ _ Hps) as Hl'.
    by replace l with l' by congruence.
Qed.

Lemma lane_mm_lane df l v :
  (validate_indexes_per_lane df).2 !! l = Some v -> l ∈ map lane df.
Proof.
  destruct (validate_indexes_per_lane_lanes df) as [_ Hm]. rewrite Hm.
  case_bool_decide; done.
Qed.

(** X20. The lane validator reports only ERRORs and WARNs, each for a
    lane of the table and without a sample ID; the tolerance of a lane
    is 0 or 1, and it is 0 exactly when a WARN is reported for the
    lane. *)
Theorem X20_lane_tolerance (df : list (Row Z)) :
  let probs := (validate_indexes_per_lane df).1 in
  let lane_mm := (validate_indexes_per_lane df).2 in
  (forall p, p ∈ probs ->
     exists r, r ∈ df /\ (lane_report ERROR (lane r) p \/ lane_report WARN (lane r) p))
  /\ (forall l v, lane_mm !! l = Some v ->
        (v = 0 \/ v = 1)
        /\ (v = 0 <-> exists p, p ∈ probs /\ level p = WARN /\ p_lane p = Some l)).
Proof.
  cbn zeta. split.
  - intros p Hp.
    destruct (validate_indexes_per_lane_lanes df) as [Hps _]. cbn zeta in Hps.
    pose proof Hp as Hp'. rewrite Hps in Hp'.
    apply elem_of_concat in Hp' as (ps & Hin & (l & -> & Hl)%list_elem_of_fmap).
    rewrite sort_by_elem, unique_elem in Hl.
    change (map lane df) with (lane <$> df) in Hl.
    apply list_elem_of_fmap in Hl as (r & -> & Hr).
    exists r. split; [done|].
    destruct (validate_lane_shape (lane r) (lane_rows df (lane r)))
      as (pe & pw & Heq & He & Hw & _).
    rewrite Heq in Hin. apply elem_of_app in Hin as [Hin | Hin].
    + left. by apply (proj1 (Forall_forall _ _) He).
    + right. by apply (proj1 (Forall_forall _ _) Hw).
  - intros l v Hv. pose proof (lane_mm_lane _ _ _ Hv) as Hl.
    destruct (lane_result df l Hl) as [Hmm Hin]. rewrite Hmm in Hv. injection Hv as <-.
    destruct (validate_lane_shape l (lane_rows df l)) as (pe & pw & Heq & He & Hw & Hcase).
    split; [destruct Hcase as [[-> _] | [-> _]]; auto|].
    split.
    + intros H0. destruct Hcase as [[_ Hne] | [H1 _]]; [|congruence].
      destruct pw as [|p pw]; [done|]. exists p.
      apply Forall_cons in Hw as [(Hlv & Hlane & _) _].
      split; [|done]. apply Hin. rewrite Heq. apply elem_of_app. right. left.
    + intros (p & Hp & Hlv & Hlane).
      assert (p ∈ (validate_lane l (lane_rows df l)).1) as Hp' by (by apply Hin).
      rewrite Heq in Hp'. apply elem_of_app in Hp' as [Hp' | Hp'].
      * destruct (proj1 (Forall_forall _ _) He p Hp') as (Hlv' & _). congruence.
      * destruct Hcase as [[H0 _] | [_ ->]]; [done | by apply elem_of_nil in Hp'].
Qed.

(** ** validate.py: lanes with single-index samples *)

Lemma omap_id_map {A B} (f : A -> option B) (l : list A) : omap id (map f l) = omap f l.
Proof. induction l as [|x l IH]; [done|]. csimpl. rewrite IH. by destruct (f x). Qed.

Lemma select_map {A B} (f : A -> B) xs mask : select (map f xs) mask = map f (select xs mask).
Proof.
  revert mask. induction xs as [|x xs IH]; intros [|b mask]; simpl; try done.
  destruct b; simpl; by rewrite IH.
Qed.

Lemma select_positions (A : list string) mask :
  List.length mask = List.length A ->
  map (at_index A) (select (seq 0 (List.length mask)) mask) = select A mask.
Proof.
  revert mask. induction A as [|a A IH]; intros [|b mask]; simpl; try done.
  intros [= Hl]. rewrite <- fmap_S_seq.
  change (S <$> seq 0 (List.length mask)) with (map S (seq 0 (List.length mask))).
  rewrite select_map. destruct b; simpl; rewrite map_map; cbn [at_index]; simpl;
    by rewrite <- (IH mask Hl).
Qed.

Lemma select_length {A B} (xs : list A) (ys : list B) mask :
  List.length xs = List.length ys ->
  List.length (select xs mask) = List.length (select ys mask).
Proof.
  revert ys mask. induction xs as [|x xs IH]; intros [|y ys] [|b mask]; simpl; try done.
  intros [= Hl]. destruct b; simpl; by rewrite (IH ys mask Hl).
Qed.

Lemma positive_length {A} (l : list A) : bool_decide (0 < List.length l)%nat = negb (bool_decide (l = [])).
Proof.
  destruct l; [done|]. rewrite bool_decide_eq_true_2 by (simpl; lia).
  by rewrite bool_decide_eq_false_2.
Qed.

Lemma Forall_if {A} (P : A -> Prop) (b : bool) (l : list A) :
  Forall P l -> Forall P (if b then l else []).
Proof. destruct b; [done | constructor]. Qed.

Lemma lane_errors_report l td : Forall (lane_report ERROR l) (lane_errors l td).
Proof.
  apply Forall_app. split; apply Forall_if;
    [apply dual_pair_problems_report | apply single_i7_problems_report].
Qed.

Lemma validate_lane_present l td :
  Forall (fun r => is_Some (normalize_seq (i7 r))) td ->
  let A := trimmed (lane_i7 td) in
  let S := single_rows_i7 td in
  let D := dual_rows_i7 td in
  exists pol,
    validate_lane l td = ((lane_errors l td ++ pol.1)%list, pol.2)
    /\ Forall (lane_report WARN l) pol.1
    /\ (S ≠ [] -> D ≠ [] -> pol = mixed_policy l (_min_hamming_between_sets S D))
    /\ (S ≠ [] -> D = [] -> pol = single_policy l (_min_pairwise_hamming A)).
Proof.
  intros H7 A S D. unfold validate_lane.
  rewrite (map_Some_omap _ _ H7). fold (lane_i7 td).
  rewrite !omap_id_Some, omap_id_map, !map_map. fold (lane_i5 td). fold (lane_i5_by_row td).
  assert (any (map (fun x : string => bool_decide (Some x = None)) (lane_i7 td)) = false) as ->.
  { apply any_map_false. by apply Forall_forall. }
  fold (trimmed (lane_i7 td)). fold A.
  assert (map (fun x : Row Z => bool_decide (normalize_seq (i5 x) = None)) td
          = map (fun r => negb (present (i5 r))) td) as ->.
  { apply map_ext. intros r. unfold present. by destruct (normalize_seq (i5 r)). }
  assert (map (fun x : Row Z => negb (bool_decide (normalize_seq (i5 x) = None))) td
          = map (fun r => present (i5 r)) td) as ->.
  { apply map_ext. intros r. unfold present. by destruct (normalize_seq (i5 r)). }
  assert (HA : List.length A = List.length td).
  { unfold A, trimmed. rewrite length_map. by apply length_omap_all. }
  rewrite (length_map (fun r => negb (present (i5 r)))).
  fold (dual_positions td). fold (single_positions td).
  set (ms := map (fun r => negb (present (i5 r))) td).
  set (md := map (fun r => present (i5 r)) td).
  assert (Hms : List.length ms = List.length A) by (unfold ms; by rewrite length_map).
  assert (Hmd : List.length md = List.length A) by (unfold md; by rewrite length_map).
  assert (map (at_index A) (single_positions td) = S) as ->.
  { unfold single_positions. fold ms. rewrite <- HA, <- Hms. by apply select_positions. }
  assert (map (at_index A) (dual_positions td) = D) as ->.
  { unfold dual_positions. fold md. rewrite <- HA, <- Hmd. by apply select_positions. }
  assert (List.length (single_positions td) = List.length S) as ->.
  { apply select_length. by rewrite length_seq. }
  assert (List.length (dual_positions td) = List.length D) as ->.
  { apply select_length. by rewrite length_seq. }
  rewrite !positive_length. rewrite trim_trimmed.
  assert (trimmed A = A) as -> by apply trimmed_idem.
  match goal with |- context [let '(_, _) := ?c in _] => destruct c as [pp mm] eqn:Ec end.
  exists (pp, mm). cbn [fst snd].
  split; [unfold lane_errors; fold A S D; by rewrite <- app_assoc|].
  split.
  { revert Ec.
    repeat match goal with |- context [if ?b then _ else _] => destruct b end;
      intros Ec;
      first [ exact (proj1 (policy_shape l _ pp mm (or_introl Ec)))
            | exact (proj1 (policy_shape l _ pp mm (or_intror (or_introl Ec))))
            | exact (proj1 (policy_shape l _ pp mm (or_intror (or_intror (or_introl Ec)))))
            | exact (proj1 (policy_shape l None pp mm
                              (or_intror (or_intror (or_intror Ec))))) ]. }
  split.
  - intros HS HD. rewrite !bool_decide_eq_false_2 in Ec by done. by cbn [negb andb] in Ec.
  - intros HS HD. rewrite (bool_decide_eq_false_2 _ HS), (bool_decide_eq_true_2 _ HD) in Ec.
    by cbn [negb andb] in Ec.
Qed.

Lemma select_nonempty {A} (xs : list A) mask :
  List.length mask = List.length xs ->
  (select xs mask ≠ [] <-> Exists (fun b => b = true) mask).
Proof.
  revert mask. induction xs as [|x xs IH]; intros [|b mask]; simpl; try done.
  - intros _. split; [done | by intros ?%Exists_nil].
  - intros [= Hl]. rewrite Exists_cons. destruct b.
    + split; [by left | done].
    + rewrite (IH mask Hl). split; [by right | by intros [? | ?]].
Qed.

Lemma present_is_Some (td : list (Row Z)) :
  Forall (fun r => present (i7 r) = true) td ->
  Forall (fun r => is_Some (normalize_seq (i7 r))) td.
Proof.
  intros H. eapply Forall_impl; [exact H|]. intros r. unfold present.
  destruct (normalize_seq (i7 r)); [by eexists | done].
Qed.

Lemma trimmed_lane_length (td : list (Row Z)) :
  Forall (fun r => present (i7 r) = true) td ->
  List.length (trimmed (lane_i7 td)) = List.length td.
Proof.
  intros H%present_is_Some. unfold trimmed. rewrite length_map. by apply length_omap_all.
Qed.

Lemma single_rows_nonempty (td : list (Row Z)) :
  Forall (fun r => present (i7 r) = true) td ->
  (single_rows_i7 td ≠ [] <-> Exists (fun r => present (i5 r) = false) td).
Proof.
  intros H. unfold single_rows_i7. rewrite select_nonempty.
  - rewrite Exists_fmap. split; intros H'; (eapply Exists_impl; [exact H'|]);
      intros r; simpl; by destruct (present (i5 r)).
  - rewrite length_map. symmetry. by apply trimmed_lane_length.
Qed.

Lemma dual_rows_nonempty (td : list (Row Z)) :
  Forall (fun r => present (i7 r) = true) td ->
  (dual_rows_i7 td ≠ [] <-> Exists (fun r => present (i5 r) = true) td).
Proof.
  intros H. unfold dual_rows_i7. rewrite select_nonempty.
  - by rewrite Exists_fmap.
  - rewrite length_map. symmetry. by apply trimmed_lane_length.
Qed.

(** What the validator returns for a lane with a known policy verdict. *)
Lemma lane_policy_verdict df l pe pol :
  lane_rows df l ≠ [] ->
  validate_lane l (lane_rows df l) = ((pe ++ pol.1)%list, pol.2) ->
  Forall (lane_report ERROR l) pe ->
  (validate_indexes_per_lane df).2 !! l = Some pol.2
  /\ (forall p, p ∈ pol.1 -> p ∈ (validate_indexes_per_lane df).1)
  /\ (forall p, p ∈ (validate_indexes_per_lane df).1 -> p_lane p = Some l ->
                level p = WARN -> p ∈ pol.1).
Proof.
  intros Hne Hv He. pose proof (lane_rows_lane _ _ Hne) as Hl.
  destruct (lane_result df l Hl) as [Hmm Hin]. rewrite Hv in Hmm, Hin. cbn [fst snd] in *.
  split; [done|]. split.
  - intros p Hp. apply (Hin p). apply elem_of_app. by right.
  - intros p Hp Hlane Hlv.
    assert (p ∈ (pe ++ pol.1)%list) as [Hpe | ?]%elem_of_app by (by apply Hin); [|done].
    destruct (proj1 (Forall_forall _ _) He p Hpe) as (Hlv' & _). congruence.
Qed.

(** X21. A lane in which every row has an i7 sequence, some row has no
    i5 sequence and some row has one: the validator takes the least
    Hamming distance between the lane-trimmed i7 of a single-index row
    and that of a dual-index row. If it is 1, 2 or 0 the lane's
    tolerance is 0 and a WARN with the code of that case is emitted; if
    it is 3 or more, or if there is none, the lane keeps the default
    tolerance 1 and no WARN is emitted for it. *)
Theorem X21_mixed_lane (df : list (Row Z)) (l : Z) :
  let td := lane_rows df l in
  Forall (fun r => present (i7 r) = true) td ->
  Exists (fun r => present (i5 r) = false) td ->
  Exists (fun r => present (i5 r) = true) td ->
  let probs := (validate_indexes_per_lane df).1 in
  let lane_mm := (validate_indexes_per_lane df).2 in
  (mixed_distance td 1 ->
   lane_mm !! l = Some 0
   /\ exists p, p ∈ probs /\ lane_problem WARN "MIXED_LANE_I7_TOO_SIMILAR_HAMMING_1" l p)
  /\ (mixed_distance td 2 ->
      lane_mm !! l = Some 0
      /\ exists p, p ∈ probs /\ lane_problem WARN "MIXED_LANE_I7_SIMILAR_HAMMING_2" l p)
  /\ (mixed_distance td 0 ->
      lane_mm !! l = Some 0
      /\ exists p, p ∈ probs /\ lane_problem WARN "MIXED_LANE_I7_TOO_SIMILAR" l p)
  /\ ((forall d, mixed_distance td d -> (3 <= d)%nat) ->
      lane_mm !! l = Some 1
      /\ forall p, p ∈ probs -> p_lane p = Some l -> level p ≠ WARN).
Proof.
  intros td H7 Hs Hd probs lane_mm.
  assert (td ≠ []) as Hne by (intros E; rewrite E in Hs; by apply Exists_nil in Hs).
  apply (single_rows_nonempty td H7) in Hs. apply (dual_rows_nonempty td H7) in Hd.
  destruct (validate_lane_present l td (present_is_Some _ H7)) as (pol & Hv & _ & Hmix & _).
  pose proof (lane_errors_report l td) as He.
  specialize (Hmix Hs Hd).
  destruct (lane_policy_verdict df l _ pol Hne Hv He) as (Hmm & Hin & Hout).
  fold probs in Hin, Hout. fold lane_mm in Hmm.
  assert (Hdist : forall d, mixed_distance td d <->
                    _min_hamming_between_sets (single_rows_i7 td) (dual_rows_i7 td) = Some d).
  { intros d. symmetry. apply between_sets_least. }
  rewrite Hmix in Hmm, Hin, Hout.
  split; [|split; [|split]].
  - intros Hm%Hdist. rewrite Hm in *. split; [done|].
    eexists. split; [apply Hin; left|]. by repeat split.
  - intros Hm%Hdist. rewrite Hm in *. split; [done|].
    eexists. split; [apply Hin; left|]. by repeat split.
  - intros Hm%Hdist. rewrite Hm in *. split; [done|].
    eexists. split; [apply Hin; left|]. by repeat split.
  - intros Hfar.
    assert (mixed_policy l (_min_hamming_between_sets (single_rows_i7 td) (dual_rows_i7 td))
            = ([], 1)) as Hp.
    { destruct (_min_hamming_between_sets _ _) as [d|] eqn:E; [|done].
      pose proof (Hfar d (proj2 (Hdist d) eq_refl)) as Hge. unfold mixed_policy.
      rewrite !bool_decide_eq_false_2; [done | | |];
        unfold HAMMING_OK_MIN, HAMMING_WARN, HAMMING_WARN_TIGHTEN; lia. }
    rewrite Hp in *. split; [done|].
    intros p Hp' Hlane Hlv. by apply (Hout p Hp' Hlane), elem_of_nil in Hlv.
Qed.

(** X22. A lane in which every row has an i7 sequence and none has an
    i5 sequence: the validator takes the least Hamming distance of two
    different lane-trimmed i7 sequences. If it is 1 or 2 the lane's
    tolerance is 0 and a WARN with the code of that distance is
    emitted; otherwise the lane keeps the default tolerance 1 and no
    WARN is emitted for it. *)
Theorem X22_single_index_lane (df : list (Row Z)) (l : Z) :
  let td := lane_rows df l in
  td ≠ [] ->
  Forall (fun r => present (i7 r) = true) td ->
  Forall (fun r => present (i5 r) = false) td ->
  let probs := (validate_indexes_per_lane df).1 in
  let lane_mm := (validate_indexes_per_lane df).2 in
  (single_distance td 1 ->
   lane_mm !! l = Some 0
   /\ exists p, p ∈ probs /\ lane_problem WARN "SINGLE_LANE_I7_TOO_SIMILAR_HAMMING_1" l p)
  /\ (single_distance td 2 ->
      lane_mm !! l = Some 0
      /\ exists p, p ∈ probs /\ lane_problem WARN "SINGLE_LANE_I7_SIMILAR_HAMMING_2" l p)
  /\ (~ single_distance td 1 -> ~ single_distance td 2 ->
      lane_mm !! l = Some 1
      /\ forall p, p ∈ probs -> p_lane p = Some l -> level p ≠ WARN).
Proof.
  intros td Hne H7 H5 probs lane_mm.
  assert (single_rows_i7 td ≠ []) as Hs.
  { apply (single_rows_nonempty td H7). destruct td as [|r td']; [done|].
    apply Forall_cons in H5 as [Hr _]. by left. }
  assert (dual_rows_i7 td = []) as Hd.
  { destruct (decide (dual_rows_i7 td = [])) as [|Hd]; [done|].
    apply (dual_rows_nonempty td H7) in Hd. apply Exists_exists in Hd as (r & Hr & Hp).
    rewrite (proj1 (Forall_forall _ _) H5 r Hr) in Hp. done. }
  destruct (validate_lane_present l td (present_is_Some _ H7)) as (pol & Hv & _ & _ & Hsin).
  pose proof (lane_errors_report l td) as He.
  specialize (Hsin Hs Hd).
  destruct (lane_policy_verdict df l _ pol Hne Hv He) as (Hmm & Hin & Hout).
  fold probs in Hin, Hout. fold lane_mm in Hmm.
  assert (Hdist : forall d, single_distance td d <->
                    _min_pairwise_hamming (trimmed (lane_i7 td)) = Some d).
  { intros d. symmetry. apply pairwise_least. }
  rewrite Hsin in Hmm, Hin, Hout.
  split; [|split].
  - intros Hm%Hdist. rewrite Hm in *. split; [done|].
    eexists. split; [apply Hin; left|]. by repeat split.
  - intros Hm%Hdist. rewrite Hm in *. split; [done|].
    eexists. split; [apply Hin; left|]. by repeat split.
  - intros H1 H2.
    assert (single_policy l (_min_pairwise_hamming (trimmed (lane_i7 td))) = ([], 1)) as Hp.
    { destruct (_min_pairwise_hamming _) as [d|] eqn:E; [|done].
      unfold single_policy.
      rewrite !bool_decide_eq_false_2; [done | |];
        unfold HAMMING_WARN, HAMMING_WARN_TIGHTEN; intros ->; [apply H2 | apply H1];
        by apply Hdist. }
    rewrite Hp in *. split; [done|].
    intros p Hp' Hlane Hlv. by apply (Hout p Hp' Hlane), elem_of_nil in Hlv.
Qed.

Lemma X21_witness :
  mixed_distance (lane_rows Lanes.mixed 4) 1
  /\ (validate_indexes_per_lane Lanes.mixed).2 !! 4 = Some 0.
Proof.
  assert (mixed_distance (lane_rows Lanes.mixed 4) 1) as Hm
    by (apply between_sets_least; reflexivity).
  split; [exact Hm|].
  destruct (X21_mixed_lane Lanes.mixed 4) as (H1 & _).
  - repeat constructor.
  - by left.
  - right. by left.
  - by destruct (H1 Hm) as [? _].
Defined.

Lemma X22_witness :
  single_distance (lane_rows Lanes.single 5) 2
  /\ (validate_indexes_per_lane Lanes.single).2 !! 5 = Some 0.
Proof.
  assert (single_distance (lane_rows Lanes.single 5) 2) as Hm
    by (apply pairwise_least; reflexivity).
  split; [exact Hm|].
  destruct (X22_single_index_lane Lanes.single 5) as (_ & H2 & _).
  - done.
  - repeat constructor.
  - repeat constructor.
  - by destruct (H2 Hm) as [? _].
Defined.


(** ** validate.py: sample IDs *)

Lemma all_in_lang_star p s : all_in p s = true -> lang (Re.Star (Re.Cls p)) s.
Proof.
  induction s as [|c s IH]; simpl; [intros _; constructor|].
  intros [Hc Hs]%andb_true_iff.
  change (String c s) with (String c EmptyString +:+ s).
  apply lang_star_app; [by constructor | by apply IH].
Qed.

Lemma fullmatch_plus_cls p s :
  Re.fullmatch (Re.Plus (Re.Cls p)) s = true <-> s ≠ EmptyString /\ all_in p s = true.
Proof.
  rewrite fullmatch_lang. split.
  - intros (c & w & -> & Hc & Hw)%lang_plus_cls. split; [done|]. simpl. by rewrite Hc, Hw.
  - intros [Hne Hall]. destruct s as [|c w]; [done|]. simpl in Hall.
    apply andb_true_iff in Hall as [Hc Hw].
    change (String c w) with (String c EmptyString +:+ w).
    apply lang_seq; [by constructor | by apply all_in_lang_star].
Qed.

Lemma drop_final_newline_cons c r :
  r ≠ EmptyString ->
  Re.drop_final_newline (String c r) = option_map (String c) (Re.drop_final_newline r).
Proof. by destruct r. Qed.

Lemma drop_final_newline_app s' :
  Re.drop_final_newline (s' +:+ String "010" EmptyString) = Some s'.
Proof.
  induction s' as [|x t IH]; [done|].
  rewrite sapp_cons, drop_final_newline_cons, IH; [done|].
  by intros [_ ?]%sapp_empty.
Qed.

Lemma drop_final_newline_Some s s' :
  Re.drop_final_newline s = Some s' <-> s = s' +:+ String "010" EmptyString.
Proof.
  split; [|intros ->; apply drop_final_newline_app].
  revert s'. induction s as [|c r IH]; intros s'; [done|].
  destruct (decide (r = EmptyString)) as [->|Hne].
  - simpl. destruct (Ascii.eqb c "010") eqn:E; [|done].
    apply Ascii.eqb_eq in E as ->. by intros [= <-].
  - rewrite drop_final_newline_cons by done.
    destruct (Re.drop_final_newline r) as [t|]; [|done].
    simpl. intros [= <-]. by rewrite sapp_cons, (IH t eq_refl).
Qed.

(** X23. The sample-ID pattern accepts exactly the well-formed IDs and
    the well-formed IDs followed by one line feed, which the closing
    [$] lets pass; on a stripped ID, as minimal normalization leaves
    it, it accepts exactly the well-formed IDs. *)
Theorem X23_sample_id_pattern (s : string) :
  (Re.match_anchored SAMPLE_ID_ALLOWED s = true
   <-> sid_well_formed s
       \/ exists s', s = s' +:+ String "010" EmptyString /\ sid_well_formed s')
  /\ (Re.match_anchored SAMPLE_ID_ALLOWED (strip s) = true <-> sid_well_formed (strip s)).
Proof.
  split.
  - unfold Re.match_anchored, SAMPLE_ID_ALLOWED. rewrite orb_true_iff, fullmatch_plus_cls.
    split.
    + intros [H | H]; [by left|]. right.
      destruct (Re.drop_final_newline s) as [s'|] eqn:E; [|done].
      exists s'. split; [by apply drop_final_newline_Some|]. by apply fullmatch_plus_cls.
    + intros [H | (s' & Hs & Hw)]; [by left|]. right.
      apply drop_final_newline_Some in Hs. rewrite Hs. by apply fullmatch_plus_cls.
  - rewrite match_anchored_strip. apply fullmatch_plus_cls.
Qed.

Lemma select_mask_filter {A} (f : A -> bool) (xs : list A) :
  select xs (map f xs) = filter (fun x => f x = true) xs.
Proof.
  induction xs as [|x xs IH]; [done|]. simpl. rewrite filter_cons, IH.
  destruct (f x) eqn:E.
  - by rewrite decide_True.
  - by rewrite decide_False.
Qed.

Lemma select_mask_nil {A} (f : A -> bool) (xs : list A) :
  select xs (map f xs) = [] <-> Forall (fun x => f x = false) xs.
Proof.
  rewrite select_mask_filter, filter_nil_Forall.
  split; intros H; (eapply Forall_impl; [exact H|]); intros x; simpl; by destruct (f x).
Qed.

Lemma concat_nil_Forall {A} (ls : list (list A)) :
  concat ls = [] <-> Forall (fun l => l = []) ls.
Proof.
  induction ls as [|l ls IH]; simpl; [split; [constructor | done]|].
  rewrite Forall_cons, <- IH. split.
  - by intros [? ?]%app_eq_nil.
  - by intros [-> ->].
Qed.

Lemma map_nil_iff {A B} (f : A -> B) (l : list A) : map f l = [] <-> l = [].
Proof. by destruct l. Qed.

Lemma sorted_set_nil xs : sorted_set xs = [] <-> xs = [].
Proof.
  destruct (sorted_set_spec xs) as [_ Hel]. split.
  - intros E. destruct xs as [|x xs]; [done|].
    assert (x ∈ sorted_set (x :: xs)) as Hx by (apply Hel; left).
    rewrite E in Hx. by apply elem_of_nil in Hx.
  - by intros ->.
Qed.

Lemma duplicates_nil `{EqDecision A} (xs : list A) :
  select xs (duplicated_all xs) = [] <-> NoDup xs.
Proof.
  unfold duplicated_all. rewrite select_mask_nil, <- count_le_one_NoDup.
  split; intros H; (eapply Forall_impl; [exact H|]); intros x Hx; simpl in *.
  - apply bool_decide_eq_false in Hx. lia.
  - apply bool_decide_eq_false_2. lia.
Qed.

Lemma unique_at_most_one `{EqDecision A} (xs : list A) :
  ~ (1 < List.length (unique xs))%nat <-> forall x y, x ∈ xs -> y ∈ xs -> x = y.
Proof.
  pose proof (unique_NoDup xs) as Hnd. split.
  - intros Hlen x y Hx%unique_elem Hy%unique_elem.
    destruct (unique xs) as [|a [|b l]]; simpl in Hlen; [by apply elem_of_nil in Hx | | lia].
    apply list_elem_of_singleton in Hx, Hy. congruence.
  - intros Hall Hlen.
    destruct (unique xs) as [|a [|b l]] eqn:E; simpl in Hlen; try lia.
    assert (a ∈ xs) as Ha by (apply unique_elem; rewrite E; left).
    assert (b ∈ xs) as Hb by (apply unique_elem; rewrite E; right; left).
    rewrite (Hall a b Ha Hb) in Hnd.
    apply NoDup_cons in Hnd as [Hnot _]. apply Hnot. left.
Qed.

(** X24. The sample-ID validator reports only ERRORs, each with a
    sample ID; and it reports nothing exactly when every sample ID
    matches the pattern, no lane has a sample ID twice, and no sample
    ID stands with two projects. *)
Theorem X24_sample_ids (df : list (Row Z)) :
  (forall p, p ∈ validate_sample_ids df -> level p = ERROR /\ is_Some (p_sample_id p))
  /\ (validate_sample_ids df = []
      <-> Forall (fun r => Re.match_anchored SAMPLE_ID_ALLOWED (sid_of r) = true) df
          /\ (forall l, NoDup (map sid_of (lane_rows df l)))
          /\ (forall r1 r2, r1 ∈ df -> r2 ∈ df -> sid_of r1 = sid_of r2 ->
                str (project_id r1) = str (project_id r2))).
Proof.
  unfold validate_sample_ids. fold sid_of. split.
  - intros p. rewrite !elem_of_app.
    intros [Hp | [Hp | Hp]].
    + apply list_elem_of_fmap in Hp as (r & -> & _). split; [done | by eexists].
    + apply elem_of_concat in Hp as (ps & Hp & ([l td] & -> & _)%list_elem_of_fmap).
      apply list_elem_of_fmap in Hp as (sid & -> & _). split; [done | by eexists].
    + apply list_elem_of_fmap in Hp as (sid & -> & _). split; [done | by eexists].
  - split.
    + intros [H1 [H2 H3]%app_eq_nil]%app_eq_nil. split; [|split].
      * apply map_nil_iff, select_mask_nil in H1.
        eapply Forall_impl; [exact H1|]. intros r Hr. by apply negb_false_iff in Hr.
      * intros l. destruct (decide (l ∈ map lane df)) as [Hl|Hl].
        -- rewrite concat_nil_Forall in H2.
           assert ((l, lane_rows df l) ∈ groupby_lane df) as Hg.
           { unfold groupby_lane. apply list_elem_of_fmap. exists l. split; [done|].
             by rewrite sort_by_elem, unique_elem. }
           rewrite Forall_fmap in H2.
           pose proof (proj1 (Forall_forall _ _) H2 _ Hg) as Hg'. simpl in Hg'.
           by apply map_nil_iff, sorted_set_nil, duplicates_nil in Hg'.
        -- assert (lane_rows df l = []) as ->; [|constructor].
           destruct (lane_rows df l) eqn:E; [done|]. destruct Hl. apply lane_rows_lane.
           by rewrite E.
      * intros r1 r2 Hr1 Hr2 Hsid.
        apply map_nil_iff, filter_nil_Forall in H3.
        assert (sid_of r1 ∈ sorted_set (map sid_of df)) as Hin.
        { apply sorted_set_spec. apply list_elem_of_fmap. by exists r1. }
        pose proof (proj1 (Forall_forall _ _) H3 _ Hin) as Hone.
        apply unique_at_most_one with (x := str (project_id r1)) (y := str (project_id r2))
          in Hone; [done| |]; apply list_elem_of_fmap;
          [exists r1 | exists r2]; (split; [done|]); by apply list_elem_of_filter.
    + intros (H1 & H2 & H3).
      assert (forall (a b c : list Problem), a = [] -> b = [] -> c = [] -> (a ++ b ++ c)%list = [])
        as Happ by (by intros a b c -> -> ->).
      apply Happ.
      * apply map_nil_iff, select_mask_nil.
        eapply Forall_impl; [exact H1|]. intros r Hr. by apply negb_false_iff.
      * apply concat_nil_Forall, Forall_fmap, Forall_forall.
        intros [l td] Hg. simpl.
        unfold groupby_lane in Hg. apply list_elem_of_fmap in Hg as (l' & [= -> ->] & _).
        apply map_nil_iff, sorted_set_nil, duplicates_nil. apply H2.
      * apply map_nil_iff, filter_nil_Forall, Forall_forall.
        intros sid _. apply unique_at_most_one.
        intros x y (r1 & -> & [Hs1 Hr1]%list_elem_of_filter)%list_elem_of_fmap
                   (r2 & -> & [Hs2 Hr2]%list_elem_of_filter)%list_elem_of_fmap.
        apply H3; [done | done |]. cbv beta in Hs1, Hs2. unfold sid_of. congruence.
Qed.


(** ** context.py: the map specifications *)

Lemma split_on_nonempty c s : split_on c s ≠ [].
Proof.
  induction s as [|x r IH]; simpl; [done|].
  destruct (Ascii.eqb x c); [done|]. by destruct (split_on c r).
Qed.

Lemma split_on_field f : no_colon f = true -> split_on ":" f = [f].
Proof.
  unfold no_colon. induction f as [|x r IH]; simpl; [done|].
  intros [Hx Hr]%andb_true_iff. apply negb_true_iff in Hx. rewrite Hx.
  by rewrite (IH Hr).
Qed.

Lemma split_on_app f rest :
  no_colon f = true -> split_on ":" (f +:+ String ":" rest) = f :: split_on ":" rest.
Proof.
  unfold no_colon. induction f as [|x r IH]; [done|]. rewrite sapp_cons. simpl.
  intros [Hx Hr]%andb_true_iff. apply negb_true_iff in Hx. rewrite Hx.
  by rewrite (IH Hr).
Qed.

(** What [split] returns: fields without the separator whose join is
    the string. *)
Lemma join_cons sep x y ys : join sep (x :: y :: ys) = x +:+ sep +:+ join sep (y :: ys).
Proof. done. Qed.

Lemma split_on_spec s :
  Forall (fun f => no_colon f = true) (split_on ":" s)
  /\ join ":" (split_on ":" s) = s.
Proof.
  unfold no_colon. induction s as [|x r [IH1 IH2]]; simpl; [by repeat constructor|].
  pose proof (split_on_nonempty ":" r) as Hne.
  destruct (split_on ":" r) as [|t ts]; [done|].
  destruct (Ascii.eqb x ":") eqn:E.
  - apply Ascii.eqb_eq in E as ->. split; [by constructor|].
    by rewrite join_cons, IH2.
  - apply Forall_cons in IH1 as [Ht Hts]. split.
    + constructor; [|done]. simpl. by rewrite E, Ht.
    + rewrite <- IH2. destruct ts as [|u us]; [done|]. by rewrite !join_cons, sapp_cons.
Qed.

Lemma all_in_lstrip p s : all_in p s = true -> all_in p (lstrip s) = true.
Proof.
  induction s as [|c r IH]; simpl; [done|]. intros H.
  destruct (isspace c); [|done]. apply andb_true_iff in H as [_ H]. by apply IH.
Qed.

Lemma all_in_rstrip p s : all_in p s = true -> all_in p (rstrip s) = true.
Proof.
  induction s as [|c r IH]; simpl; [done|]. intros [Hc Hr]%andb_true_iff.
  destruct (isspace c && is_empty (rstrip r)); [done|]. simpl. by rewrite Hc, IH.
Qed.

Lemma no_colon_strip f : no_colon f = true -> no_colon (strip f) = true.
Proof. intros H. unfold strip. by apply all_in_lstrip, all_in_rstrip. Qed.

Lemma is_empty_false s : is_empty s = false <-> s ≠ EmptyString.
Proof. by destruct s. Qed.

(** X25. The parsers of the map specifications accept exactly the texts
    of three (for a paired map, four) fields separated by colons, none
    of them blank, and return the fields stripped; so no returned field
    holds a colon, and a path that holds one is never accepted. *)
Theorem X25_parse_maps (spec : string) :
  (forall p i q,
     _parse_i7i5_map spec = inr (p, i, q)
     <-> exists f1 f2 f3,
           spec = f1 +:+ ":" +:+ f2 +:+ ":" +:+ f3
           /\ no_colon f1 = true /\ no_colon f2 = true /\ no_colon f3 = true
           /\ filled f1 /\ filled f2 /\ filled f3
           /\ p = strip f1 /\ i = strip f2 /\ q = strip f3)
  /\ (forall p i q, _parse_i7i5_map spec = inr (p, i, q) ->
        no_colon p = true /\ no_colon i = true /\ no_colon q = true)
  /\ (forall p k i q,
        _parse_pair_map spec = inr (p, k, i, q)
        <-> exists f1 f2 f3 f4,
              spec = f1 +:+ ":" +:+ f2 +:+ ":" +:+ f3 +:+ ":" +:+ f4
              /\ no_colon f1 = true /\ no_colon f2 = true /\ no_colon f3 = true
              /\ no_colon f4 = true
              /\ filled f1 /\ filled f2 /\ filled f3 /\ filled f4
              /\ p = strip f1 /\ k = strip f2 /\ i = strip f3 /\ q = strip f4).
Proof.
  assert (H3 : forall p i q,
     _parse_i7i5_map spec = inr (p, i, q)
     <-> exists f1 f2 f3,
           spec = f1 +:+ ":" +:+ f2 +:+ ":" +:+ f3
           /\ no_colon f1 = true /\ no_colon f2 = true /\ no_colon f3 = true
           /\ filled f1 /\ filled f2 /\ filled f3
           /\ p = strip f1 /\ i = strip f2 /\ q = strip f3).
  { intros p i q. unfold _parse_i7i5_map, filled. split.
    - destruct (split_on_spec spec) as [Hf Hj].
      destruct (split_on ":" spec) as [|f1 [|f2 [|f3 [|f4 fs]]]] eqn:E; try done.
      cbn [map].
      destruct (is_empty (strip f1)) eqn:E1; [done|].
      destruct (is_empty (strip f2)) eqn:E2; [done|].
      destruct (is_empty (strip f3)) eqn:E3; [done|].
      cbn [orb]. intros [= <- <- <-].
      apply Forall_cons in Hf as [Hf1 Hf]. apply Forall_cons in Hf as [Hf2 Hf].
      apply Forall_cons in Hf as [Hf3 _].
      exists f1, f2, f3. rewrite <- !is_empty_false. cbn [join] in Hj.
      repeat split; done.
    - intros (f1 & f2 & f3 & -> & Hf1 & Hf2 & Hf3 & N1 & N2 & N3 & -> & -> & ->).
      change (":" +:+ f2 +:+ ":" +:+ f3) with (String ":" (f2 +:+ String ":" f3)).
      rewrite (split_on_app _ _ Hf1), (split_on_app _ _ Hf2), (split_on_field _ Hf3).
      cbn [map]. apply is_empty_false in N1, N2, N3. by rewrite N1, N2, N3. }
  split; [exact H3|]. split.
  - intros p i q (f1 & f2 & f3 & _ & Hf1 & Hf2 & Hf3 & _ & _ & _ & -> & -> & ->)%H3.
    split; [|split]; by apply no_colon_strip.
  - intros p k i q. unfold _parse_pair_map, filled. split.
    + destruct (split_on_spec spec) as [Hf Hj].
      destruct (split_on ":" spec) as [|f1 [|f2 [|f3 [|f4 [|f5 fs]]]]] eqn:E; try done.
      cbn [map].
      destruct (is_empty (strip f1)) eqn:E1; [done|].
      destruct (is_empty (strip f2)) eqn:E2; [done|].
      destruct (is_empty (strip f3)) eqn:E3; [done|].
      destruct (is_empty (strip f4)) eqn:E4; [done|].
      cbn [orb]. intros [= <- <- <- <-].
      apply Forall_cons in Hf as [Hf1 Hf]. apply Forall_cons in Hf as [Hf2 Hf].
      apply Forall_cons in Hf as [Hf3 Hf]. apply Forall_cons in Hf as [Hf4 _].
      exists f1, f2, f3, f4. rewrite <- !is_empty_false. cbn [join] in Hj.
      repeat split; done.
    + intros (f1 & f2 & f3 & f4 & -> & Hf1 & Hf2 & Hf3 & Hf4 & N1 & N2 & N3 & N4
              & -> & -> & -> & ->).
      change (":" +:+ f2 +:+ ":" +:+ f3 +:+ ":" +:+ f4)
        with (String ":" (f2 +:+ String ":" (f3 +:+ String ":" f4))).
      rewrite (split_on_app _ _ Hf1), (split_on_app _ _ Hf2), (split_on_app _ _ Hf3),
        (split_on_field _ Hf4).
      cbn [map]. apply is_empty_false in N1, N2, N3, N4. by rewrite N1, N2, N3, N4.
Qed.

(** ** context.py: the written table *)

Lemma string_leb_trans (a b c : string) :
  String.leb a b = true -> String.leb b c = true -> String.leb a c = true.
Proof.
  unfold String.leb. revert b c.
  induction a as [|x a IH]; intros [|y b] [|z c]; simpl; try done.
  unfold Ascii.compare.
  destruct (N.compare_spec (N_of_ascii x) (N_of_ascii y)) as [Exy|Lxy|Gxy];
    destruct (N.compare_spec (N_of_ascii y) (N_of_ascii z)) as [Eyz|Lyz|Gyz];
    destruct (N.compare_spec (N_of_ascii x) (N_of_ascii z)) as [Exz|Lxz|Gxz];
    try done; try lia.
  apply IH.
Qed.

Lemma output_leb_le a b : output_leb a b = true <-> output_le a b.
Proof.
  unfold output_leb, output_le. rewrite orb_true_iff, andb_true_iff, Z.ltb_lt, Z.eqb_eq. done.
Qed.

Lemma output_le_total a b : output_leb a b = false -> output_le b a.
Proof.
  intros H. destruct (output_leb b a) eqn:E; [by apply output_leb_le|]. exfalso.
  unfold output_leb in *.
  apply orb_false_iff in H as [H1 H2]. apply orb_false_iff in E as [E1 E2].
  apply Z.ltb_ge in H1, E1. assert (lane a = lane b) as Hl by lia.
  rewrite Hl, Z.eqb_refl in H2. rewrite Hl, Z.eqb_refl in E2. simpl in *.
  destruct (String.leb_total (str (project_id a)) (str (project_id b))); congruence.
Qed.

Lemma output_le_trans a b c : output_le a b -> output_le b c -> output_le a c.
Proof.
  unfold output_le. intros [H1 | [H1 L1]] [H2 | [H2 L2]]; try (left; lia).
  right. split; [lia|]. by eapply string_leb_trans.
Qed.

Lemma insert_by_sorted x xs :
  StronglySorted output_le xs -> StronglySorted output_le (insert_by output_leb x xs).
Proof.
  induction 1 as [|y r Hr IH Hy]; simpl; [by repeat constructor|].
  destruct (output_leb y x) eqn:E.
  - constructor; [done|]. apply Forall_forall. intros z [-> | Hz]%insert_by_elem.
    + by apply output_leb_le.
    + by apply (proj1 (Forall_forall _ _) Hy).
  - apply output_le_total in E. constructor; [by constructor|].
    constructor; [done|]. eapply Forall_impl; [exact Hy|].
    intros z Hz. by eapply output_le_trans.
Qed.

Lemma sort_by_sorted xs : StronglySorted output_le (sort_by output_leb xs).
Proof.
  unfold sort_by.
  assert (forall acc, StronglySorted output_le acc ->
            StronglySorted output_le (foldl (fun acc x => insert_by output_leb x acc) acc xs)) as H.
  { induction xs as [|x xs IH]; intros acc Hacc; simpl; [done|].
    by apply IH, insert_by_sorted. }
  apply H. constructor.
Qed.

Lemma StronglySorted_lookup {A} (R : A -> A -> Prop) (l : list A) (i j : nat) a b :
  StronglySorted R l -> (i < j)%nat -> l !! i = Some a -> l !! j = Some b -> R a b.
Proof.
  intros Hs. revert i j. induction Hs as [|x l Hl IH Hx]; intros i j Hij Hi Hj; [done|].
  destruct i as [|i]; destruct j as [|j]; try lia.
  - simpl in Hi, Hj. injection Hi as ->.
    apply (proj1 (Forall_forall _ _) Hx). by eapply list_elem_of_lookup_2.
  - simpl in Hi, Hj. apply (IH i j); [lia | done | done].
Qed.

(** X26. Writing needs a resolved table: without one it raises the
    RuntimeError. With one, the written table has exactly the rows of
    the resolved table, ordered by lane and within a lane by project. *)
Theorem X26_write_output (self : RunContext) :
  (df_resolved self = None ->
   write_output self = inl (RuntimeError "No resolved DataFrame available to write."))
  /\ (forall df, df_resolved self = Some df ->
        exists out,
          write_output self = inr out
          /\ out ≡ₚ df
          /\ forall (i j : nat) a b,
               (i < j)%nat -> out !! i = Some a -> out !! j = Some b -> output_le a b).
Proof.
  unfold write_output. split; [by intros ->|].
  intros df ->. eexists. split; [reflexivity|]. split; [apply sort_by_perm|].
  intros i j a b. apply StronglySorted_lookup, sort_by_sorted.
Qed.

(** ** context.py: the lookups of a run *)

Lemma collect_inr {A B} (f : A -> Result B) xs ys :
  collect f xs = inr ys -> Forall (fun y => exists x, x ∈ xs /\ f x = inr y) ys.
Proof.
  revert ys. induction xs as [|x xs IH]; intros ys; simpl.
  - intros [= <-]. constructor.
  - intros (y & Hy & H)%rbind_inr. apply rbind_inr in H as (ys' & Hys & [= <-]).
    constructor.
    + exists x. split; [left | done].
    + eapply Forall_impl; [by apply IH|]. intros z (x' & Hx' & Hz). exists x'.
      split; [by right | done].
Qed.

Lemma collect_nil_inv {A B} (f : A -> Result B) xs : collect f xs = inr [] -> xs = [].
Proof.
  destruct xs as [|x xs]; [done|]. simpl.
  intros (y & Hy & H)%rbind_inr. by apply rbind_inr in H as (ys' & Hys & [= ]).
Qed.

Lemma merge_single_ok ls m :
  Forall lookup_ok ls -> merge_single_lookups ls = inr m -> lookup_ok m.
Proof.
  intros Hls Hm. apply (merge_from_inr single_collision_message) in Hm as [Hwf Hget].
  split; [apply Hwf; constructor|].
  intros k s [? | (d & Hd & Hin)]%Hget; [done|].
  destruct (proj1 (Forall_forall _ _) Hls d Hd) as [Hdwf Hdok].
  apply Hdok. by apply elem_dict_get.
Qed.

Lemma merge_pair_ok ls m :
  Forall pair_lookup_ok ls -> merge_pair_lookups ls = inr m -> pair_lookup_ok m.
Proof.
  intros Hls Hm. apply (merge_from_inr pair_collision_message) in Hm as [Hwf Hget].
  split; [apply Hwf; constructor|].
  intros k s7 s5 [? | (d & Hd & Hin)]%Hget; [done|].
  destruct (proj1 (Forall_forall _ _) Hls d Hd) as [Hdwf Hdok].
  apply Hdok. by apply elem_dict_get.
Qed.

Lemma load_index_lookups_ok w self i7l i5l pl :
  load_index_lookups w self = inr (i7l, i5l, pl) ->
  lookup_ok i7l /\ lookup_ok i5l
  /\ (pl = None <-> pair_maps self = [])
  /\ (forall d, pl = Some d -> pair_lookup_ok d).
Proof.
  unfold load_index_lookups.
  set (single := fun spec : string =>
         _parse_i7i5_map spec ≫= fun '(path, id_col, seq_col) =>
         read_csv w path ≫= fun raw =>
         load_single_index_table path id_col seq_col raw ≫= fun df =>
         inr (build_single_lookup df)).
  assert (Hsingle : forall specs ls, collect single specs = inr ls -> Forall lookup_ok ls).
  { intros specs ls Hc%collect_inr. eapply Forall_impl; [exact Hc|].
    intros d (spec & _ & Hd). unfold single in Hd.
    apply rbind_inr in Hd as ([[path idc] seqc] & _ & Hd).
    apply rbind_inr in Hd as (raw & _ & Hd).
    apply rbind_inr in Hd as (df & Hload & [= <-]).
    destruct (single_lookup_loaded _ _ _ _ _ Hload) as (_ & Hwf & _ & Hok & _).
    by split. }
  intros H.
  apply rbind_inr in H as (l7 & H7 & H). apply rbind_inr in H as (m7 & Hm7 & H).
  apply rbind_inr in H as (l5 & H5 & H). apply rbind_inr in H as (m5 & Hm5 & H).
  destruct (pair_maps self) as [|s0 specs] eqn:Ep.
  - injection H as <- <- <-.
    split; [by eapply merge_single_ok, Hm7; eapply Hsingle|].
    split; [by eapply merge_single_ok, Hm5; eapply Hsingle|].
    split; [done|]. done.
  - apply rbind_inr in H as (lp & Hp & H). apply rbind_inr in H as (mp & Hmp & [= <- <- <-]).
    split; [by eapply merge_single_ok, Hm7; eapply Hsingle|].
    split; [by eapply merge_single_ok, Hm5; eapply Hsingle|].
    split; [done|]. intros d [= <-]. eapply merge_pair_ok; [|exact Hmp].
    apply collect_inr in Hp. eapply Forall_impl; [exact Hp|].
    intros d (spec & _ & Hd).
    apply rbind_inr in Hd as ([[[path kc] c7] c5] & _ & Hd).
    apply rbind_inr in Hd as (raw & _ & Hd).
    apply rbind_inr in Hd as (df & Hload & [= <-]).
    destruct (pair_lookup_loaded _ _ _ _ _ _ Hload) as (_ & Hwf & _ & Hok).
    by split.
Qed.

(** X27. The lookups that a run loads: in the merged i7 and i5 lookups
    and in the merged paired lookup every ID stands once, is not blank
    and is stripped, and every sequence is canonical; and there is a
    paired lookup exactly when a paired map was given. *)
Theorem X27_load_index_lookups (w : World) (self : RunContext) (i7l i5l : Dict string)
    (pl : option (Dict (string * string))) :
  load_index_lookups w self = inr (i7l, i5l, pl) ->
  lookup_ok i7l /\ lookup_ok i5l
  /\ (pl = None <-> pair_maps self = [])
  /\ (forall d, pl = Some d -> pair_lookup_ok d).
Proof. apply load_index_lookups_ok. Qed.

(** ** context.py: what a run that ends leaves behind *)

(** The steps of a run that raises nothing. *)
Lemma run_inr w self o :
  run w self = inr o ->
  exists df_raw df_expanded df_norm i7l i5l pl,
    expand_lanes (sheet_rows df_raw) = inr df_expanded
    /\ normalize_minimal (sheet_columns df_raw) df_expanded = inr df_norm
    /\ load_index_lookups w self = inr (i7l, i5l, pl)
    /\ let res := resolve_indexes df_norm i7l i5l pl in
       let vs := validate_all (rr_df res) in
       let ps := (problems self ++ rr_problems res ++ vs_problems vs)%list in
       df_resolved (context o) = Some (rr_df res)
       /\ lane_barcode_mismatches (context o) = vs_lane_barcode_mismatches vs
       /\ problems (context o) = ps
       /\ (exit_code o = 0 -> Forall (fun p => level p ≠ ERROR) ps)
       /\ (forall out, output_file o = Some out ->
             exit_code o = 0 /\ out = sort_by output_leb (rr_df res)).
Proof.
  unfold run. intros H.
  apply rbind_inr in H as (df_raw & _ & H).
  apply rbind_inr in H as ([] & _ & H).
  apply rbind_inr in H as (df_expanded & He & H).
  apply rbind_inr in H as (df_norm & Hn & H).
  apply rbind_inr in H as ([[i7l i5l] pl] & Hl & H).
  exists df_raw, df_expanded, df_norm, i7l, i5l, pl.
  split; [done|]. split; [done|]. split; [done|].
  cbn zeta in *. cbn [problems dry_run] in H.
  set (res := resolve_indexes df_norm i7l i5l pl) in *.
  set (vs := validate_all (rr_df res)) in *.
  set (ps := (problems self ++ rr_problems res ++ vs_problems vs)%list) in *.
  destruct (any (map is_error ps)) eqn:Herr.
  - injection H as <-. cbn [context exit_code output_file problems df_resolved
                               lane_barcode_mismatches].
    repeat split; done.
  - assert (Hall : Forall (fun p => level p ≠ ERROR) ps).
    { apply Forall_forall. intros p Hp Hlv.
      assert (any (map is_error ps) = true); [|congruence].
      apply any_is_error, Exists_exists. by exists p. }
    destruct (dry_run self); simpl in H; injection H as <-;
      cbn [context exit_code output_file problems df_resolved lane_barcode_mismatches];
      repeat split; try done.
    by match goal with Heq : Some _ = Some _ |- _ => injection Heq as <- end.
Qed.

Lemma validate_all_mm df :
  vs_lane_barcode_mismatches (validate_all df) = (validate_indexes_per_lane df).2.
Proof. unfold validate_all. by destruct (validate_indexes_per_lane df). Qed.

Lemma pair_lookup_ok_canonical pl :
  (forall d, pl = Some d -> pair_lookup_ok d) -> pair_lookup_canonical pl.
Proof.
  intros H d k s7 s5 Hpl Hget. destruct (H d Hpl) as [_ Hok].
  by destruct (Hok k s7 s5 Hget) as (_ & ? & ?).
Qed.

(** X28. A run that raises nothing: every row of the resolved table
    has a lane from 1 to 8; the tolerance map has lanes from 1 to 8
    only, each with 0 or 1; and when the exit code is 0 every row of
    the resolved table has an i7 sequence, so every written row has a
    lane from 1 to 8 and an i7 sequence. *)
Theorem X28_run_invariants (w : World) (self : RunContext) (o : Outcome) :
  run w self = inr o ->
  (forall df, df_resolved (context o) = Some df ->
     Forall (fun r => 1 <= lane r <= 8) df
     /\ (exit_code o = 0 -> Forall (fun r => present (i7 r) = true) df))
  /\ (forall l v, lane_barcode_mismatches (context o) !! l = Some v ->
        1 <= l <= 8 /\ (v = 0 \/ v = 1))
  /\ (forall out, output_file o = Some out ->
        Forall (fun r => 1 <= lane r <= 8 /\ present (i7 r) = true) out).
Proof.
  intros (df_raw & df_expanded & df_norm & i7l & i5l & pl & He & Hn & Hl & H)%run_inr.
  cbn zeta in H. destruct H as (Hdf & Hmm & Hps & Hexit & Hout).
  set (res := resolve_indexes df_norm i7l i5l pl) in *.
  assert (Hlanes : Forall (fun r => 1 <= lane r <= 8) (rr_df res)).
  { unfold res. rewrite resolve_indexes_df. apply Forall_forall.
    intros r' (r & -> & Hr)%list_elem_of_fmap. rewrite resolve_row_resolved.
    apply normalize_minimal_inr in Hn as ->.
    apply list_elem_of_fmap in Hr as (r0 & -> & Hr0).
    apply (proj1 (Forall_forall _ _) (expand_lanes_range _ _ He) r0 Hr0). }
  assert (Hi7 : exit_code o = 0 -> Forall (fun r => present (i7 r) = true) (rr_df res)).
  { intros H0%Hexit. apply quiet_resolution_has_i7.
    - apply pair_lookup_ok_canonical. by apply (load_index_lookups_ok _ _ _ _ _ Hl).
    - destruct (rr_problems res) as [|p ps] eqn:E; [done|]. exfalso.
      assert (p ∈ rr_problems res) as Hp by (rewrite E; left).
      unfold res in Hp. rewrite resolve_indexes_problems in Hp.
      apply elem_of_concat in Hp as (qs & Hq & (r & -> & _)%list_elem_of_fmap).
      apply resolve_row_problems in Hq as (Hlv & _).
      apply (proj1 (Forall_forall _ _) H0 p); [|done].
      rewrite !elem_of_app. right. left. left. }
  split; [|split].
  - intros df Hdf'. rewrite Hdf in Hdf'. injection Hdf' as <-. by split.
  - intros l v. rewrite Hmm, validate_all_mm. intros Hv.
    pose proof (lane_mm_lane _ _ _ Hv) as Hin. split.
    + change (map lane (rr_df res)) with (lane <$> rr_df res) in Hin.
      apply list_elem_of_fmap in Hin as (r & -> & Hr).
      by apply (proj1 (Forall_forall _ _) Hlanes).
    + destruct (lane_result _ _ Hin) as [Hres _]. rewrite Hres in Hv. injection Hv as <-.
      destruct (validate_lane_shape l (lane_rows (rr_df res) l)) as (? & ? & _ & _ & _ & Hc).
      destruct Hc as [[Hc _] | [Hc _]]; [left | right]; exact Hc.
  - intros out (H0 & ->)%Hout. rewrite sort_by_perm.
    specialize (Hi7 H0). apply Forall_forall. intros r Hr. split.
    + by apply (proj1 (Forall_forall _ _) Hlanes).
    + by apply (proj1 (Forall_forall _ _) Hi7).
Qed.

Lemma X27_witness :
  exists i7l : Dict string,
    load_index_lookups Sample.world Sample.ctx = inr (i7l, i7l, None) /\ lookup_ok i7l.
Proof.
  eexists. split; [vm_compute; reflexivity|].
  eapply (X27_load_index_lookups Sample.world Sample.ctx). vm_compute. reflexivity.
Defined.

Lemma X28_witness :
  exists o,
    run Sample.world Sample.ctx = inr o
    /\ forall l v, lane_barcode_mismatches (context o) !! l = Some v ->
                   1 <= l <= 8 /\ (v = 0 \/ v = 1).
Proof.
  eexists. split; [vm_compute; reflexivity|].
  eapply (X28_run_invariants Sample.world Sample.ctx). vm_compute. reflexivity.
Defined.


(** ** indexes.py: the tables that load *)

(** X29. The loaders accept exactly the tables that have the named
    columns and in which, among the rows with an ID, every sequence is
    present and no ID stands twice (for a single-index table also no
    sequence); the result is then these rows. *)
Theorem X29_loaders_accept (path : string) (df : DataFrame) :
  (forall id_col seq_col out,
     load_single_index_table path id_col seq_col df = inr out
     <-> exists ids seqs,
           column df id_col = Some ids /\ column df seq_col = Some seqs
           /\ out = kept_rows ids (map normalize_seq seqs)
           /\ Forall (fun r => is_Some r.2) out
           /\ NoDup out.*1 /\ NoDup out.*2)
  /\ (forall pair_id_col i7_col i5_col out,
        load_paired_index_table path pair_id_col i7_col i5_col df = inr out
        <-> exists ids s7 s5,
              column df pair_id_col = Some ids
              /\ column df i7_col = Some s7 /\ column df i5_col = Some s5
              /\ out = kept_rows ids (zip (map normalize_seq s7) (map normalize_seq s5))
              /\ Forall (fun r => is_Some r.2.1 /\ is_Some r.2.2) out
              /\ NoDup out.*1).
Proof.
  split.
  - intros id_col seq_col out. unfold load_single_index_table.
    destruct (column df id_col) as [ids|]; [|split; [done | by intros (? & ? & ? & _)]].
    destruct (column df seq_col) as [seqs|]; [|split; [done | by intros (? & ? & _ & ? & _)]].
    fold (kept_rows ids (map normalize_seq seqs)).
    set (tab := kept_rows ids (map normalize_seq seqs)).
    assert (any (map (fun r : string * option string => bool_decide (r.2 = None)) tab) = false
            <-> Forall (fun r : string * option string => is_Some r.2) tab) as Hbad.
    { rewrite any_map_false. split; intros H; (eapply Forall_impl; [exact H|]);
        intros [k o]; simpl.
      - intros Hx%bool_decide_eq_false. destruct o; [by eexists | done].
      - intros [s ->]. by apply bool_decide_eq_false_2. }
    split.
    + destruct (any (map _ tab)) eqn:E1; [done|].
      destruct (any (duplicated_all (map fst tab))) eqn:E2; [done|].
      destruct (any (duplicated_all (map snd tab))) eqn:E3; [done|].
      intros [= <-]. exists ids, seqs. repeat split; try done.
      * by apply Hbad.
      * by apply duplicated_all_none in E2.
      * by apply duplicated_all_none in E3.
    + intros (ids' & seqs' & [= <-] & [= <-] & -> & H1 & H2 & H3). fold tab in H1, H2, H3.
      apply Hbad in H1. apply duplicated_all_none in H2, H3.
      change (tab.*1) with (map fst tab) in H2. change (tab.*2) with (map snd tab) in H3.
      by rewrite H1, H2, H3.
  - intros pair_id_col i7_col i5_col out. unfold load_paired_index_table.
    destruct (column df pair_id_col) as [ids|];
      [|split; [done | by intros (? & ? & ? & ? & _)]].
    destruct (column df i7_col) as [c7|];
      [|split; [done | by intros (? & ? & ? & _ & ? & _)]].
    destruct (column df i5_col) as [c5|];
      [|split; [done | by intros (? & ? & ? & _ & _ & ? & _)]].
    fold (kept_rows ids (zip (map normalize_seq c7) (map normalize_seq c5))).
    set (tab := kept_rows ids (zip (map normalize_seq c7) (map normalize_seq c5))).
    assert (any (map (fun r : string * (option string * option string) =>
                        bool_decide (r.2.1 = None) || bool_decide (r.2.2 = None)) tab) = false
            <-> Forall (fun r : string * (option string * option string) =>
                          is_Some r.2.1 /\ is_Some r.2.2) tab) as Hbad.
    { rewrite any_map_false. split; intros H; (eapply Forall_impl; [exact H|]);
        intros [k [a b]]; simpl.
      - intros [Ha%bool_decide_eq_false Hb%bool_decide_eq_false]%orb_false_iff.
        destruct a, b; try done; split; by eexists.
      - intros [[s7 ->] [s5 ->]]. apply orb_false_iff.
        split; by apply bool_decide_eq_false_2. }
    split.
    + destruct (any (map _ tab)) eqn:E1; [done|].
      destruct (any (duplicated (map fst tab))) eqn:E2; [done|].
      intros [= <-]. exists ids, c7, c5. repeat split; try done.
      * by apply Hbad.
      * by apply duplicated_none in E2.
    + intros (ids' & c7' & c5' & [= <-] & [= <-] & [= <-] & -> & H1 & H2).
      fold tab in H1, H2. apply Hbad in H1. apply duplicated_none in H2.
      change (tab.*1) with (map fst tab) in H2.
      by rewrite H1, H2.
Qed.


(** ** validate.py: duplicate indexes in a lane *)

Lemma select_zip {A B} (xs : list A) (ys : list B) mask :
  select (zip xs ys) mask = zip (select xs mask) (select ys mask).
Proof.
  revert ys mask. induction xs as [|x xs IH]; intros [|y ys] [|b mask]; simpl;
    rewrite ?zip_with_nil_r; try done.
  destruct b; simpl; by rewrite IH.
Qed.

Lemma select_lookup_zip (A : list string) (B : list (option string)) mask :
  List.length mask = List.length A -> List.length B = List.length A ->
  map (fun i => at_index A i +:+ "+" +:+ str (cell (default None (B !! i))))
      (select (seq 0 (List.length mask)) mask)
  = map (fun p : string * option string => p.1 +:+ "+" +:+ str (cell p.2))
        (select (zip A B) mask).
Proof.
  revert B mask. induction A as [|a A IH]; intros [|b B] [|c mask]; simpl; try done.
  intros [= Hl] [= Hb]. rewrite <- fmap_S_seq.
  change (S <$> seq 0 (List.length mask)) with (map S (seq 0 (List.length mask))).
  rewrite select_map. destruct c; simpl; rewrite map_map; cbn [at_index]; simpl;
    by rewrite <- (IH B mask Hl Hb).
Qed.

Lemma select_i5_by_row (td : list (Row Z)) m :
  select (map (fun r => option_map (take m) (normalize_seq (i5 r))) td)
         (map (fun r => present (i5 r)) td)
  = map Some (map (take m) (lane_i5 td)).
Proof.
  unfold lane_i5, present. induction td as [|r td IH]; [done|]. csimpl.
  destruct (normalize_seq (i5 r)); csimpl; by rewrite IH.
Qed.

Lemma zip_map_Some_r {A B} (f : A * B -> string) (g : A * option B -> string)
    (xs : list A) (ys : list B) :
  (forall x y, g (x, Some y) = f (x, y)) ->
  map g (zip xs (map Some ys)) = map f (zip xs ys).
Proof.
  intros H. revert ys. induction xs as [|x xs IH]; intros [|y ys]; simpl; try done.
  by rewrite H, IH.
Qed.

(** The keys by which the validator compares the dual-index rows. *)
Lemma dual_keys (td : list (Row Z)) :
  Forall (fun r => present (i7 r) = true) td ->
  map (fun row_i =>
         at_index (trimmed (lane_i7 td)) row_i +:+ "+"
         +:+ str (cell (default None (lane_i5_by_row td !! row_i))))
      (dual_positions td)
  = map (fun p : string * string => p.1 +:+ "+" +:+ p.2) (dual_pairs_of td).
Proof.
  intros H7. pose proof (trimmed_lane_length td H7) as HA.
  unfold dual_positions, dual_pairs_of, dual_rows_i7.
  set (md := map (fun r => present (i5 r)) td).
  assert (List.length md = List.length (trimmed (lane_i7 td))) as Hmd
    by (unfold md; by rewrite length_map).
  rewrite <- HA, <- Hmd. rewrite select_lookup_zip; [|done|].
  - rewrite select_zip. unfold lane_i5_by_row, md. rewrite select_i5_by_row.
    fold (trimmed (lane_i5 td)). by apply zip_map_Some_r.
  - unfold lane_i5_by_row. by rewrite length_map.
Qed.

Lemma sapp_inj_len (a b c d : string) :
  len a = len c -> a +:+ "+" +:+ b = c +:+ "+" +:+ d -> a = c /\ b = d.
Proof.
  unfold len. revert c. induction a as [|x a IH]; intros [|y c]; simpl; try done.
  - intros _ H. change (String "+" b = String "+" d) in H. by injection H as ->.
  - intros [= Hl] H.
    change (String x (a +:+ "+" +:+ b) = String y (c +:+ "+" +:+ d)) in H.
    injection H as -> H. by destruct (IH c Hl H) as [-> ->].
Qed.

Lemma select_subset {A} (xs : list A) mask x : x ∈ select xs mask -> x ∈ xs.
Proof.
  revert mask. induction xs as [|y xs IH]; intros [|b mask]; simpl;
    try (by intros ?%elem_of_nil).
  destruct b.
  - intros [-> | H]%elem_of_cons; [left | right; by eapply IH].
  - intros H. right. by eapply IH.
Qed.

Lemma elem_of_zip_l {A B} (xs : list A) (ys : list B) x y : (x, y) ∈ zip xs ys -> x ∈ xs.
Proof.
  revert ys. induction xs as [|a xs IH]; intros [|b ys]; simpl;
    try (by intros ?%elem_of_nil).
  intros [[= -> ->] | Hin]%elem_of_cons; [left | right; by eapply IH].
Qed.

Lemma dual_keys_NoDup (td : list (Row Z)) :
  NoDup (map (fun p : string * string => p.1 +:+ "+" +:+ p.2) (dual_pairs_of td))
  <-> NoDup (dual_pairs_of td).
Proof.
  split; [apply NoDup_fmap_1|].
  apply NoDup_fmap_2_strong. intros [x1 y1] [x2 y2] H1 H2 Heq. simpl in Heq.
  assert (forall x y, (x, y) ∈ dual_pairs_of td ->
                      len x = min_list 0 (map len (lane_i7 td))) as Hlen.
  { intros x y Hin. apply elem_of_zip_l in Hin. unfold dual_rows_i7 in Hin.
    apply select_subset in Hin. by apply trimmed_len. }
  destruct (sapp_inj_len x1 y1 x2 y2) as [-> ->]; [|done|done].
  by rewrite (Hlen _ _ H1), (Hlen _ _ H2).
Qed.

Lemma dual_pair_problems_some l td A B idxs :
  let keys :=
    map (fun row_i => at_index A row_i +:+ "+" +:+ str (cell (default None (B !! row_i))))
        idxs in
  (forall p, p ∈ dual_pair_problems l td A B idxs ->
             lane_problem ERROR "INDEX_DUPLICATE_IN_LANE" l p)
  /\ (dual_pair_problems l td A B idxs ≠ [] <-> ~ NoDup keys).
Proof.
  intros keys. unfold dual_pair_problems. fold keys.
  destruct (any (duplicated_all keys)) eqn:E.
  - split.
    + intros p (q & -> & _)%list_elem_of_fmap. done.
    + rewrite <- duplicated_all_none, E. split; [done|]. intros _.
      rewrite map_nil_iff, sorted_set_nil, duplicates_nil.
      rewrite <- duplicated_all_none, E. done.
  - split; [by intros p ?%elem_of_nil|].
    rewrite <- duplicated_all_none, E. split; [done | by intros []].
Qed.

Lemma rows_of_count (A : list string) x :
  List.length (select (seq 0 (List.length A)) (map (fun y => bool_decide (y = x)) A))
  = List.length (filter (fun y => y = x) A).
Proof.
  rewrite (select_length _ A) by by rewrite length_seq.
  rewrite select_mask_filter. f_equal. apply list_filter_iff. intros y.
  by rewrite bool_decide_eq_true.
Qed.

Lemma single_i7_problems_some l td A idxs :
  (forall p, p ∈ single_i7_problems l td A idxs ->
             lane_problem ERROR "SINGLE_I7_DUPLICATE_IN_LANE" l p)
  /\ (single_i7_problems l td A idxs ≠ []
      <-> exists x, x ∈ map (at_index A) idxs
                    /\ (1 < List.length (filter (fun y => y = x) A))%nat).
Proof.
  unfold single_i7_problems. split.
  - intros p (ps & Hp & (i & -> & _)%list_elem_of_fmap)%elem_of_concat.
    case_bool_decide; [|by apply elem_of_nil in Hp].
    by apply list_elem_of_singleton in Hp as ->.
  - induction idxs as [|i idxs IH]; simpl.
    + split; [done | by intros (x & ?%elem_of_nil & _)].
    + rewrite rows_of_count. case_bool_decide as Hc.
      * split; [|done]. intros _. exists (at_index A i). split; [left | done].
      * cbn [app]. rewrite IH. split.
        -- intros (x & Hx & Hn). exists x. split; [by right | done].
        -- intros (x & [-> | Hx]%elem_of_cons & Hn); [done|]. by exists x.
Qed.

Lemma single_rows_positions (td : list (Row Z)) :
  Forall (fun r => present (i7 r) = true) td ->
  map (at_index (trimmed (lane_i7 td))) (single_positions td) = single_rows_i7 td.
Proof.
  intros H7. pose proof (trimmed_lane_length td H7) as HA.
  unfold single_positions, single_rows_i7.
  set (ms := map (fun r => negb (present (i5 r))) td).
  assert (List.length ms = List.length (trimmed (lane_i7 td))) as Hms
    by (unfold ms; by rewrite length_map).
  rewrite <- HA, <- Hms. by apply select_positions.
Qed.

Lemma app_if_nonempty {A} (b : bool) (xs : list A) :
  (if negb b then xs else []) ≠ [] <-> b = false /\ xs ≠ [].
Proof. destruct b; simpl; split; try done; [by intros [? ?] | by intros [_ ?]]. Qed.

(** X30. A lane in which every row has an i7 sequence. The ERROR
    INDEX_DUPLICATE_IN_LANE is reported for the lane exactly when two
    of its dual-index rows have the same lane-trimmed i7 and the same
    lane-trimmed i5; the ERROR SINGLE_I7_DUPLICATE_IN_LANE exactly when
    the lane-trimmed i7 of a single-index row is also that of another
    row of the lane. *)
Theorem X30_duplicate_indexes (df : list (Row Z)) (l : Z) :
  let td := lane_rows df l in
  td ≠ [] ->
  Forall (fun r => present (i7 r) = true) td ->
  let probs := (validate_indexes_per_lane df).1 in
  ((exists p, p ∈ probs /\ lane_problem ERROR "INDEX_DUPLICATE_IN_LANE" l p)
   <-> ~ NoDup (dual_pairs_of td))
  /\ ((exists p, p ∈ probs /\ lane_problem ERROR "SINGLE_I7_DUPLICATE_IN_LANE" l p)
      <-> exists x, x ∈ single_rows_i7 td /\ (1 < i7_count td x)%nat).
Proof.
  intros td Hne H7 probs.
  pose proof (lane_rows_lane _ _ Hne) as Hl.
  destruct (lane_result df l Hl) as [_ Hin]. fold td probs in Hin.
  destruct (validate_lane_present l td (present_is_Some _ H7)) as (pol & Hv & Hw & _).
  rewrite Hv in Hin. cbn [fst] in Hin.
  set (pd := dual_pair_problems l td (trimmed (lane_i7 td)) (lane_i5_by_row td)
               (dual_positions td)).
  set (ps := single_i7_problems l td (trimmed (lane_i7 td)) (single_positions td)).
  destruct (dual_pair_problems_some l td (trimmed (lane_i7 td)) (lane_i5_by_row td)
              (dual_positions td)) as [Hdc Hdn].
  destruct (single_i7_problems_some l td (trimmed (lane_i7 td)) (single_positions td))
    as [Hsc Hsn].
  cbn zeta in Hdn. rewrite (dual_keys td H7), dual_keys_NoDup in Hdn.
  rewrite (single_rows_positions td H7) in Hsn.
  fold pd in Hdc, Hdn. fold ps in Hsc, Hsn.
  assert (Hmem : forall p,
            p ∈ probs /\ p_lane p = Some l
            <-> (dual_rows_i7 td ≠ [] /\ p ∈ pd) \/ (single_rows_i7 td ≠ [] /\ p ∈ ps)
                \/ p ∈ pol.1).
  { intros p. rewrite <- Hin. unfold lane_errors. fold pd ps. rewrite !elem_of_app.
    destruct (decide (dual_rows_i7 td = [])) as [Ed|Ed];
      destruct (decide (single_rows_i7 td = [])) as [Es|Es];
      rewrite ?(bool_decide_eq_true_2 _ Ed), ?(bool_decide_eq_false_2 _ Ed),
        ?(bool_decide_eq_true_2 _ Es), ?(bool_decide_eq_false_2 _ Es); cbn [negb];
      rewrite ?elem_of_nil; tauto. }
  assert (Hd_empty : dual_rows_i7 td = [] -> NoDup (dual_pairs_of td)).
  { intros E. unfold dual_pairs_of. rewrite E. constructor. }
  assert (Hs_empty : single_rows_i7 td = [] ->
                     ~ exists x, x ∈ single_rows_i7 td /\ (1 < i7_count td x)%nat).
  { intros E (x & Hx & _). rewrite E in Hx. by apply elem_of_nil in Hx. }
  split.
  - split.
    + intros (p & Hp & Hlv & Hc & Hlane).
      destruct (proj1 (Hmem p) (conj Hp Hlane)) as [[Ed Hpd] | [[Es Hps] | Hpol]].
      * apply Hdn. intros E. rewrite E in Hpd. by apply elem_of_nil in Hpd.
      * destruct (Hsc p Hps) as (_ & Hc' & _). congruence.
      * destruct (proj1 (Forall_forall _ _) Hw p Hpol) as (Hlv' & _). congruence.
    + intros Hdup. assert (pd ≠ []) as Hpd by by apply Hdn.
      destruct pd as [|p pd'] eqn:E; [done|]. exists p.
      assert (p ∈ p :: pd') as Hp by left. split; [|by apply Hdc].
      apply Hmem. left. split; [|done]. intros Ed. by apply Hdup, Hd_empty.
  - split.
    + intros (p & Hp & Hlv & Hc & Hlane).
      destruct (proj1 (Hmem p) (conj Hp Hlane)) as [[Ed Hpd] | [[Es Hps] | Hpol]].
      * destruct (Hdc p Hpd) as (_ & Hc' & _). congruence.
      * apply Hsn. intros E. rewrite E in Hps. by apply elem_of_nil in Hps.
      * destruct (proj1 (Forall_forall _ _) Hw p Hpol) as (Hlv' & _). congruence.
    + intros Hdup. assert (ps ≠ []) as Hps by by apply Hsn.
      destruct ps as [|p ps'] eqn:E; [done|]. exists p.
      assert (p ∈ p :: ps') as Hp by left. split; [|by apply Hsc].
      apply Hmem. right. left. split; [|done]. intros Es. by apply (Hs_empty Es).
Qed.

Lemma X30_witness :
  ~ NoDup (dual_pairs_of (lane_rows Repeats.lane 6))
  /\ exists p, p ∈ (validate_indexes_per_lane Repeats.lane).1
               /\ lane_problem ERROR "INDEX_DUPLICATE_IN_LANE" 6 p.
Proof.
  assert (~ NoDup (dual_pairs_of (lane_rows Repeats.lane 6))) as Hdup.
  { vm_compute. intros [Hnot _]%NoDup_cons. apply Hnot. left. }
  split; [exact Hdup|].
  destruct (X30_duplicate_indexes Repeats.lane 6) as [Hd _].
  - done.
  - repeat constructor.
  - by apply Hd.
Defined.

